(** * lunchmoney-auto-categorize: the suggestion / matching / approval pipeline

    A shallow embedding of the TypeScript application (the browser entry
    module): prompt construction, response parsing, category matching and
    validation, the confidence badge, and the sequential orchestrator
    [run] with its cooperative cancellation flag.

    Further on, the prompt of a transaction ([parsePlaidMetadata],
    [buildTransactionPrompt]) over any parsed metadata, and the pure
    helpers of the page: [esc], [nextTheme], [getModelTemperature] and
    the width [setBar] writes.

    Conventions.
    - A JavaScript string is the sequence of its UTF-16 code units
      ([jsstring]); [lit] injects an ASCII literal.
    - A JavaScript [number] is an IEEE 754 binary64 value ([spec_float]
      with precision 53 and maximal exponent 1024), so arithmetic rounds
      as it does in the engine.
    - [console.warn], [log] and [setBar] are recorded in output traces.
    - An exception is a value of a sum type; [await] points are the places
      where the environment may act (resolve a call, press a button). *)

From Stdlib Require Import ZArith NArith List Bool String Ascii Lia.
From Stdlib Require Import Floats.SpecFloat.
From stdpp Require Import base decidable option list countable gmap.
Import ListNotations.

#[local] Set Warnings "-register-all".
Local Open Scope Z_scope.

(* ================================================================== *)
(** * JavaScript strings *)
(* ================================================================== *)

Definition jsstring := list N.

Definition lit (s : string) : jsstring :=
  List.map N_of_ascii (list_ascii_of_string s).

(** An ASCII literal in which each apostrophe stands for a double quote
    (JSON texts are written this way below). *)
Definition litq (s : string) : jsstring :=
  List.map (fun c => if (c =? 39)%N then 34%N else c) (lit s).

Definition newline : jsstring := [10%N].

(** The one-character string made of a double quote. *)
Definition dquote : jsstring := [34%N].

Definition jsstring_eqb (a b : jsstring) : bool := bool_decide (a = b).

(** [s.startsWith(p)] *)
Fixpoint startsWith (s p : jsstring) {struct p} : bool :=
  match p, s with
  | [], _ => true
  | _ :: _, [] => false
  | c :: p', d :: s' => N.eqb c d && startsWith s' p'
  end.

(** [s.includes(sub)]: [sub] occurs in [s] as a contiguous run. *)
Fixpoint includes (s sub : jsstring) : bool :=
  startsWith s sub ||
  match s with
  | [] => false
  | _ :: s' => includes s' sub
  end.

(** [s.indexOf(sub)], [None] standing for [-1]. *)
Fixpoint indexOf (s sub : jsstring) : option nat :=
  if startsWith s sub then Some O
  else match s with
       | [] => None
       | _ :: s' => option_map S (indexOf s' sub)
       end.

(** [s.lastIndexOf(sub)], [None] standing for [-1]. *)
Fixpoint lastIndexOf (s sub : jsstring) : option nat :=
  match s with
  | [] => if startsWith s sub then Some O else None
  | _ :: s' =>
      match lastIndexOf s' sub with
      | Some i => Some (S i)
      | None => if startsWith s sub then Some O else None
      end
  end.

(** [s.slice(from, to)] for indices inside the string. *)
Definition slice (s : jsstring) (from to : nat) : jsstring :=
  take (to - from) (drop from s).

(** White space and line terminators: what [trim] strips and what the
    regular expression class [\s] matches. *)
Definition isWhiteSpace (c : N) : bool :=
  let c := Z.of_N c in
  (9 <=? c) && (c <=? 13) || (c =? 32) || (c =? 160) || (c =? 5760) ||
  (8192 <=? c) && (c <=? 8202) || (c =? 8232) || (c =? 8233) ||
  (c =? 8239) || (c =? 8287) || (c =? 12288) || (c =? 65279).

Fixpoint trimStart (s : jsstring) : jsstring :=
  match s with
  | c :: s' => if isWhiteSpace c then trimStart s' else s
  | [] => []
  end.

Definition trimEnd (s : jsstring) : jsstring := rev (trimStart (rev s)).

Definition trim (s : jsstring) : jsstring := trimEnd (trimStart s).

(** [parts.join(sep)] *)
Fixpoint join (sep : jsstring) (parts : list jsstring) : jsstring :=
  match parts with
  | [] => []
  | [p] => p
  | p :: rest => p ++ sep ++ join sep rest
  end.

(** [String.prototype.toLowerCase] restricted to what it does on the
    ASCII letters; it is the engine's function on every string whose code
    units are below 128, which is all the examples below need.  The
    matcher itself is stated over an arbitrary lower-casing function. *)
Definition toLowerCase_ascii (s : jsstring) : jsstring :=
  List.map (fun c => if (65 <=? c)%N && (c <=? 90)%N then (c + 32)%N else c) s.

(** Decimal rendering of an integer, as [String(n)] prints a number that
    is an integer of magnitude below 10^21. *)
Fixpoint digits_fuel (fuel : nat) (n : N) (acc : jsstring) : jsstring :=
  match fuel with
  | O => acc
  | S fuel' =>
      let acc' := (48 + n mod 10)%N :: acc in
      if (n <? 10)%N then acc' else digits_fuel fuel' (n / 10)%N acc'
  end.

Definition N_toString (n : N) : jsstring :=
  digits_fuel (S (N.to_nat (N.log2 n))) n [].

Definition Z_toString (z : Z) : jsstring :=
  match z with
  | Zneg p => 45%N :: N_toString (Npos p)
  | _ => N_toString (Z.to_N z)
  end.

(* ================================================================== *)
(** * Data model *)
(* ================================================================== *)

(** [type LMCategory]; an optional field that is [undefined] or [null]
    is [None]. *)
Record LMCategory := mkCategory {
  id : Z;
  name : jsstring;
  description : option jsstring;
  archived : option bool;
  is_group : option bool;
  group_id : option Z
}.

Definition number := spec_float.

(** [type CategorySuggestion], its field [name] being [sname] here;
    [justification] is a string or [undefined], [confidence] a number
    or [null]. *)
Record CategorySuggestion := mkSuggestion {
  sname : jsstring;
  justification : option jsstring;
  confidence : option number
}.

(** JavaScript truthiness of an optional boolean field. *)
Definition truthy_flag (b : option bool) : bool := default false b.

(** The filter of [getCategories]: [c => !c.is_group && !c.archived]. *)
Definition getCategories_filter (cats : list LMCategory) : list LMCategory :=
  List.filter (fun c => negb (truthy_flag (is_group c)) && negb (truthy_flag (archived c))) cats.

(* ================================================================== *)
(** * Category matching and validation *)
(* ================================================================== *)

Section Matcher.

(** [String.prototype.toLowerCase] *)
Variable toLowerCase : jsstring -> jsstring.

Definition exactMatch (q : jsstring) (c : LMCategory) : bool :=
  jsstring_eqb (name c) q.

Definition caseInsensitiveMatch (q : jsstring) (c : LMCategory) : bool :=
  jsstring_eqb (toLowerCase (name c)) (toLowerCase q).

Definition fuzzyMatch (q : jsstring) (c : LMCategory) : bool :=
  let lo := toLowerCase q in
  includes (toLowerCase (name c)) lo || includes lo (toLowerCase (name c)).

Definition fuzzyWarning (q : jsstring) (found : LMCategory) : jsstring :=
  lit "Category suggestion " ++ dquote ++ q ++ dquote ++
  lit " did not match exactly. Using " ++ dquote ++ name found ++ dquote ++
  lit " instead.".

(** [matchCategoryId]: the result ([None] is [null]) and the lines it
    sends to [console.warn]. *)
Definition matchCategoryId (q : jsstring) (categories : list LMCategory)
  : option Z * list jsstring :=
  match List.find (exactMatch q) categories with
  | Some found => (Some (id found), [])
  | None =>
      match List.find (caseInsensitiveMatch q) categories with
      | Some found => (Some (id found), [])
      | None =>
          match List.find (fuzzyMatch q) categories with
          | Some found => (Some (id found), [fuzzyWarning q found])
          | None => (None, [])
          end
      end
  end.

End Matcher.

(** The line [validateCategorySuggestions] sends to [console.warn] for
    a suggestion it drops. *)
Definition invalidWarning (s : CategorySuggestion) : jsstring :=
  lit "Invalid category suggestion: " ++ dquote ++ sname s ++ dquote ++
  lit " is not in the category list".

(** [new Set(categories.map(c => c.name))] *)
Definition validCategoryNames (categories : list LMCategory) : gset jsstring :=
  list_to_set (List.map name categories).

(** [suggestions.filter(...)] with the test [validCategoryNames.has] and
    its warning: the kept suggestions and the warnings, in order. *)
Fixpoint filter_warn (valid : gset jsstring) (suggestions : list CategorySuggestion)
  : list CategorySuggestion * list jsstring :=
  match suggestions with
  | [] => ([], [])
  | s :: rest =>
      let isValid := bool_decide (sname s ∈ valid) in
      let '(kept, warns) := filter_warn valid rest in
      if isValid then (s :: kept, warns) else (kept, invalidWarning s :: warns)
  end.

Definition validateCategorySuggestions
    (suggestions : list CategorySuggestion) (categories : list LMCategory)
  : list CategorySuggestion * list jsstring :=
  filter_warn (validCategoryNames categories) suggestions.

(* ================================================================== *)
(** * Numbers *)
(* ================================================================== *)

Definition prec : Z := 53.
Definition emax : Z := 1024.

(** The number an integer literal denotes. *)
Definition of_Z (z : Z) : number := binary_normalize prec emax z 0 false.

Definition NaN : number := S754_nan.

(** [a < b], [a <= b], [a / b], [a * b] on numbers. *)
Definition num_ltb (a b : number) : bool := SFltb a b.
Definition num_leb (a b : number) : bool := SFleb a b.
Definition num_div (a b : number) : number := SFdiv prec emax a b.
Definition num_mul (a b : number) : number := SFmul prec emax a b.

(** [Number.isFinite(x)] for a value that is a number. *)
Definition Number_isFinite (x : number) : bool :=
  match x with
  | S754_zero _ | S754_finite _ _ _ => true
  | S754_infinity _ | S754_nan => false
  end.

(** [Math.min(a, b)] and [Math.max(a, b)]: a NaN argument gives NaN, and
    [-0] is below [+0]. *)
Definition Math_min (a b : number) : number :=
  match SFcompare a b with
  | None => NaN
  | Some Lt => a
  | Some Gt => b
  | Some Eq =>
      match a, b with
      | S754_zero sa, S754_zero sb => S754_zero (sa || sb)
      | _, _ => a
      end
  end.

Definition Math_max (a b : number) : number :=
  match SFcompare a b with
  | None => NaN
  | Some Lt => b
  | Some Gt => a
  | Some Eq =>
      match a, b with
      | S754_zero sa, S754_zero sb => S754_zero (sa && sb)
      | _, _ => a
      end
  end.

(** [Math.round(x)]: the integer nearest to [x], a tie going up; the
    sign of a zero result is the sign of [x]. *)
Definition Math_round (x : number) : number :=
  match x with
  | S754_finite s m e =>
      if 0 <=? e then x
      else
        let twice := cond_Zopp s (2 * Zpos m) in
        binary_normalize prec emax ((twice + 2 ^ (- e)) / 2 ^ (1 - e)) 0 s
  | _ => x
  end.

(** The number denoted by the decimal numeral [(-1)^neg * m * 10^e],
    rounded to nearest, ties to even, as a numeric literal of a JSON
    text is read. *)
Definition number_of_decimal (neg : bool) (m : N) (e : Z) : number :=
  match m with
  | N0 => S754_zero neg
  | Npos p =>
      if 0 <=? e then binary_normalize prec emax (cond_Zopp neg (Zpos p * 10 ^ e)) 0 neg
      else
        let '(q, e', l) := SFdiv_core_binary prec emax (Zpos p) 0 (10 ^ (- e)) 0 in
        binary_round_aux prec emax neg q e' l
  end.

(** [x < 10^n] for the positive rational [num / den]. *)
Definition below_pow10 (num den n : Z) : bool :=
  if 0 <=? n then num <? 10 ^ n * den else num * 10 ^ (- n) <? den.

(** The least [n'] from [n] on with [num / den < 10^n']. *)
Fixpoint decade (fuel : nat) (num den n : Z) : Z :=
  match fuel with
  | O => n
  | S fuel' => if below_pow10 num den n then n else decade fuel' num den (n + 1)
  end.

(** The shortest decimal that reads back as [x = num / den], and among
    those of that length the nearest to [x] (the even one on a tie): its
    digits [s], their number [k], and the exponent [n] such that the
    decimal is [s * 10^(n - k)].  With [k] digits the candidates are the
    two integers around [x * 10^(k - n)]. *)
Fixpoint shortest (fuel : nat) (x : number) (num den n k : Z) : Z * Z * Z :=
  let ynum := if 0 <=? k - n then num * 10 ^ (k - n) else num in
  let yden := if 0 <=? k - n then den else den * 10 ^ (n - k) in
  let lo := ynum / yden in
  let hi := lo + 1 in
  let reads s := SFeqb (number_of_decimal false (Z.to_N s) (n - k)) x in
  let twice := 2 * (ynum mod yden) in
  let pick s := if s =? 10 ^ k then (10 ^ (k - 1), k, n + 1) else (s, k, n) in
  match fuel with
  | O => pick lo
  | S fuel' =>
      match reads lo, reads hi with
      | true, true =>
          if twice <? yden then pick lo
          else if yden <? twice then pick hi
          else if Z.even lo then pick lo else pick hi
      | true, false => pick lo
      | false, true => pick hi
      | false, false => shortest fuel' x num den n (k + 1)
      end
  end.

Definition zeros (n : Z) : jsstring := repeat 48%N (Z.to_nat n).

(** The numeral of the positive finite number [x = m * 2^e]: plain
    digits, digits around a point, or the exponent notation, by the
    position [n] of the point. *)
Definition positiveNumeral (x : number) (m : positive) (e : Z) : jsstring :=
  let num := if 0 <=? e then Zpos m * 2 ^ e else Zpos m in
  let den := if 0 <=? e then 1 else 2 ^ (- e) in
  let '(s, k, n) := shortest 17 x num den (decade 640 num den (-324)) 1 in
  let ds := Z_toString s in
  if (k <=? n) && (n <=? 21) then ds ++ zeros (n - k)
  else if (0 <? n) && (n <=? 21) then
    take (Z.to_nat n) ds ++ lit "." ++ drop (Z.to_nat n) ds
  else if (-6 <? n) && (n <=? 0) then lit "0." ++ zeros (- n) ++ ds
  else
    let ex := (if 0 <=? n - 1 then lit "e+" else lit "e-") ++ Z_toString (Z.abs (n - 1)) in
    if k =? 1 then ds ++ ex
    else take 1 ds ++ lit "." ++ drop 1 ds ++ ex.

(** [String(x)] as the engines render a number: the shortest numeral
    that reads back as [x].  The pipeline below is stated over an
    arbitrary rendering [Number_toString]; this one serves the
    examples. *)
Definition shortestNumeral (x : number) : jsstring :=
  match x with
  | S754_nan => lit "NaN"
  | S754_zero _ => lit "0"
  | S754_infinity false => lit "Infinity"
  | S754_infinity true => lit "-Infinity"
  | S754_finite false m e => positiveNumeral x m e
  | S754_finite true m e => lit "-" ++ positiveNumeral (S754_finite false m e) m e
  end.

(* ================================================================== *)
(** * Values and exceptions *)
(* ================================================================== *)

(** What [JSON.parse] builds.  An object is the list of its members in
    the order of the text; a later member of the same key shadows an
    earlier one. *)
Inductive JSValue :=
| JNull
| JBool (b : bool)
| JNum (x : number)
| JStr (s : jsstring)
| JArr (items : list JSValue)
| JObj (members : list (jsstring * JSValue)).

Inductive exn :=
| Error (message : jsstring)      (* [new Error(message)] and transport failures *)
| SyntaxError (text : jsstring)   (* thrown by [JSON.parse(text)] *)
| TypeError.                      (* "Cannot convert object to primitive value" *)

Inductive completion (A : Type) :=
| Normal (a : A)
| Throw (e : exn).
Arguments Normal {A} a.
Arguments Throw {A} e.

Definition bind {A B} (c : completion A) (k : A -> completion B) : completion B :=
  match c with
  | Normal a => k a
  | Throw e => Throw e
  end.

Notation "'let*' x ':=' c 'in' k" := (bind c (fun x => k))
  (at level 10, x name, c at level 100, k at level 200).

Fixpoint mapM {A B} (f : A -> completion B) (l : list A) : completion (list B) :=
  match l with
  | [] => Normal []
  | a :: rest => let* b := f a in let* bs := mapM f rest in Normal (b :: bs)
  end.

(* ================================================================== *)
(** * JSON.parse *)
(* ================================================================== *)

Module JSON.

Inductive result (A : Type) :=
| Ok (a : A) (rest : jsstring)
| Bad            (* the text is not JSON: a SyntaxError *)
| OutOfFuel.
Arguments Ok {A} a rest.
Arguments Bad {A}.
Arguments OutOfFuel {A}.

Definition isJSONSpace (c : N) : bool :=
  (c =? 9)%N || (c =? 10)%N || (c =? 13)%N || (c =? 32)%N.

Fixpoint skip_ws (s : jsstring) : jsstring :=
  match s with
  | c :: s' => if isJSONSpace c then skip_ws s' else s
  | [] => []
  end.

Definition isDigit (c : N) : bool := (48 <=? c)%N && (c <=? 57)%N.

Definition hexValue (c : N) : option N :=
  if isDigit c then Some (c - 48)%N
  else if (97 <=? c)%N && (c <=? 102)%N then Some (c - 87)%N
  else if (65 <=? c)%N && (c <=? 70)%N then Some (c - 55)%N
  else None.

(** The character an escape letter stands for. *)
Definition unescape (e : N) : option N :=
  if (e =? 34)%N then Some 34%N            (* quote *)
  else if (e =? 92)%N then Some 92%N       (* backslash *)
  else if (e =? 47)%N then Some 47%N       (* slash *)
  else if (e =? 98)%N then Some 8%N        (* b: backspace *)
  else if (e =? 102)%N then Some 12%N      (* f: form feed *)
  else if (e =? 110)%N then Some 10%N      (* n: line feed *)
  else if (e =? 114)%N then Some 13%N      (* r: carriage return *)
  else if (e =? 116)%N then Some 9%N       (* t: tab *)
  else None.

Definition hex4 (a b c d : N) : option N :=
  match hexValue a, hexValue b, hexValue c, hexValue d with
  | Some a, Some b, Some c, Some d => Some ((((a * 16 + b) * 16 + c) * 16 + d)%N)
  | _, _, _, _ => None
  end.

Definition push (c : N) (o : option (jsstring * jsstring)) : option (jsstring * jsstring) :=
  match o with
  | Some (str, r) => Some (c :: str, r)
  | None => None
  end.

(** The characters of a string literal after its opening quote, up to
    and including the closing quote: the decoded string and the rest
    of the text. *)
Fixpoint string_body (s : jsstring) : option (jsstring * jsstring) :=
  match s with
  | [] => None
  | c :: rest =>
      if (c =? 34)%N then Some ([], rest)
      else if (c =? 92)%N then
        match rest with
        | [] => None
        | e :: rest' =>
            if (e =? 117)%N then
              match rest' with
              | h1 :: h2 :: h3 :: h4 :: rest'' =>
                  match hex4 h1 h2 h3 h4 with
                  | Some u => push u (string_body rest'')
                  | None => None
                  end
              | _ => None
              end
            else
              match unescape e with
              | Some u => push u (string_body rest')
              | None => None
              end
        end
      else if (c <? 32)%N then None
      else push c (string_body rest)
  end.

(** The longest run of decimal digits at the head of [s]. *)
Fixpoint digits (s : jsstring) : list N * jsstring :=
  match s with
  | c :: s' =>
      if isDigit c then let '(ds, r) := digits s' in ((c - 48)%N :: ds, r)
      else ([], s)
  | [] => ([], [])
  end.

Definition digits_value (ds : list N) : N :=
  fold_left (fun acc d => (acc * 10 + d)%N) ds 0%N.

(** [s] without its first character when that is [c]. *)
Definition eat (c : N) (s : jsstring) : option jsstring :=
  match s with
  | d :: r => if (d =? c)%N then Some r else None
  | [] => None
  end.

(** The integer part of a numeral: 0, or a non-zero digit and any
    digits. *)
Definition integerPart (s : jsstring) : list N * jsstring :=
  match eat 48 s with
  | Some r => ([0%N], r)
  | None => digits s
  end.

(** The fraction of a numeral, if any: a point and one digit or more. *)
Definition fractionPart (s : jsstring) : option (list N * jsstring) :=
  match eat 46 s with
  | Some r =>
      let '(fs, r') := digits r in
      match fs with [] => None | _ => Some (fs, r') end
  | None => Some ([], s)
  end.

(** The exponent of a numeral, if any: e or E, an optional sign, and
    one digit or more. *)
Definition exponentPart (s : jsstring) : option (Z * jsstring) :=
  match (match eat 101 s with Some r => Some r | None => eat 69 s end) with
  | Some r =>
      let '(eneg, r1) :=
        match eat 45 r with
        | Some r' => (true, r')
        | None => match eat 43 r with
                  | Some r' => (false, r')
                  | None => (false, r)
                  end
        end in
      let '(es, r2) := digits r1 in
      match es with
      | [] => None
      | _ => Some (cond_Zopp eneg (Z.of_N (digits_value es)), r2)
      end
  | None => Some (0, s)
  end.

(** A numeral: an optional minus sign, the integer part, the fraction,
    the exponent. *)
Definition numeral (s : jsstring) : option (number * jsstring) :=
  let '(neg, s1) := match eat 45 s with Some r => (true, r) | None => (false, s) end in
  let '(int, s2) := integerPart s1 in
  match int with
  | [] => None
  | _ =>
      match fractionPart s2 with
      | None => None
      | Some (fs, s3) =>
          match exponentPart s3 with
          | None => None
          | Some (e, s4) =>
              Some (number_of_decimal neg (digits_value (int ++ fs))
                      (e - Z.of_nat (length fs)), s4)
          end
      end
  end.

(** A value that is not an object, an array or a string: a literal
    name or a numeral. *)
Definition scalar (s : jsstring) : result JSValue :=
  if startsWith s (lit "true") then Ok (JBool true) (drop 4 s)
  else if startsWith s (lit "false") then Ok (JBool false) (drop 5 s)
  else if startsWith s (lit "null") then Ok JNull (drop 4 s)
  else match numeral s with
       | Some (x, r) => Ok (JNum x) r
       | None => Bad
       end.

(** A value at the head of [s], which starts with no white space.
    [elements] reads the elements of an array up to its closing
    bracket, [members] the members of an object up to its closing
    brace. *)
Fixpoint value (fuel : nat) (s : jsstring) : result JSValue :=
  match fuel with
  | O => OutOfFuel
  | S fuel =>
      match s with
      | [] => Bad
      | c :: r =>
          if (c =? 123)%N then                      (* an object *)
            match eat 125 (skip_ws r) with
            | Some r' => Ok (JObj []) r'
            | None =>
                match members fuel (skip_ws r) with
                | Ok ms r' => Ok (JObj ms) r'
                | Bad => Bad
                | OutOfFuel => OutOfFuel
                end
            end
          else if (c =? 91)%N then                  (* an array *)
            match eat 93 (skip_ws r) with
            | Some r' => Ok (JArr []) r'
            | None =>
                match elements fuel (skip_ws r) with
                | Ok vs r' => Ok (JArr vs) r'
                | Bad => Bad
                | OutOfFuel => OutOfFuel
                end
            end
          else if (c =? 34)%N then                  (* a string *)
            match string_body r with
            | Some (str, r') => Ok (JStr str) r'
            | None => Bad
            end
          else scalar s
      end
  end

with elements (fuel : nat) (s : jsstring) : result (list JSValue) :=
  match fuel with
  | O => OutOfFuel
  | S fuel =>
      match value fuel s with
      | Ok v r =>
          match eat 93 (skip_ws r) with
          | Some r' => Ok [v] r'
          | None =>
              match eat 44 (skip_ws r) with
              | Some r' =>
                  match elements fuel (skip_ws r') with
                  | Ok vs r'' => Ok (v :: vs) r''
                  | Bad => Bad
                  | OutOfFuel => OutOfFuel
                  end
              | None => Bad
              end
          end
      | Bad => Bad
      | OutOfFuel => OutOfFuel
      end
  end

with members (fuel : nat) (s : jsstring) : result (list (jsstring * JSValue)) :=
  match fuel with
  | O => OutOfFuel
  | S fuel =>
      match eat 34 s with
      | None => Bad
      | Some r =>
          match string_body r with
          | None => Bad
          | Some (key, r1) =>
              match eat 58 (skip_ws r1) with
              | None => Bad
              | Some r2 =>
                  match value fuel (skip_ws r2) with
                  | Ok v r3 =>
                      match eat 125 (skip_ws r3) with
                      | Some r' => Ok [(key, v)] r'
                      | None =>
                          match eat 44 (skip_ws r3) with
                          | Some r' =>
                              match members fuel (skip_ws r') with
                              | Ok ms r'' => Ok ((key, v) :: ms) r''
                              | Bad => Bad
                              | OutOfFuel => OutOfFuel
                              end
                          | None => Bad
                          end
                      end
                  | Bad => Bad
                  | OutOfFuel => OutOfFuel
                  end
              end
          end
      end
  end.

(** [JSON.parse(text)]; [None] is the SyntaxError.  The fuel is twice
    the length of the text, which the parser never exhausts
    (see [JSON_value_fuel] below). *)
Definition parse (text : jsstring) : option JSValue :=
  match value (S (2 * length text)) (skip_ws text) with
  | Ok v rest => match skip_ws rest with [] => Some v | _ => None end
  | _ => None
  end.

End JSON.


(* ================================================================== *)
(** * Response parsing (the second half of [chooseCategoryOptions]) *)
(* ================================================================== *)

Definition fence : jsstring := lit "```".

(** Case-insensitive match of the tag [json] at the head of [s]. *)
Definition startsWith_json (s : jsstring) : bool :=
  match s with
  | j :: s' :: o :: n :: _ =>
      ((j =? 106) || (j =? 74))%N && ((s' =? 115) || (s' =? 83))%N &&
      ((o =? 111) || (o =? 79))%N && ((n =? 110) || (n =? 78))%N
  | _ => false
  end.

(** The lazy group of the pattern followed by optional white space and
    the closing fence: the shortest prefix of [s] after which only white
    space separates from a fence. *)
Fixpoint lazy_capture (s : jsstring) : option jsstring :=
  if startsWith (trimStart s) fence then Some []
  else match s with
       | [] => None
       | c :: s' => option_map (cons c) (lazy_capture s')
       end.

(** The pattern after an opening fence: the optional tag, white space as
    long as it lasts, the captured group.  The alternatives the engine would
    try on backtracking (less white space, no tag) look for the closing
    fence in the same text, so they match only if this one does. *)
Definition fence_at (after : jsstring) : option jsstring :=
  let after := if startsWith_json after then drop 4 after else after in
  lazy_capture (trimStart after).

(** Group 1 of the first match of the fenced-block pattern (an opening
    fence, an optional tag json in any case, white space, a lazy group,
    white space, a closing fence) in [s], or [None] when nothing matches. *)
Fixpoint fence_exec (s : jsstring) : option jsstring :=
  match (if startsWith s fence then fence_at (drop 3 s) else None) with
  | Some group => Some group
  | None =>
      match s with
      | [] => None
      | _ :: s' => fence_exec s'
      end
  end.

(** Own-property lookup [o[key]] on a parsed object. *)
Fixpoint lookup_member (key : jsstring) (members : list (jsstring * JSValue))
  : option JSValue :=
  match members with
  | [] => None
  | (k, v) :: rest =>
      match lookup_member key rest with
      | Some later => Some later
      | None => if jsstring_eqb k key then Some v else None
      end
  end.

(** [v?.key] for a parsed value and one of the keys the code reads
    ([suggestions], [name], [justification], [confidence]); [None] is
    [undefined].  Only an object has such a property: no prototype
    defines one of these keys. *)
Definition get (v : JSValue) (key : jsstring) : option JSValue :=
  match v with
  | JObj members => lookup_member key members
  | _ => None
  end.

(** Truthiness of a value. *)
Definition truthy (v : JSValue) : bool :=
  match v with
  | JNull => false
  | JBool b => b
  | JNum x => match x with S754_zero _ | S754_nan => false | _ => true end
  | JStr s => negb (jsstring_eqb s [])
  | JArr _ | JObj _ => true
  end.

Section Parsing.

(** [String(x)] for a number [x]. *)
Variable Number_toString : number -> jsstring.

(** [String(v)].  An array is the join of its elements by commas,
    [null] elements rendering as the empty string.  A plain object
    renders through [Object.prototype.toString] unless it has a member
    named [toString]: that member, never callable, shadows the
    inherited method, [valueOf] gives back the object, and the
    conversion throws a TypeError. *)
Fixpoint toString (v : JSValue) : completion jsstring :=
  match v with
  | JNull => Normal (lit "null")
  | JBool true => Normal (lit "true")
  | JBool false => Normal (lit "false")
  | JNum x => Normal (Number_toString x)
  | JStr s => Normal s
  | JArr items =>
      let fix elems (l : list JSValue) : completion (list jsstring) :=
        match l with
        | [] => Normal []
        | JNull :: rest => let* ss := elems rest in Normal ([] :: ss)
        | item :: rest =>
            let* s := toString item in
            let* ss := elems rest in Normal (s :: ss)
        end in
      let* parts := elems items in Normal (join (lit ",") parts)
  | JObj members =>
      match lookup_member (lit "toString") members with
      | Some _ => Throw TypeError
      | None => Normal (lit "[object Object]")
      end
  end.

(** The mapping function of the post-processing:
    [s => ({ name: String(s?.name ?? "").trim(),
             justification: s?.justification ? String(s.justification).trim() : undefined,
             confidence: typeof s?.confidence === "number" ? s.confidence : null })] *)
Definition coerceSuggestion (s : JSValue) : completion CategorySuggestion :=
  let* nm :=
    match get s (lit "name") with
    | None | Some JNull => Normal []
    | Some v => toString v
    end in
  let* just :=
    match get s (lit "justification") with
    | Some v => if truthy v then let* j := toString v in Normal (Some (trim j))
                else Normal None
    | None => Normal None
    end in
  Normal {| sname := trim nm;
            justification := just;
            confidence := match get s (lit "confidence") with
                          | Some (JNum x) => Some x
                          | _ => None
                          end |}.

(** [Array.isArray(parsed?.suggestions) ? parsed.suggestions : []] *)
Definition suggestionsField (parsed : JSValue) : list JSValue :=
  match get parsed (lit "suggestions") with
  | Some (JArr items) => items
  | _ => []
  end.

(** [arr.map(...).filter(s => s.name.length > 0).slice(0, 3)] *)
Definition postProcess (parsed : JSValue) : completion (list CategorySuggestion) :=
  let* mapped := mapM coerceSuggestion (suggestionsField parsed) in
  Normal (take 3 (List.filter (fun s => (0 <? length (sname s))%nat) mapped)).

(** From the text of the model's reply to the suggestions: the lines of
    [chooseCategoryOptions] from [const raw = content.trim()] on. *)
Definition parseSuggestions (content : jsstring) : completion (list CategorySuggestion) :=
  let raw := trim content in
  if jsstring_eqb raw [] then Normal []
  else
    let jsonText := trim (match fence_exec raw with Some g => g | None => raw end) in
    match JSON.parse jsonText with
    | Some parsed => postProcess parsed
    | None =>
        match indexOf jsonText (lit "{"), lastIndexOf jsonText (lit "}") with
        | Some start, Some end_ =>
            if (start <? end_)%nat then
              let inner := slice jsonText start (end_ + 1) in
              match JSON.parse inner with
              | Some parsed => postProcess parsed
              | None => Throw (SyntaxError inner)
              end
            else Normal []
        | _, _ => Normal []
        end
    end.

End Parsing.

(* ================================================================== *)
(** * Prompt building *)
(* ================================================================== *)



(** The element [buildSystemPrompt] makes of one category:
    the quoted name, the id, and the trimmed description when it is
    not blank. *)
Definition categoryInfo (c : LMCategory) : jsstring :=
  let info := dquote ++ name c ++ dquote ++ lit " (ID: " ++ Z_toString (id c) ++ lit ")" in
  match description c with
  | Some d => if jsstring_eqb d [] || jsstring_eqb (trim d) [] then info
              else info ++ lit " - " ++ trim d
  | None => info
  end.

Definition promptHeader : list jsstring :=
  [ lit "You categorize personal finance transactions.";
    [];
    lit "CRITICAL REQUIREMENTS:";
    lit "- You MUST ONLY choose category names from the EXACT list provided below";
    lit "- Category names must match EXACTLY - character for character, including punctuation and spacing";
    lit "- DO NOT create new categories, split compound categories, or use variations";
    lit "- DO NOT use similar-sounding names that aren't in the list";
    lit "- If unsure, pick the closest match from the provided list";
    [];
    lit "EXAMPLE: If the list contains 'Gas, Transportation', you must use 'Gas, Transportation' exactly - NEVER 'Gas' or 'Transportation' separately.";
    [];
    lit "Return ONLY valid JSON with this exact structure:";
    litq "{ 'suggestions': [";
    litq "  { 'name': '<EXACT category name from the list below>', 'justification': '<short reason>', 'confidence': 0.85 }";
    lit "] }";
    [];
    lit "REQUIREMENTS:";
    lit "- Include 3 suggestions, sorted by confidence (highest first)";
    lit "- Category names must be EXACT matches from the list below";
    lit "- Confidence should be 0.0-1.0 (not percentages)";
    lit "- Keep justifications to one sentence";
    [];
    lit "AVAILABLE CATEGORIES (you must choose from this exact list):";
    lit "Note: Some categories include descriptions to help you understand their purpose.";
    [] ].

Definition promptReminder : jsstring :=
  lit "Remember: Use the EXACT category name as shown above. Do not modify, abbreviate, or create variations.".

(** [.filter(Boolean)] on an array of strings. *)
Definition filterBoolean (parts : list jsstring) : list jsstring :=
  List.filter (fun p => negb (jsstring_eqb p [])) parts.

Definition buildSystemPrompt (categories : list LMCategory) : jsstring :=
  let categoriesWithIds := List.map categoryInfo categories in
  join newline
    (filterBoolean (promptHeader ++ [join newline categoriesWithIds; []; promptReminder])).

(* ================================================================== *)
(** * The confidence badge of a suggestion row *)
(* ================================================================== *)

Inductive level := high | med | low.

Record badge := mkBadge { pct : number; lvl : level }.

(** [rawConf] and [norm] of [promptUserForCategory]; [None] is [null]. *)
Definition rawConf (c : option number) : option number :=
  match c with
  | Some x => if Number_isFinite x then Some x else None
  | None => None
  end.

Definition norm (c : option number) : option number :=
  match rawConf c with
  | Some r => Some (if num_ltb (of_Z 1) r then num_div r (of_Z 100) else r)
  | None => None
  end.

(** The percentage shown and the class of the badge, or [None] when no
    badge is rendered. *)
Definition confidenceBadge (c : option number) : option badge :=
  match norm c with
  | Some n =>
      if num_leb (of_Z 0) n then
        let pct := Math_round (num_mul (Math_max (of_Z 0) (Math_min (of_Z 1) n)) (of_Z 100)) in
        Some (mkBadge pct
                (if num_leb (of_Z 80) pct then high
                 else if num_leb (of_Z 50) pct then med else low))
      else None
  | None => None
  end.

(* ================================================================== *)
(** * Transactions, events and the effect monad *)
(* ================================================================== *)

Record LMTransaction := mkTransaction {
  t_id : Z;
  t_date : jsstring;
  t_payee : option jsstring;
  t_amount : number;
  t_currency : option jsstring;
  t_notes : option jsstring;
  t_category_id : option Z;
  t_is_group : option bool;
  t_plaid_metadata : option JSValue
}.

(** The filter of [getTransactions]:
    [t => !t.is_group && t.category_id === null]. *)
Definition getTransactions_filter (txs : list LMTransaction) : list LMTransaction :=
  List.filter (fun t => negb (truthy_flag (t_is_group t)) &&
                        match t_category_id t with None => true | Some _ => false end) txs.

Inductive logClass := cls_info | cls_ok | cls_warn | cls_err.

(** One row of the suggestion list of the modal. *)
Record suggestionRow := mkRow {
  row_name : jsstring;
  row_id : option Z;
  row_badge : option badge;
  row_justification : jsstring
}.

(** What the program does to the outside, in the order it does it. *)
Inductive event :=
| Log (msg : jsstring) (cls : logClass)          (* [log(msg, cls)] *)
| Warn (msg : jsstring)                          (* [console.warn(msg)] *)
| SetBar (pct : number)                          (* [setBar(pct)] *)
| OpenModal
| CloseModal
| ShowLoading (text : jsstring)
| HideLoading
| Invoke (tx : Z) (systemPrompt userPrompt : jsstring)   (* [llm.invoke] issued *)
| Present (tx : Z) (rows : list suggestionRow) (selected : option Z)
                                                 (* the approval gate waits for the user *)
| Commit (tx : Z) (categoryId : Z)               (* [updateTransactionCategory] issued *)
| FlagSet.                                       (* [cancelled = true] *)

(** The global [cancelled] flag and the events so far. *)
Record world := mkWorld {
  cancelled : bool;
  trace : list event
}.

Definition Eff (A : Type) : Type := world -> completion A * world.

Definition ret {A} (a : A) : Eff A := fun w => (Normal a, w).

Definition throw {A} (e : exn) : Eff A := fun w => (Throw e, w).

Definition ebind {A B} (m : Eff A) (k : A -> Eff B) : Eff B :=
  fun w =>
    match m w with
    | (Normal a, w') => k a w'
    | (Throw e, w') => (Throw e, w')
    end.

Notation "'do' x <- m ; k" := (ebind m (fun x => k))
  (at level 10, x name, m at level 100, k at level 200).
Notation "m ;; k" := (ebind m (fun _ => k))
  (at level 100, k at level 200, right associativity).

(** [try { m } catch (e) { handler e }] *)
Definition tryCatch {A} (m : Eff A) (handler : exn -> Eff A) : Eff A :=
  fun w =>
    match m w with
    | (Normal a, w') => (Normal a, w')
    | (Throw e, w') => handler e w'
    end.

(** [try { m } finally { f }], for an [f] that completes normally. *)
Definition tryFinally {A} (m : Eff A) (f : Eff unit) : Eff A :=
  fun w =>
    match m w with
    | (r, w') => match f w' with
                 | (Normal _, w'') => (r, w'')
                 | (Throw e, w'') => (Throw e, w'')
                 end
    end.

Definition emit (e : event) : Eff unit :=
  fun w => (Normal tt, mkWorld (cancelled w) (trace w ++ [e])).

Definition emitAll (es : list event) : Eff unit :=
  fun w => (Normal tt, mkWorld (cancelled w) (trace w ++ es)).

Definition getCancelled : Eff bool := fun w => (Normal (cancelled w), w).

(** [cancelled = true] *)
Definition setCancelled : Eff unit :=
  fun w => (Normal tt, mkWorld true (trace w ++ [FlagSet])).

(** [cancelled = false], at the start of a run. *)
Definition resetCancelled : Eff unit :=
  fun w => (Normal tt, mkWorld false (trace w)).

Definition liftCompletion {A} (c : completion A) : Eff A := fun w => (c, w).

(** The click handler of the page's Cancel button, [onGlobalCancel]. *)
Definition onGlobalCancel : Eff unit :=
  do c <- getCancelled;
  if c then ret tt
  else setCancelled ;; emit (Log (lit "Cancelling" ++ [8230%N]) cls_warn) ;; emit CloseModal.

(** While the program is suspended at an [await] the user may click the
    page's Cancel button. *)
Definition whileSuspended (cancelClicked : bool) : Eff unit :=
  if cancelClicked then onGlobalCancel else ret tt.

(* ================================================================== *)
(** * The environment of a run *)
(* ================================================================== *)

(** The [content] of the message the model returns: a string, or an
    array of parts, each with a [text] or rendered by [String]. *)
Inductive contentPart :=
| PartText (text : jsstring)
| PartOther (rendered : jsstring).

Inductive messageContent :=
| ContentString (s : jsstring)
| ContentParts (parts : list contentPart).

(** How [llm.invoke] resolves, and whether Cancel is clicked meanwhile. *)
Record invokeReply := mkInvokeReply {
  invoke_cancelClicked : bool;
  invoke_outcome : completion messageContent
}.

(** What the user does with the category selector before deciding. *)
Inductive selection :=
| KeepSelection                 (* leaves the selector as it was rendered *)
| Choose (value : option Z).    (* picks an option; [None] is the placeholder *)

(** The decision that resolves the approval gate.  Enter is a save,
    Escape a cancel. *)
Inductive gateAction :=
| PressSave (sel : selection)
| PressSkip
| PressCancel.

Record gateReply := mkGateReply {
  gate_cancelClicked : bool;    (* the page's Cancel button, before the decision *)
  gate_action : gateAction
}.

(** How the PUT of [updateTransactionCategory] resolves. *)
Record commitReply := mkCommitReply {
  commit_cancelClicked : bool;
  commit_outcome : completion unit
}.

(** The environment's part in the processing of one transaction. *)
Record txScript := mkScript {
  onInvoke : invokeReply;
  onGate : gateReply;
  onCommit : commitReply
}.

(** How a fetch of the ledger resolves. *)
Record fetchReply (A : Type) := mkFetchReply {
  fetch_cancelClicked : bool;
  fetch_outcome : completion A
}.
Arguments mkFetchReply {A} _ _.
Arguments fetch_cancelClicked {A} _.
Arguments fetch_outcome {A} _.

Record runEnv := mkEnv {
  categoriesReply : fetchReply (list LMCategory);
  transactionsReply : fetchReply (list LMTransaction);
  scripts : nat -> txScript     (* by position in the transaction list *)
}.

(* ================================================================== *)
(** * The approval gate and the orchestrator *)
(* ================================================================== *)

(** Truthiness of a [number | null] that holds an id. *)
Definition truthy_id (i : option Z) : bool :=
  match i with
  | Some z => negb (z =? 0)
  | None => false
  end.

(** The text of a model reply:
    [Array.isArray(content) ? content.map(...).join("\n") : String(content ?? "")] *)
Definition contentText (c : messageContent) : jsstring :=
  match c with
  | ContentString s => s
  | ContentParts parts =>
      join newline (List.map (fun p => match p with
                                       | PartText t => t
                                       | PartOther r => r
                                       end) parts)
  end.

(** Control leaves an iteration of the loop by falling through (or
    [continue]), or by [break]. *)
Inductive flow := Continue | Break.

Section Pipeline.

Variable toLowerCase : jsstring -> jsstring.
Variable Number_toString : number -> jsstring.

(** [buildTransactionPrompt], and the [title] of a transaction in the
    log (its amount is formatted by the locale). *)
Variable buildTransactionPrompt : LMTransaction -> jsstring.
Variable transactionTitle : LMTransaction -> jsstring.

(** The [message] of an exception the engine throws. *)
Variable engineMessage : exn -> jsstring.

(** [e instanceof Error ? e.message : String(e)] *)
Definition errorMessage (e : exn) : jsstring :=
  match e with
  | Error message => message
  | _ => engineMessage e
  end.

(** [const id = matchCategoryId(s.name, categories)] and the row built
    from it, for each suggestion. *)
Definition suggestionRows (categories : list LMCategory)
    (suggestions : list CategorySuggestion) : list suggestionRow * list jsstring :=
  fold_right
    (fun s '(rows, warns) =>
       let '(i, w) := matchCategoryId toLowerCase (sname s) categories in
       (mkRow (sname s) i (confidenceBadge (confidence s))
              (default [] (justification s)) :: rows, w ++ warns))
    ([], []) suggestions.

(** [suggestions?.[0]?.name ? matchCategoryId(suggestions[0].name, categories) : null] *)
Definition preId (categories : list LMCategory)
    (suggestions : list CategorySuggestion) : option Z * list jsstring :=
  match suggestions with
  | s :: _ =>
      if negb (jsstring_eqb (sname s) []) then matchCategoryId toLowerCase (sname s) categories
      else (None, [])
  | [] => (None, [])
  end.

(** The value of the selector when the gate starts to wait:
    the placeholder unless [if (preId) select.value = String(preId)]. *)
Definition initialSelection (categories : list LMCategory)
    (suggestions : list CategorySuggestion) : option Z :=
  let '(p, _) := preId categories suggestions in
  if truthy_id p then p else None.

(** [promptUserForCategory]: renders the rows, preselects, and waits
    for the decision. *)
Definition promptUserForCategory (t : LMTransaction) (categories : list LMCategory)
    (suggestions : list CategorySuggestion) (reply : gateReply) : Eff (option Z) :=
  let '(rows, rowWarns) := suggestionRows categories suggestions in
  let '(_, preWarns) := preId categories suggestions in
  let selected := initialSelection categories suggestions in
  emitAll (List.map Warn (rowWarns ++ preWarns)) ;;
  emit (Present (t_id t) rows selected) ;;
  whileSuspended (gate_cancelClicked reply) ;;
  match gate_action reply with
  | PressSave sel =>
      let val := match sel with KeepSelection => selected | Choose v => v end in
      match val with
      | Some chosen => emit (ShowLoading (lit "Saving category...")) ;; ret (Some chosen)
      | None => ret None
      end
  | PressSkip => ret None
  | PressCancel => setCancelled ;; ret None
  end.

(** [chooseCategoryOptions]: the two checks of the flag around the call
    of the model, then the parsing of the reply.  (The construction of
    the client for the provider, before the first check, has no part in
    what follows.) *)
Definition chooseCategoryOptions (t : LMTransaction) (systemPrompt : jsstring)
    (reply : invokeReply) : Eff (list CategorySuggestion) :=
  do c <- getCancelled;
  if c then throw (Error (lit "Operation cancelled"))
  else
    emit (Invoke (t_id t) systemPrompt (buildTransactionPrompt t)) ;;
    whileSuspended (invoke_cancelClicked reply) ;;
    do result <- liftCompletion (invoke_outcome reply);
    do c <- getCancelled;
    if c then throw (Error (lit "Operation cancelled"))
    else liftCompletion (parseSuggestions Number_toString (contentText result)).

(** [promptUserForCategoryWithLoading]: opens the modal, asks the model,
    validates the suggestions and runs the gate; any exception of the
    [try] block is caught, logged, and the gate is run with no
    suggestion. *)
Definition promptUserForCategoryWithLoading (t : LMTransaction)
    (categories : list LMCategory) (systemPrompt : jsstring) (script : txScript)
  : Eff (option Z) :=
  emit OpenModal ;;
  emit (ShowLoading []) ;;
  tryCatch
    (do rawSuggestions <- chooseCategoryOptions t systemPrompt (onInvoke script);
     do c <- getCancelled;
     if c then emit HideLoading ;; emit CloseModal ;; ret None
     else
       let '(suggestions, warns) := validateCategorySuggestions rawSuggestions categories in
       emitAll (List.map Warn warns) ;;
       emit HideLoading ;;
       promptUserForCategory t categories suggestions (onGate script))
    (fun error =>
       emit HideLoading ;;
       emit (Log (lit "Error getting AI suggestions: " ++ errorMessage error) cls_err) ;;
       promptUserForCategory t categories [] (onGate script)).

(** [updateTransactionCategory(lmToken, t.id, chosenId)] *)
Definition updateTransactionCategory (t : LMTransaction) (chosenId : Z)
    (reply : commitReply) : Eff unit :=
  emit (Commit (t_id t) chosenId) ;;
  whileSuspended (commit_cancelClicked reply) ;;
  liftCompletion (commit_outcome reply).

(** [(done / txs.length) * 100] *)
Definition progress (done total : Z) : number :=
  num_mul (num_div (of_Z done) (of_Z total)) (of_Z 100).

(** [categories.find(c => c.id === chosenId)?.name ?? String(chosenId)] *)
Definition catName (categories : list LMCategory) (chosenId : Z) : jsstring :=
  match List.find (fun c => id c =? chosenId) categories with
  | Some c => name c
  | None => Z_toString chosenId
  end.

Definition cancelledByUser : event := Log (lit "Cancelled by user.") cls_warn.

(** The [try] block of the loop body: how control leaves it, and the
    value of [done] then. *)
Definition tryBlock (t : LMTransaction) (categories : list LMCategory)
    (systemPrompt : jsstring) (script : txScript) (total done : Z) : Eff (flow * Z) :=
  let title := transactionTitle t in
  emit (Log (lit "Suggesting category for: " ++ title) cls_info) ;;
  do c <- getCancelled;
  if c then emit cancelledByUser ;; ret (Break, done)
  else
    do chosenId <- promptUserForCategoryWithLoading t categories systemPrompt script;
    do c <- getCancelled;
    if c then emit cancelledByUser ;; emit CloseModal ;; ret (Break, done)
    else if negb (truthy_id chosenId) then
      emit (Log (lit "Skipped: " ++ title) cls_warn) ;;
      emit CloseModal ;;
      let done := done + 1 in
      emit (SetBar (progress done total)) ;;
      ret (Continue, done)
    else
      let chosen := default 0 chosenId in
      tryFinally
        (updateTransactionCategory t chosen (onCommit script) ;;
         emit (Log (lit "Updated " ++ title ++ lit " -> " ++ catName categories chosen) cls_ok))
        (emit HideLoading ;; emit CloseModal) ;;
      ret (Continue, done).

(** One iteration of [for (const t of txs)]: the check at the top, then
    [try { ... } catch (e) { log } finally { done++; setBar(...) }]. *)
Definition iteration (t : LMTransaction) (categories : list LMCategory)
    (systemPrompt : jsstring) (script : txScript) (total done : Z) : Eff (flow * Z) :=
  do c <- getCancelled;
  if c then emit cancelledByUser ;; ret (Break, done)
  else
    do r <- tryCatch
              (tryBlock t categories systemPrompt script total done)
              (fun e =>
                 emit (Log (lit "Error on " ++ transactionTitle t ++ lit ": " ++ errorMessage e)
                           cls_err) ;;
                 ret (Continue, done));
    let '(f, done) := r in
    let done := done + 1 in
    emit (SetBar (progress done total)) ;;
    ret (f, done).

(** The loop over the transactions from position [i] on; the result is
    the final value of [done]. *)
Fixpoint loop (txs : list LMTransaction) (i : nat) (categories : list LMCategory)
    (systemPrompt : jsstring) (scripts : nat -> txScript) (total done : Z) : Eff Z :=
  match txs with
  | [] => ret done
  | t :: rest =>
      do r <- iteration t categories systemPrompt (scripts i) total done;
      match r with
      | (Break, done) => ret done
      | (Continue, done) => loop rest (S i) categories systemPrompt scripts total done
      end
  end.

(** The ledger fetches of [getCategories] and [getTransactions]. *)
Definition fetch {A} (reply : fetchReply A) : Eff A :=
  whileSuspended (fetch_cancelClicked reply) ;;
  liftCompletion (fetch_outcome reply).

(** [run], from the values of the form fields; the result is the value
    of [done] when a loop was run. *)
Definition run (lmToken apiKey model start end_ : jsstring) (env : runEnv)
  : Eff (option Z) :=
  emit (SetBar (of_Z 0)) ;;
  resetCancelled ;;
  if jsstring_eqb (trim lmToken) [] then
    emit (Log (lit "Missing Lunch Money token.") cls_err) ;; ret None
  else if jsstring_eqb (trim apiKey) [] then
    emit (Log (lit "Missing model API key.") cls_err) ;; ret None
  else if jsstring_eqb model [] then
    emit (Log (lit "Please select a model or enter a custom model name.") cls_err) ;; ret None
  else
    tryCatch
      (emit (Log (lit "Fetching categories...") cls_info) ;;
       do data <- fetch (categoriesReply env);
       let categories := getCategories_filter data in
       match categories with
       | [] => emit (Log (lit "No categories found.") cls_err) ;; ret None
       | _ =>
           emit (Log (lit "Found " ++ Z_toString (Z.of_nat (length categories)) ++
                      lit " active categories.") cls_ok) ;;
           emit (Log (lit "Fetching uncategorized transactions from " ++ start ++
                      lit " to " ++ end_ ++ lit "...") cls_info) ;;
           do fetched <- fetch (transactionsReply env);
           let txs := getTransactions_filter fetched in
           match txs with
           | [] =>
               emit (Log (lit "No uncategorized transactions found in the selected range.")
                         cls_warn) ;;
               ret None
           | _ =>
               emit (Log (lit "Found " ++ Z_toString (Z.of_nat (length txs)) ++
                          lit " uncategorized transactions.") cls_info) ;;
               let systemPrompt := buildSystemPrompt categories in
               do done <- loop txs 0 categories systemPrompt (scripts env)
                               (Z.of_nat (length txs)) 0;
               do c <- getCancelled;
               (if c then ret tt else emit (Log (lit "Finished.") cls_info)) ;;
               ret (Some done)
           end
       end)
      (fun e => emit (Log (lit "Fatal error: " ++ errorMessage e) cls_err) ;; ret None).

End Pipeline.


(* ================================================================== *)
(** * Sample data used by the examples *)
(* ================================================================== *)

Definition cGroceries : LMCategory :=
  mkCategory 1 (lit "Groceries") None None None None.

Definition cGas : LMCategory :=
  mkCategory 2 (lit "Gas, Transportation") None None None None.

Definition sGas : CategorySuggestion := mkSuggestion (lit "Gas") None None.

Definition sGasTransportation : CategorySuggestion :=
  mkSuggestion (lit "Gas, Transportation") None None.

(** A transaction of 12 dollars without Plaid metadata. *)
Definition sampleTransaction (i : Z) : LMTransaction :=
  mkTransaction i (lit "2024-01-01") (Some (lit "Shop")) (of_Z 12) None None None None None.

(** The title of such a transaction in the log,
    [`${t.date} • ${t.payee ?? "Unknown"} • ${formatAmountText(...)}`],
    the amount as the en-US locale formats 12 dollars. *)
Definition sampleTitle (t : LMTransaction) : jsstring :=
  t_date t ++ [32; 8226; 32]%N ++ default (lit "Unknown") (t_payee t)
  ++ [32; 8226; 32]%N ++ lit "$12.00".

(** [buildTransactionPrompt] on a transaction without Plaid metadata. *)
Definition samplePrompt (t : LMTransaction) : jsstring :=
  join newline
    [ lit "Please categorize this transaction:";
      lit "- Payee: " ++ default (lit "Unknown") (t_payee t);
      lit "- Merchant: " ++ match t_payee t with
                            | Some p => if jsstring_eqb p [] then lit "Unknown" else p
                            | None => lit "Unknown"
                            end;
      lit "- Amount: " ++ shortestNumeral (t_amount t);
      lit "- Currency: " ++ default [] (t_currency t);
      lit "- Date: " ++ t_date t;
      lit "- Notes: " ++ default [] (t_notes t);
      lit "- Plaid Category: Unknown";
      lit "- Personal Finance Category: Unknown";
      lit "- Payment Channel: Unknown";
      lit "- Location: Unknown";
      lit "- Pending: unknown" ].

(** The messages of the engine's exceptions, as V8 words them. *)
Definition sampleMessage (e : exn) : jsstring :=
  match e with
  | Error message => message
  | SyntaxError _ => lit "Unexpected token"
  | TypeError => lit "Cannot convert object to primitive value"
  end.

(** The model always suggests "Groceries". *)
Definition sampleReply : invokeReply :=
  mkInvokeReply false
    (Normal (ContentString
               (litq "{'suggestions':[{'name':'Groceries','confidence':0.9}]}"))).

Definition quietCommit : commitReply := mkCommitReply false (Normal tt).

(** The user saves the preselected category, skips, or cancels. *)
Definition saveScript : txScript :=
  mkScript sampleReply (mkGateReply false (PressSave KeepSelection)) quietCommit.
Definition skipScript : txScript :=
  mkScript sampleReply (mkGateReply false PressSkip) quietCommit.
Definition cancelScript : txScript :=
  mkScript sampleReply (mkGateReply false PressCancel) quietCommit.

(** A run over the transactions 1 to [n] with the categories "Groceries"
    and "Gas, Transportation". *)
Definition sampleEnv (n : nat) (scripts : nat -> txScript) : runEnv :=
  mkEnv (mkFetchReply false (Normal [cGroceries; cGas]))
        (mkFetchReply false
           (Normal (List.map (fun i => sampleTransaction (Z.of_nat i)) (seq 1 n))))
        scripts.

Definition sampleRun (n : nat) (scripts : nat -> txScript) : completion (option Z) * world :=
  run toLowerCase_ascii shortestNumeral samplePrompt sampleTitle sampleMessage
    (lit "token") (lit "key") (lit "model") (lit "2024-01-01") (lit "2024-02-29")
    (sampleEnv n scripts) (mkWorld false []).

(** The loop over [txs], as part of a run over three transactions of
    which the first is saved and the gate of the second is cancelled. *)
Definition sampleLoop_on (txs : list LMTransaction) : completion Z * world :=
  loop toLowerCase_ascii shortestNumeral samplePrompt sampleTitle sampleMessage
    txs 0 [cGroceries; cGas] (buildSystemPrompt [cGroceries; cGas])
    (fun i => if Nat.eqb i 1 then cancelScript else saveScript)
    3 0 (mkWorld false []).

(** The arguments of the calls of [setBar], and the commits, of a trace. *)
Definition setBars (tr : list event) : list number :=
  flat_map (fun e => match e with SetBar p => [p] | _ => [] end) tr.

Definition commits (tr : list event) : list (Z * Z) :=
  flat_map (fun e => match e with Commit t c => [(t, c)] | _ => [] end) tr.

(** The transactions an invocation of the model or a presentation of the
    gate concerns. *)
Definition prompted (tr : list event) : list Z :=
  flat_map (fun e => match e with
                     | Invoke t _ _ => [t]
                     | Present t _ _ => [t]
                     | _ => []
                     end) tr.

(* ================================================================== *)
(** * Vocabulary of the statements *)
(* ================================================================== *)

(** [a] occurs in [b] as a contiguous run. *)
Definition isSubstring (a b : jsstring) : Prop := exists u v, b = u ++ a ++ v.

(** [c] is the first element of [l] that satisfies [P]. *)
Definition firstWith {A} (P : A -> Prop) (l : list A) (c : A) : Prop :=
  exists pre post, l = pre ++ c :: post /\ P c /\ Forall (fun x => ~ P x) pre.

Definition noneWith {A} (P : A -> Prop) (l : list A) : Prop :=
  Forall (fun x => ~ P x) l.

(** The three tiers in the words of the specification. *)
Definition equalsExactly (q : jsstring) (c : LMCategory) : Prop :=
  name c = q.

Definition equalsIgnoringCase (lower : jsstring -> jsstring) (q : jsstring)
    (c : LMCategory) : Prop :=
  lower (name c) = lower q.

Definition overlaps (lower : jsstring -> jsstring) (q : jsstring)
    (c : LMCategory) : Prop :=
  isSubstring (lower q) (lower (name c)) \/ isSubstring (lower (name c)) (lower q).

(** [name] is the name of a category of the list. *)
Definition isCanonicalName (categories : list LMCategory) (n : jsstring) : Prop :=
  exists c, In c categories /\ name c = n.

(** A category and a suggestion with the empty name. *)
Definition cBlank : LMCategory := mkCategory 7 [] None None None None.
Definition sBlank : CategorySuggestion := mkSuggestion [] None None.

(** The number of positions of [s] at which [sub] occurs. *)
Fixpoint occurrences (sub s : jsstring) : nat :=
  ((if startsWith s sub then 1 else 0) +
   match s with
   | [] => 0
   | _ :: s' => occurrences sub s'
   end)%nat.

(** The number a decimal literal [m * 10^e] denotes. *)
Definition dec (m : N) (e : Z) : number := number_of_decimal false m e.

(** The buckets in the words of the specification: high from 0.80 on,
    medium from 0.50 on, low otherwise, on the normalized value. *)
Definition bucket_of_normalized (n : number) : level :=
  if num_leb (dec 80 (-2)) n then high
  else if num_leb (dec 50 (-2)) n then med else low.

(** A value [String] converts: no object with a member named [toString]
    is met on the way through the arrays. *)
Fixpoint stringifiable (v : JSValue) : bool :=
  match v with
  | JArr items => forallb stringifiable items
  | JObj members =>
      match lookup_member (lit "toString") members with
      | Some _ => false
      | None => true
      end
  | _ => true
  end.

(** The event of the flag being set. *)
Definition isFlagSet (e : event) : bool :=
  match e with
  | FlagSet => true
  | _ => false
  end.

(** Neither an invocation of the model nor a commit. *)
Definition noCall (e : event) : Prop :=
  match e with
  | Invoke _ _ _ | Commit _ _ => False
  | _ => True
  end.

(** From [w] to [w'] the events [evs] were appended; the flag is set in
    [w'] exactly when it was set in [w] or one of the events set it; and
    from the moment the flag is set, in [w] already or by one of the
    events, no later event is a call of the model or of the ledger. *)
Definition cooperativeStep (w w' : world) (evs : list event) : Prop :=
  trace w' = trace w ++ evs
  /\ cancelled w' = cancelled w || existsb isFlagSet evs
  /\ (cancelled w = true -> Forall noCall evs)
  /\ (forall pre post, evs = pre ++ FlagSet :: post -> Forall noCall post).

(** [m], run from [w], is cooperative about cancellation. *)
Definition cooperative {A} (m : Eff A) (w : world) : Prop :=
  exists evs, cooperativeStep w (snd (m w)) evs.

Section Coercion.

Variable Number_toString : number -> jsstring.

(** The string [String(v)] returns, when it returns. *)
Definition stringOf (v : JSValue) : jsstring :=
  match toString Number_toString v with
  | Normal s => s
  | Throw _ => []
  end.

(** The name and the justification of the entry can be converted:
    neither is (or holds, through arrays) an object with a member named
    [toString].  A justification that is falsy is not converted. *)
Definition convertible (entry : JSValue) : bool :=
  match get entry (lit "name") with
  | Some v => stringifiable v
  | None => true
  end &&
  match get entry (lit "justification") with
  | Some v => if truthy v then stringifiable v else true
  | None => true
  end.

(** The record of an entry in the words of the specification: the name
    as a trimmed string (an absent or [null] name is the empty string),
    the justification as a trimmed string or absent, the confidence
    when it is a number and [null] otherwise. *)
Definition coercedName (entry : JSValue) : jsstring :=
  trim (match get entry (lit "name") with
        | None | Some JNull => []
        | Some v => stringOf v
        end).

Definition coercedJustification (entry : JSValue) : option jsstring :=
  match get entry (lit "justification") with
  | Some v => if truthy v then Some (trim (stringOf v)) else None
  | None => None
  end.

Definition coercedConfidence (entry : JSValue) : option number :=
  match get entry (lit "confidence") with
  | Some (JNum x) => Some x
  | _ => None
  end.

Definition coerced (entry : JSValue) : CategorySuggestion :=
  mkSuggestion (coercedName entry) (coercedJustification entry) (coercedConfidence entry).

End Coercion.

(** [m] always completes normally. *)
Definition total {A} (m : Eff A) : Prop :=
  forall w, exists a w', m w = (Normal a, w').

(** [m] only appends events to the trace, all of them in [P]. *)
Definition appends {A} (P : event -> Prop) (m : Eff A) : Prop :=
  forall w, exists evs, trace (snd (m w)) = trace w ++ evs /\ Forall P evs.

(** Not the issue of a commit. *)
Definition notCommit (e : event) : Prop :=
  match e with
  | Commit _ _ => False
  | _ => True
  end.

(* ================================================================== *)
(** * Further vocabulary: results and commits *)
(* ================================================================== *)

(** [m], when it completes normally, returns a value in [R]. *)
Definition returns {A} (R : A -> Prop) (m : Eff A) : Prop :=
  forall w a w', m w = (Normal a, w') -> R a.

(** The commit an event issues, the transaction an event invokes the
    model for: what [commits] and the like collect from a trace. *)
Definition commitOf (e : event) : list (Z * Z) :=
  match e with
  | Commit t c => [(t, c)]
  | _ => []
  end.

Definition invokeOf (e : event) : list Z :=
  match e with
  | Invoke t _ _ => [t]
  | _ => []
  end.

(** The transactions the model is invoked for, in a trace. *)
Definition invoked (tr : list event) : list Z := flat_map invokeOf tr.

(** An event from which [f] collects nothing. *)
Definition silent {X} (f : event -> list X) (e : event) : Prop := f e = [].

(** [m] only appends events to the trace, and what [f] collects from
    them, in order, satisfies [C]. *)
Definition eventsSatisfy {A X} (f : event -> list X) (C : list X -> Prop)
    (m : Eff A) : Prop :=
  forall w, exists evs, trace (snd (m w)) = trace w ++ evs /\ C (flat_map f evs).

(** What the approval gate may resolve to: nothing, or, after Save, the
    category the user picked in the selector or the one that was
    preselected, which is then a category of the list. *)
Definition approved (categories : list LMCategory) (reply : gateReply)
    (r : option Z) : Prop :=
  r = None
  \/ exists sel c,
       gate_action reply = PressSave sel /\ r = Some c
       /\ (sel = Choose (Some c)
           \/ (sel = KeepSelection /\ exists cat, In cat categories /\ id cat = c)).

(** The commits of the processing of the transaction [t]: none, or the
    one commit of an approved category to [t]. *)
Definition committed (t : LMTransaction) (categories : list LMCategory)
    (reply : gateReply) (cs : list (Z * Z)) : Prop :=
  cs = []
  \/ exists c, cs = [(t_id t, c)] /\ c <> 0 /\ approved categories reply (Some c).

(** What is collected from the processing of the transaction [t]:
    nothing, or one item, of key the id of [t] and in [P]. *)
Definition oneFor {X} (key : X -> Z) (P : X -> Prop) (t : LMTransaction)
    (l : list X) : Prop :=
  l = [] \/ exists x, l = [x] /\ key x = t_id t /\ P x.

(** What is collected from a loop over [txs]: items in [P] whose keys
    are ids of transactions of [txs], in the order of [txs], at most
    one for each. *)
Definition inLedgerOrder {X} (key : X -> Z) (P : X -> Prop) (txs : list LMTransaction)
    (l : list X) : Prop :=
  sublist (List.map key l) (List.map t_id txs) /\ Forall P l.

(** The transactions the ledger returns to [getTransactions]. *)
Definition fetchedTransactions (env : runEnv) : list LMTransaction :=
  match fetch_outcome (transactionsReply env) with
  | Normal fetched => fetched
  | Throw _ => []
  end.

(** A save of the preselected category whose commit the ledger refuses. *)
Definition failingCommitScript : txScript :=
  mkScript sampleReply (mkGateReply false (PressSave KeepSelection))
    (mkCommitReply false (Throw (Error (lit "Lunch Money HTTP 500: oops")))).

(* ================================================================== *)
(** * Small helpers of the page *)
(* ================================================================== *)

(** The replacement function of [esc]: the entity of each of the five
    characters the pattern matches (ampersand, less-than, greater-than,
    double quote, apostrophe); any other character stands for itself. *)
Definition entity (ch : N) : jsstring :=
  if (ch =? 38)%N then lit "&amp;"
  else if (ch =? 60)%N then lit "&lt;"
  else if (ch =? 62)%N then lit "&gt;"
  else if (ch =? 34)%N then lit "&quot;"
  else if (ch =? 39)%N then lit "&#39;"
  else [ch].

(** [esc(s)]: [(s ?? "").replace(pattern, replacement)] with the global
    pattern of the five characters; [None] is [null] or [undefined]. *)
Definition esc (s : option jsstring) : jsstring :=
  flat_map entity (default [] s).

(** One of the five characters [esc] replaces. *)
Definition isMarkup (ch : N) : bool :=
  (ch =? 38)%N || (ch =? 60)%N || (ch =? 62)%N || (ch =? 34)%N || (ch =? 39)%N.

(** The five entities without their ampersand. *)
Definition entityTails : list jsstring :=
  [lit "amp;"; lit "lt;"; lit "gt;"; lit "quot;"; lit "#39;"].

(** [nextTheme(t)]; the argument is the attribute of the page, any
    string. *)
Definition nextTheme (t : jsstring) : jsstring :=
  if jsstring_eqb t (lit "system") then lit "light"
  else if jsstring_eqb t (lit "light") then lit "dark"
  else lit "system".

(** [type ModelConfig] and the entries of [PROVIDERS]. *)
Record ModelConfig := mkModel {
  model_name : jsstring;
  temperature : number
}.

Record Provider := mkProvider {
  provider_id : jsstring;
  provider_name : jsstring;
  models : list ModelConfig;
  keyHint : jsstring
}.

(** [PROVIDERS[0]] *)
Definition providerOpenAI : Provider :=
  mkProvider (lit "openai") (lit "OpenAI")
    [ mkModel (lit "gpt-5-mini") (of_Z 1);
      mkModel (lit "gpt-4.1-mini") (of_Z 0);
      mkModel (lit "gpt-4o-mini") (of_Z 0);
      mkModel (lit "o4-mini") (of_Z 0);
      mkModel (lit "o3-mini") (of_Z 0) ]
    (lit "sk-...").

Definition PROVIDERS : list Provider :=
  [ providerOpenAI;
    mkProvider (lit "anthropic") (lit "Anthropic")
      [ mkModel (lit "claude-3-5-haiku-latest") (of_Z 0);
        mkModel (lit "claude-4-sonnet-latest") (of_Z 0) ]
      (lit "anth-...");
    mkProvider (lit "google") (lit "Google (Gemini)")
      [ mkModel (lit "gemini-2.5-flash") (of_Z 0) ]
      (lit "AIza...") ].

(** [getModelTemperature(providerId, modelName)]:
    [PROVIDERS.find(x => x.id === providerId) ?? PROVIDERS[0]], then
    [provider.models.find(m => m.name === modelName)?.temperature ?? 0]. *)
Definition getModelTemperature (providerId modelName : jsstring) : number :=
  let provider :=
    match List.find (fun x => jsstring_eqb (provider_id x) providerId) PROVIDERS with
    | Some p => p
    | None => providerOpenAI
    end in
  match List.find (fun m => jsstring_eqb (model_name m) modelName) (models provider) with
  | Some m => temperature m
  | None => of_Z 0
  end.

(** The number [setBar(pct)] writes, followed by a percent sign, as the
    width of the bar: [Math.max(0, Math.min(100, pct))]. *)
Definition setBar_width (pct : number) : number :=
  Math_max (of_Z 0) (Math_min (of_Z 100) pct).

(* ================================================================== *)
(** * The prompt of a transaction *)
(* ================================================================== *)

(** [parsePlaidMetadata(metadata)]: the value it returns ([JNull] is
    [null]) and the first argument of its calls of [console.warn].  The
    argument [None] is [undefined].  A string is parsed, whatever it
    parses to; any other truthy value is returned as it is. *)
Definition parsePlaidMetadata (metadata : option JSValue) : JSValue * list jsstring :=
  match metadata with
  | None => (JNull, [])
  | Some v =>
      if negb (truthy v) then (JNull, [])
      else
        match v with
        | JStr text =>
            match JSON.parse text with
            | Some parsed => (parsed, [])
            | None => (JNull, [lit "Failed to parse Plaid metadata:"])
            end
        | _ => (v, [])
        end
  end.

(** [x?.key], [None] being [undefined]: [undefined] when [x] is [null]
    or [undefined], the property otherwise.  The keys read below are
    own properties of objects only. *)
Definition chain (x : option JSValue) (key : jsstring) : option JSValue :=
  match x with
  | None | Some JNull => None
  | Some v => get v key
  end.

(** Truthiness of a value that may be [undefined]. *)
Definition truthyOpt (v : option JSValue) : bool :=
  match v with
  | Some x => truthy x
  | None => false
  end.

Section TransactionPrompt.

(** [String(x)] for a number [x]. *)
Variable Number_toString : number -> jsstring.

(** The conversion of a value to a string inside a template literal. *)
Definition render (v : option JSValue) : completion jsstring :=
  match v with
  | None => Normal (lit "undefined")
  | Some x => toString Number_toString x
  end.

(** The conversion inside a template literal of [v ?? ""]. *)
Definition renderOrEmpty (v : option JSValue) : completion jsstring :=
  match v with
  | None | Some JNull => Normal []
  | Some x => toString Number_toString x
  end.

(** The conversion inside a template literal of [v || fallback]. *)
Definition renderOr (v : option JSValue) (fallback : jsstring) : completion jsstring :=
  if truthyOpt v then render v else Normal fallback.

(** The conversion inside a template literal of
    [w ? pre + w + post : ""] for [w = v || ""]. *)
Definition renderWhen (v : option JSValue) (pre post : jsstring) : completion jsstring :=
  if truthyOpt v then let* s := render v in Normal (pre ++ s ++ post)
  else Normal [].

(** [items.join(sep)] on an array: [null] elements render as the empty
    string, the others through [String]. *)
Definition arrayJoin (sep : jsstring) (items : list JSValue) : completion jsstring :=
  let* parts := mapM (fun item => match item with
                                  | JNull => Normal []
                                  | _ => toString Number_toString item
                                  end) items in
  Normal (join sep parts).

(** [plaidMeta?.category?.join(", ") || "Unknown"]: the call of [join]
    on what is not an array, and so has no method of that name, throws
    a TypeError. *)
Definition plaidCategoryText (plaidMeta : JSValue) : completion jsstring :=
  match chain (Some plaidMeta) (lit "category") with
  | None | Some JNull => Normal (lit "Unknown")
  | Some (JArr items) =>
      let* s := arrayJoin (lit ", ") items in
      Normal (if jsstring_eqb s [] then lit "Unknown" else s)
  | Some _ => Throw TypeError
  end.

(** [[loc?.city, loc?.region].filter(Boolean).join(", ") || "Unknown"] *)
Definition locationText (plaidMeta : JSValue) : completion jsstring :=
  let loc := chain (Some plaidMeta) (lit "location") in
  let parts :=
    List.filter truthy
      (List.flat_map (fun v => match v with Some x => [x] | None => [] end)
         [chain loc (lit "city"); chain loc (lit "region")]) in
  let* s := arrayJoin (lit ", ") parts in
  Normal (if jsstring_eqb s [] then lit "Unknown" else s).

(** [v || otherwise] *)
Definition orValue (v : option JSValue) (otherwise : JSValue) : JSValue :=
  match v with
  | Some x => if truthy x then x else otherwise
  | None => otherwise
  end.

(** [plaidMeta?.merchant_name || plaidMeta?.name || t.payee || "Unknown"] *)
Definition merchantValue (plaidMeta : JSValue) (payee : option jsstring) : JSValue :=
  orValue (chain (Some plaidMeta) (lit "merchant_name"))
    (orValue (chain (Some plaidMeta) (lit "name"))
       (orValue (option_map JStr payee) (JStr (lit "Unknown")))).

(** The constant [_pfc]. *)
Definition pfcText (plaidMeta : JSValue) : completion jsstring :=
  let pfc := chain (Some plaidMeta) (lit "personal_finance_category") in
  let pfcPrimary := chain pfc (lit "primary") in
  let pfcDetailed := chain pfc (lit "detailed") in
  if truthyOpt pfcPrimary || truthyOpt pfcDetailed then
    let* p := renderOrEmpty pfcPrimary in
    let* d := renderOrEmpty pfcDetailed in
    Normal (p ++ (if truthyOpt pfcPrimary && truthyOpt pfcDetailed then lit " > " else [])
              ++ d)
  else Normal (lit "Unknown").

(** One element of [counterparties.map(...)]:
    [`${cp.name} (${cp.type}, ${cp.confidence_level})`]; the properties
    of [null] cannot be read. *)
Definition counterpartyText (cp : JSValue) : completion jsstring :=
  match cp with
  | JNull => Throw TypeError
  | _ =>
      let* n := render (get cp (lit "name")) in
      let* ty := render (get cp (lit "type")) in
      let* cl := render (get cp (lit "confidence_level")) in
      Normal (n ++ lit " (" ++ ty ++ lit ", " ++ cl ++ lit ")")
  end.

(** [plaidMeta?.counterparties || []], as far as [map] can be called on
    it: a truthy value that is not an array has no method [map]. *)
Definition counterpartiesOf (plaidMeta : JSValue) : completion (list JSValue) :=
  match chain (Some plaidMeta) (lit "counterparties") with
  | Some v =>
      if truthy v then
        match v with
        | JArr items => Normal items
        | _ => Throw TypeError
        end
      else Normal []
  | None => Normal []
  end.

(** The constant [pending]. *)
Definition pendingText (plaidMeta : JSValue) : jsstring :=
  match chain (Some plaidMeta) (lit "pending") with
  | Some (JBool true) => lit "true"
  | Some (JBool false) => lit "false"
  | _ => lit "unknown"
  end.

(** The lines of the prompt for the metadata [plaidMeta], before
    [.filter(Boolean)]; a line that is [undefined] in the source is the
    empty string here, which the filter drops alike. *)
Definition promptLines (t : LMTransaction) (plaidMeta : JSValue)
  : completion (list jsstring) :=
  let meta := Some plaidMeta in
  let* plaidCategory := plaidCategoryText plaidMeta in
  let* location := locationText plaidMeta in
  let* _pfc := pfcText plaidMeta in
  let* counterparties := counterpartiesOf plaidMeta in
  let* texts := mapM counterpartyText counterparties in
  let allCounterparties := join (lit "; ") texts in
  let* merchant := toString Number_toString (merchantValue plaidMeta (t_payee t)) in
  let* currency :=
    match t_currency t with
    | Some c => Normal c
    | None => renderOrEmpty (chain meta (lit "iso_currency_code"))
    end in
  let* catId := renderWhen (chain meta (lit "category_id")) (lit " (#") (lit ")") in
  let* pfcConfidence :=
    renderWhen (chain (chain meta (lit "personal_finance_category"))
                      (lit "confidence_level"))
               (lit " (") (lit " confidence)") in
  let* _channel := renderOr (chain meta (lit "payment_channel")) (lit "Unknown") in
  let* transactionType :=
    renderWhen (chain meta (lit "transaction_type")) (lit "- Transaction Type: ") [] in
  Normal
    [ lit "Please categorize this transaction:";
      [];
      lit "- Payee: " ++ default (lit "Unknown") (t_payee t);
      lit "- Merchant: " ++ merchant;
      lit "- Amount: " ++ Number_toString (t_amount t);
      lit "- Currency: " ++ currency;
      lit "- Date: " ++ t_date t;
      lit "- Notes: " ++ default [] (t_notes t);
      lit "- Plaid Category: " ++ plaidCategory ++ catId;
      lit "- Personal Finance Category: " ++ _pfc ++ pfcConfidence;
      lit "- Payment Channel: " ++ _channel;
      transactionType;
      (if jsstring_eqb allCounterparties [] then []
       else lit "- " ++ (if Nat.eqb (length counterparties) 1 then lit "Counterparty"
                         else lit "Counterparties")
            ++ lit ": " ++ allCounterparties);
      lit "- Location: " ++ location;
      lit "- Pending: " ++ pendingText plaidMeta ].

(** [buildTransactionPrompt(t)]: its completion and the warnings of
    [parsePlaidMetadata]. *)
Definition buildTransactionPrompt (t : LMTransaction)
  : completion jsstring * list jsstring :=
  let '(plaidMeta, warns) := parsePlaidMetadata (t_plaid_metadata t) in
  (let* lines := promptLines t plaidMeta in
   Normal (join newline (filterBoolean lines)),
   warns).

End TransactionPrompt.

(** The declared type of the metadata: an optional field, when it is
    there, holds a value of its type. *)
Definition isString (v : JSValue) : bool :=
  match v with JStr _ => true | _ => false end.

Definition isStringOrNull (v : JSValue) : bool :=
  match v with JStr _ | JNull => true | _ => false end.

Definition isBoolean (v : JSValue) : bool :=
  match v with JBool _ => true | _ => false end.

Definition hasField (check : JSValue -> bool) (o : JSValue) (key : jsstring) : bool :=
  match get o key with
  | Some v => check v
  | None => true
  end.

Definition isObject (v : JSValue) : bool :=
  match v with JObj _ => true | _ => false end.

Definition isCounterparty (v : JSValue) : bool :=
  isObject v
  && hasField isString v (lit "confidence_level")
  && hasField isStringOrNull v (lit "name")
  && hasField isStringOrNull v (lit "type").

Definition isPersonalFinanceCategory (v : JSValue) : bool :=
  match v with
  | JNull => true
  | JObj _ =>
      hasField isString v (lit "confidence_level")
      && hasField isString v (lit "primary")
      && hasField isString v (lit "detailed")
  | _ => false
  end.

Definition isLocation (v : JSValue) : bool :=
  isObject v
  && hasField isString v (lit "city")
  && hasField isString v (lit "region").

(** The fields of the object type of [plaid_metadata] that the prompt
    reads. *)
Definition isPlaidMetadata (v : JSValue) : bool :=
  isObject v
  && hasField (fun c => match c with
                        | JArr items => forallb isString items
                        | _ => false
                        end) v (lit "category")
  && hasField isString v (lit "category_id")
  && hasField isStringOrNull v (lit "merchant_name")
  && hasField isStringOrNull v (lit "name")
  && hasField (fun c => match c with
                        | JArr items => forallb isCounterparty items
                        | _ => false
                        end) v (lit "counterparties")
  && hasField isStringOrNull v (lit "iso_currency_code")
  && hasField isString v (lit "payment_channel")
  && hasField isPersonalFinanceCategory v (lit "personal_finance_category")
  && hasField isStringOrNull v (lit "transaction_type")
  && hasField isBoolean v (lit "pending")
  && hasField isLocation v (lit "location").

(** A transaction whose metadata is a string that parses to an object
    with a category that is a string, not an array. *)
Definition malformedTransaction : LMTransaction :=
  mkTransaction 9 (lit "2024-01-01") (Some (lit "Shop")) (of_Z 12) None None None None
    (Some (JStr (litq "{'category':'Food'}"))).

(** A transaction whose metadata is an object of the declared type. *)
Definition plaidTransaction : LMTransaction :=
  mkTransaction 8 (lit "2024-01-02") (Some (lit "SQ *CAFE")) (of_Z 5) None None None None
    (Some (JObj [ (lit "category", JArr [JStr (lit "Food and Drink"); JStr (lit "Coffee")]);
                  (lit "merchant_name", JStr (lit "Cafe Luna"));
                  (lit "counterparties",
                   JArr [JObj [ (lit "name", JStr (lit "Cafe Luna"));
                                (lit "type", JStr (lit "merchant"));
                                (lit "confidence_level", JStr (lit "HIGH")) ]]);
                  (lit "location", JObj [(lit "city", JStr (lit "Oakland"))]);
                  (lit "pending", JBool false) ])).

(** A row names a category of the list exactly and carries the id of a
    category of that name. *)
Definition rowOfCategory (categories : list LMCategory) (r : suggestionRow) : Prop :=
  exists c, In c categories /\ name c = row_name r /\ row_id r = Some (id c).

(** When the event is a presentation of the gate, each of its rows is
    the row of a category. *)
Definition presentsCategories (categories : list LMCategory) (e : event) : Prop :=
  match e with
  | Present _ rows _ => Forall (rowOfCategory categories) rows
  | _ => True
  end.

(** The row of the modal for one suggestion. *)
Definition suggestionRow_of (lower : jsstring -> jsstring) (categories : list LMCategory)
    (s : CategorySuggestion) : suggestionRow :=
  mkRow (sname s) (fst (matchCategoryId lower (sname s) categories))
        (confidenceBadge (confidence s)) (default [] (justification s)).

(** A ledger that refuses the fetch of the categories. *)
Definition refusingEnv : runEnv :=
  mkEnv (mkFetchReply false (Throw (Error (lit "Lunch Money HTTP 401: Unauthorized"))))
        (mkFetchReply false (Normal []))
        (fun _ => saveScript).


(* ================================================================== *)
(** * Facts about strings and lists *)
(* ================================================================== *)

Lemma jsstring_eqb_true (a b : jsstring) : jsstring_eqb a b = true <-> a = b.
Proof. unfold jsstring_eqb. apply bool_decide_eq_true. Qed.

Lemma jsstring_eqb_false (a b : jsstring) : jsstring_eqb a b = false <-> a <> b.
Proof. unfold jsstring_eqb. apply bool_decide_eq_false. Qed.

Lemma startsWith_spec (s p : jsstring) :
  startsWith s p = true <-> exists v, s = p ++ v.
Proof.
  revert s. induction p as [|c p IH]; intros s; simpl.
  - split; [intros _; exists s; reflexivity | reflexivity].
  - destruct s as [|d s].
    + split; [discriminate | intros [v Hv]; discriminate].
    + rewrite andb_true_iff, N.eqb_eq, IH. split.
      * intros [-> [v ->]]. exists v. reflexivity.
      * intros [v Hv]. injection Hv as -> ->. split; [reflexivity | exists v; reflexivity].
Qed.

Lemma includes_spec (s sub : jsstring) :
  includes s sub = true <-> isSubstring sub s.
Proof.
  unfold isSubstring. induction s as [|c s IH].
  - simpl. rewrite orb_false_r, startsWith_spec. split.
    + intros [v Hv]. exists [], v. exact Hv.
    + intros [u [v Huv]]. destruct u; [exists v; exact Huv | discriminate].
  - cbn [includes]. rewrite orb_true_iff, startsWith_spec, IH. split.
    + intros [[v Hv] | [u [v Huv]]].
      * exists [], v. exact Hv.
      * exists (c :: u), v. rewrite Huv. reflexivity.
    + intros [u [v Huv]]. destruct u as [|d u].
      * left. exists v. exact Huv.
      * right. injection Huv as _ Huv. exists u, v. exact Huv.
Qed.

Lemma find_firstWith {A} (f : A -> bool) (P : A -> Prop) (l : list A) (c : A) :
  (forall x, f x = true <-> P x) ->
  firstWith P l c -> List.find f l = Some c.
Proof.
  intros Hf (pre & post & -> & Hc & Hpre).
  induction Hpre as [|x pre Hx _ IH]; simpl.
  - apply Hf in Hc. rewrite Hc. reflexivity.
  - destruct (f x) eqn:E; [apply Hf in E; contradiction | exact IH].
Qed.

Lemma find_noneWith {A} (f : A -> bool) (P : A -> Prop) (l : list A) :
  (forall x, f x = true <-> P x) ->
  noneWith P l -> List.find f l = None.
Proof.
  intros Hf H. induction H as [|x l Hx _ IH]; simpl; [reflexivity|].
  destruct (f x) eqn:E; [apply Hf in E; contradiction | exact IH].
Qed.

Lemma filter_is_sublist {A} (f : A -> bool) (l : list A) :
  sublist (List.filter f l) l.
Proof.
  induction l as [|x l IH]; simpl; [constructor|].
  destruct (f x); [apply sublist_skip | apply sublist_cons]; exact IH.
Qed.

Lemma filter_idem {A} (f : A -> bool) (l : list A) :
  List.filter f (List.filter f l) = List.filter f l.
Proof.
  induction l as [|x l IH]; simpl; [reflexivity|].
  destruct (f x) eqn:E; simpl; [rewrite E, IH; reflexivity | exact IH].
Qed.

Lemma filter_negb_filter {A} (f : A -> bool) (l : list A) :
  List.filter (fun x => negb (f x)) (List.filter f l) = [].
Proof.
  induction l as [|x l IH]; simpl; [reflexivity|].
  destruct (f x) eqn:E; simpl; [rewrite E; simpl; exact IH | exact IH].
Qed.

(* ================================================================== *)
(** * The matcher *)
(* ================================================================== *)

Lemma exactMatch_spec q c : exactMatch q c = true <-> equalsExactly q c.
Proof. apply jsstring_eqb_true. Qed.

Lemma caseInsensitiveMatch_spec lower q c :
  caseInsensitiveMatch lower q c = true <-> equalsIgnoringCase lower q c.
Proof. apply jsstring_eqb_true. Qed.

Lemma fuzzyMatch_spec lower q c :
  fuzzyMatch lower q c = true <-> overlaps lower q c.
Proof.
  unfold fuzzyMatch, overlaps. cbv zeta.
  rewrite orb_true_iff, !includes_spec. reflexivity.
Qed.

(** C4. [matchCategoryId] resolves a name in three tiers, each stopping
    at its first hit: the first category whose name is the query; failing
    that, the first whose lower-cased name is the lower-cased query;
    failing that, the first whose lower-cased name contains the
    lower-cased query or is contained in it, and then a warning reports
    the fuzzy resolution; and [null] when no tier hits.  So "Gas" against
    the single category "Gas, Transportation" (id 2) resolves to 2 at the
    third tier with a warning, and "Zzz" resolves to nothing. *)
Theorem matchCategoryId_three_tiers :
  forall (lower : jsstring -> jsstring) (q : jsstring) (cats : list LMCategory),
    (forall c, firstWith (equalsExactly q) cats c ->
               matchCategoryId lower q cats = (Some (id c), []))
    /\ (forall c, noneWith (equalsExactly q) cats ->
                  firstWith (equalsIgnoringCase lower q) cats c ->
                  matchCategoryId lower q cats = (Some (id c), []))
    /\ (forall c, noneWith (equalsExactly q) cats ->
                  noneWith (equalsIgnoringCase lower q) cats ->
                  firstWith (overlaps lower q) cats c ->
                  matchCategoryId lower q cats = (Some (id c), [fuzzyWarning q c]))
    /\ (noneWith (equalsExactly q) cats ->
        noneWith (equalsIgnoringCase lower q) cats ->
        noneWith (overlaps lower q) cats ->
        matchCategoryId lower q cats = (None, []))
    /\ matchCategoryId toLowerCase_ascii (lit "Gas") [cGas]
       = (Some 2, [fuzzyWarning (lit "Gas") cGas])
    /\ matchCategoryId toLowerCase_ascii (lit "Zzz") [cGas] = (None, []).
Proof.
  intros lower q cats. unfold matchCategoryId.
  repeat split.
  - intros c H.
    rewrite (find_firstWith _ _ _ _ (exactMatch_spec q) H). reflexivity.
  - intros c H1 H2.
    rewrite (find_noneWith _ _ _ (exactMatch_spec q) H1).
    rewrite (find_firstWith _ _ _ _ (caseInsensitiveMatch_spec lower q) H2). reflexivity.
  - intros c H1 H2 H3.
    rewrite (find_noneWith _ _ _ (exactMatch_spec q) H1).
    rewrite (find_noneWith _ _ _ (caseInsensitiveMatch_spec lower q) H2).
    rewrite (find_firstWith _ _ _ _ (fuzzyMatch_spec lower q) H3). reflexivity.
  - intros H1 H2 H3.
    rewrite (find_noneWith _ _ _ (exactMatch_spec q) H1).
    rewrite (find_noneWith _ _ _ (caseInsensitiveMatch_spec lower q) H2).
    rewrite (find_noneWith _ _ _ (fuzzyMatch_spec lower q) H3). reflexivity.
Qed.

(** The first two tiers on the example of the specification: "groceries"
    resolves to the category "Groceries" (id 1) by the second tier. *)
Lemma matchCategoryId_three_tiers_witness :
  matchCategoryId toLowerCase_ascii (lit "groceries") [cGroceries] = (Some 1, [])
  /\ matchCategoryId toLowerCase_ascii (lit "Groceries") [cGroceries] = (Some 1, []).
Proof.
  split.
  - apply (proj1 (proj2 (matchCategoryId_three_tiers
                           toLowerCase_ascii (lit "groceries") [cGroceries])) cGroceries).
    + constructor; [|constructor]. vm_compute. discriminate.
    + exists [], []. split; [reflexivity|]. split; [vm_compute; reflexivity | constructor].
  - apply (proj1 (matchCategoryId_three_tiers
                    toLowerCase_ascii (lit "Groceries") [cGroceries]) cGroceries).
    exists [], []. split; [reflexivity|]. split; [vm_compute; reflexivity | constructor].
Defined.

(* ================================================================== *)
(** * The validator *)
(* ================================================================== *)

Lemma validCategoryNames_spec (categories : list LMCategory) (n : jsstring) :
  n ∈ validCategoryNames categories <-> isCanonicalName categories n.
Proof.
  unfold validCategoryNames, isCanonicalName.
  rewrite elem_of_list_to_set, list_elem_of_In, in_map_iff.
  split; intros [c [H1 H2]]; exists c; tauto.
Qed.

(** The kept suggestions are those of the input, in order, whose name is
    in the set; the warnings are those of the others, in order. *)
Lemma filter_warn_spec (valid : gset jsstring) (suggestions : list CategorySuggestion) :
  filter_warn valid suggestions =
  (List.filter (fun s => bool_decide (sname s ∈ valid)) suggestions,
   List.map invalidWarning
     (List.filter (fun s => negb (bool_decide (sname s ∈ valid))) suggestions)).
Proof.
  induction suggestions as [|s rest IH]; simpl; [reflexivity|].
  rewrite IH. destruct (bool_decide (sname s ∈ valid)); reflexivity.
Qed.

Lemma validate_kept_iff (suggestions : list CategorySuggestion)
    (categories : list LMCategory) (s : CategorySuggestion) :
  In s (fst (validateCategorySuggestions suggestions categories)) <->
  In s suggestions /\ isCanonicalName categories (sname s).
Proof.
  unfold validateCategorySuggestions. rewrite filter_warn_spec. simpl.
  rewrite filter_In, bool_decide_eq_true, validCategoryNames_spec. reflexivity.
Qed.

(** C5. [validateCategorySuggestions] keeps exactly the suggestions whose
    name is, character for character, the name of some category, in
    their order, and drops the others, warning once for each; "Gas" is
    dropped when the only category is "Gas, Transportation", although
    the matcher resolves it (fuzzily) to that category. *)
Theorem validate_keeps_exact_names :
  forall (suggestions : list CategorySuggestion) (categories : list LMCategory),
    (forall s, In s (fst (validateCategorySuggestions suggestions categories)) <->
               In s suggestions /\ isCanonicalName categories (sname s))
    /\ fst (validateCategorySuggestions suggestions categories)
       = List.filter (fun s => existsb (exactMatch (sname s)) categories) suggestions
    /\ snd (validateCategorySuggestions suggestions categories)
       = List.map invalidWarning
           (List.filter (fun s => negb (existsb (exactMatch (sname s)) categories))
                        suggestions)
    /\ validateCategorySuggestions [sGas; sGasTransportation] [cGas]
       = ([sGasTransportation], [invalidWarning sGas])
    /\ fst (matchCategoryId toLowerCase_ascii (sname sGas) [cGas]) = Some 2.
Proof.
  intros suggestions categories.
  assert (E : forall s, bool_decide (sname s ∈ validCategoryNames categories)
                        = existsb (exactMatch (sname s)) categories).
  { intros s. apply eq_true_iff_eq.
    rewrite bool_decide_eq_true, validCategoryNames_spec, existsb_exists.
    unfold isCanonicalName.
    split; intros [c [H1 H2]]; exists c; split; try assumption;
      apply exactMatch_spec; exact H2. }
  split; [intros s; apply validate_kept_iff|].
  unfold validateCategorySuggestions. rewrite filter_warn_spec. simpl.
  split; [apply filter_ext; exact E|].
  split; [f_equal; apply filter_ext; intros s; rewrite E; reflexivity|].
  split; vm_compute; reflexivity.
Qed.

(** C10. The result of [validateCategorySuggestions] is a subsequence of
    its input (the kept suggestions are unchanged, in their order, none
    repeated), and validating the result again changes nothing and
    warns about nothing. *)
Theorem validate_sublist_idempotent :
  forall (suggestions : list CategorySuggestion) (categories : list LMCategory),
    sublist (fst (validateCategorySuggestions suggestions categories)) suggestions
    /\ validateCategorySuggestions
         (fst (validateCategorySuggestions suggestions categories)) categories
       = (fst (validateCategorySuggestions suggestions categories), []).
Proof.
  intros suggestions categories.
  unfold validateCategorySuggestions. rewrite !filter_warn_spec. simpl.
  split; [apply filter_is_sublist|].
  rewrite filter_idem, filter_negb_filter. reflexivity.
Qed.

(* ================================================================== *)
(** * Validated suggestions and the matcher *)
(* ================================================================== *)

Lemma find_unique_name (categories : list LMCategory) (c : LMCategory) :
  NoDup (List.map name categories) -> In c categories ->
  List.find (exactMatch (name c)) categories = Some c.
Proof.
  induction categories as [|x l IH]; simpl; intros Hnd Hin; [contradiction|].
  apply NoDup_cons in Hnd as [Hx Hl].
  destruct Hin as [-> | Hin].
  - replace (exactMatch (name c) c) with true; [reflexivity|].
    symmetry. apply exactMatch_spec. reflexivity.
  - destruct (exactMatch (name c) x) eqn:E; [|apply IH; assumption].
    exfalso. apply Hx. apply exactMatch_spec in E. unfold equalsExactly in E.
    rewrite E. apply list_elem_of_In, in_map. exact Hin.
Qed.

Lemma matchCategoryId_unique_name lower (categories : list LMCategory) (c : LMCategory) :
  NoDup (List.map name categories) -> In c categories ->
  matchCategoryId lower (name c) categories = (Some (id c), []).
Proof.
  intros Hnd Hin. unfold matchCategoryId.
  rewrite (find_unique_name _ _ Hnd Hin). reflexivity.
Qed.

(** The suggestion with the empty name passes validation against a
    category with the empty name, and the preselection of the gate, which
    tests the name for truthiness first, is [null] for it. *)
Lemma preselection_blank_name_counterexample :
  NoDup (List.map name [cBlank])
  /\ fst (validateCategorySuggestions [sBlank] [cBlank]) = [sBlank]
  /\ preId toLowerCase_ascii [cBlank]
       (fst (validateCategorySuggestions [sBlank] [cBlank])) = (None, []).
Proof.
  split; [repeat constructor; vm_compute; intros H; inversion H|].
  split; vm_compute; reflexivity.
Qed.

(** C9, amended.  When the names of the categories are unique, every
    suggestion kept by [validateCategorySuggestions] names a category,
    and [matchCategoryId] resolves it to the id of that category at the
    first tier, with no fuzzy warning; and when the first kept suggestion
    has a name that is not the empty string, the preselection id computed
    by the gate is the id of its category. *)
Theorem validated_resolve_at_tier_one :
  forall (lower : jsstring -> jsstring) (categories : list LMCategory)
         (suggestions : list CategorySuggestion),
    NoDup (List.map name categories) ->
    (forall s, In s (fst (validateCategorySuggestions suggestions categories)) ->
               exists c, In c categories /\ name c = sname s)
    /\ (forall s c, In s (fst (validateCategorySuggestions suggestions categories)) ->
                    In c categories -> name c = sname s ->
                    matchCategoryId lower (sname s) categories = (Some (id c), []))
    /\ (forall s rest c,
           fst (validateCategorySuggestions suggestions categories) = s :: rest ->
           sname s <> [] ->
           In c categories -> name c = sname s ->
           preId lower categories (fst (validateCategorySuggestions suggestions categories))
           = (Some (id c), [])).
Proof.
  intros lower categories suggestions Hnd. repeat split.
  - intros s Hs. apply validate_kept_iff in Hs as [_ Hs]. exact Hs.
  - intros s c _ Hc Hname. rewrite <- Hname.
    apply matchCategoryId_unique_name; assumption.
  - intros s rest c Hv Hne Hc Hname. rewrite Hv. unfold preId.
    apply jsstring_eqb_false in Hne. rewrite Hne. simpl.
    rewrite <- Hname. apply matchCategoryId_unique_name; assumption.
Qed.

Lemma validated_resolve_at_tier_one_witness :
  preId toLowerCase_ascii [cGroceries; cGas]
    (fst (validateCategorySuggestions [sGas; sGasTransportation] [cGroceries; cGas]))
  = (Some 2, []).
Proof.
  refine (proj2 (proj2 (validated_resolve_at_tier_one toLowerCase_ascii
                          [cGroceries; cGas] [sGas; sGasTransportation] _))
                sGasTransportation [] cGas _ _ _ _).
  - repeat constructor; vm_compute; intros H; repeat (inversion H; subst; clear H;
      match goal with H' : _ ∈ _ |- _ => rename H' into H | _ => idtac end).
  - vm_compute. reflexivity.
  - vm_compute. discriminate.
  - right. left. reflexivity.
  - reflexivity.
Defined.

(* ================================================================== *)
(** * The system prompt *)
(* ================================================================== *)

Lemma join_cons_nonempty (sep p : jsstring) (rest : list jsstring) :
  rest <> [] -> join sep (p :: rest) = p ++ sep ++ join sep rest.
Proof. destruct rest; [contradiction | reflexivity]. Qed.

Lemma join_app (sep : jsstring) (A B : list jsstring) :
  A <> [] -> B <> [] -> join sep (A ++ B) = join sep A ++ sep ++ join sep B.
Proof.
  intros HA HB. induction A as [|p A IH]; [contradiction|].
  destruct A as [|p' A].
  - simpl app. rewrite join_cons_nonempty by exact HB. reflexivity.
  - change ((p :: p' :: A) ++ B) with (p :: (p' :: A) ++ B).
    rewrite join_cons_nonempty by discriminate.
    rewrite IH by discriminate.
    rewrite (join_cons_nonempty sep p (p' :: A)) by discriminate.
    rewrite <- !app_assoc. reflexivity.
Qed.

Lemma categoryInfo_prefix (c : LMCategory) :
  exists tail,
    categoryInfo c =
    dquote ++ name c ++ dquote ++ lit " (ID: " ++ Z_toString (id c) ++ lit ")" ++ tail.
Proof.
  unfold categoryInfo. cbv zeta.
  destruct (description c) as [d|].
  - destruct (jsstring_eqb d [] || jsstring_eqb (trim d) []).
    + exists []. rewrite !app_nil_r. reflexivity.
    + exists (lit " - " ++ trim d). rewrite <- !app_assoc. reflexivity.
  - exists []. rewrite !app_nil_r. reflexivity.
Qed.

Lemma categoryInfo_nonempty (c : LMCategory) : categoryInfo c <> [].
Proof. destruct (categoryInfo_prefix c) as [tail ->]. discriminate. Qed.

Lemma join_nonempty (sep p : jsstring) (rest : list jsstring) :
  p <> [] -> join sep (p :: rest) <> [].
Proof.
  intros Hp. destruct rest; simpl; [exact Hp|].
  destruct p; [contradiction | discriminate].
Qed.

Lemma filterBoolean_all_nonempty (parts : list jsstring) :
  Forall (fun p => p <> []) parts -> filterBoolean parts = parts.
Proof.
  intros H. induction H as [|p parts Hp _ IH]; simpl; [reflexivity|].
  apply jsstring_eqb_false in Hp. rewrite Hp. simpl. f_equal. exact IH.
Qed.

Lemma filterBoolean_app (A B : list jsstring) :
  filterBoolean (A ++ B) = filterBoolean A ++ filterBoolean B.
Proof. apply List.filter_app. Qed.

Lemma filterBoolean_cons_empty (parts : list jsstring) :
  filterBoolean ([] :: parts) = filterBoolean parts.
Proof. reflexivity. Qed.

Lemma filterBoolean_cons_nonempty (p : jsstring) (parts : list jsstring) :
  p <> [] -> filterBoolean (p :: parts) = p :: filterBoolean parts.
Proof.
  intros Hp. apply jsstring_eqb_false in Hp.
  unfold filterBoolean. cbn [List.filter]. rewrite Hp. reflexivity.
Qed.

Lemma getCategories_filter_active (fetched : list LMCategory) :
  Forall (fun c => archived c <> Some true /\ is_group c <> Some true)
         (getCategories_filter fetched).
Proof.
  apply Forall_forall. intros c Hc. apply list_elem_of_In in Hc.
  unfold getCategories_filter in Hc. apply filter_In in Hc as [_ Hc].
  apply andb_true_iff in Hc as [Hg Ha].
  split; intros E; rewrite E in *; discriminate.
Qed.

(** With the category "Gas, Transportation", the example sentence of the
    fixed instructions quotes the name twice, and the list a third time. *)
Lemma prompt_names_category_thrice_counterexample :
  In cGas [cGas]
  /\ occurrences (name cGas) (buildSystemPrompt [cGas]) = 3%nat.
Proof. split; [left; reflexivity | vm_compute; reflexivity]. Qed.

(** C3, amended.  [buildSystemPrompt] is a function of the category
    list alone: the lines of the fixed instructions (blank ones dropped),
    then one entry for each category of the list, in the order of the
    list, then the closing reminder, joined by line feeds.  The entry of
    a category starts with its name in double quotes and its id.  (The
    name may occur elsewhere too: in the fixed instructions, or inside
    another entry.)  The list the orchestrator passes is the result of
    the filter of [getCategories]: a subsequence of the fetched list in
    which no category is archived or a group. *)
Theorem buildSystemPrompt_enumerates :
  forall categories : list LMCategory,
    buildSystemPrompt categories
    = join newline (filterBoolean promptHeader
                    ++ List.map categoryInfo categories ++ [promptReminder])
    /\ (forall c, exists tail,
           categoryInfo c =
           dquote ++ name c ++ dquote ++ lit " (ID: " ++ Z_toString (id c) ++ lit ")"
           ++ tail)
    /\ (forall fetched,
           sublist (getCategories_filter fetched) fetched
           /\ Forall (fun c => archived c <> Some true /\ is_group c <> Some true)
                     (getCategories_filter fetched)).
Proof.
  intros categories. split; [|split].
  - unfold buildSystemPrompt. cbv zeta. rewrite filterBoolean_app.
    remember (filterBoolean promptHeader) as header eqn:Hh.
    assert (Hne : header <> []) by (subst header; vm_compute; discriminate).
    assert (Hr : promptReminder <> []) by (vm_compute; discriminate).
    destruct categories as [|c rest].
    + rewrite filterBoolean_cons_empty, filterBoolean_cons_empty.
      rewrite filterBoolean_all_nonempty by (repeat constructor; exact Hr).
      reflexivity.
    + set (entries := List.map categoryInfo (c :: rest)).
      assert (He : join newline entries <> [])
        by (apply join_nonempty, categoryInfo_nonempty).
      rewrite filterBoolean_cons_nonempty by exact He.
      rewrite filterBoolean_cons_empty.
      rewrite filterBoolean_all_nonempty by (repeat constructor; exact Hr).
      rewrite (join_app newline header [join newline entries; promptReminder])
        by (assumption || discriminate).
      rewrite (join_app newline header (entries ++ [promptReminder]))
        by (assumption || (subst entries; discriminate)).
      rewrite (join_app newline entries [promptReminder])
        by (subst entries; discriminate).
      reflexivity.
  - apply categoryInfo_prefix.
  - intros fetched. split; [apply filter_is_sublist | apply getCategories_filter_active].
Qed.

(* ================================================================== *)
(** * The confidence badge *)
(* ================================================================== *)

Lemma of_Z_0 : of_Z 0 = S754_zero false.
Proof. reflexivity. Qed.

Lemma of_Z_1 : of_Z 1 = S754_finite false 4503599627370496 (-52).
Proof. vm_compute. reflexivity. Qed.

Lemma shr_1_nonneg (mrs : shr_record) : 0 <= shr_m mrs -> 0 <= shr_m (shr_1 mrs).
Proof.
  destruct mrs as [m r s]. simpl. intros H.
  destruct m as [|p|p]; [simpl; lia | destruct p; simpl; lia | lia].
Qed.

Lemma iter_pos_shr_1_nonneg (p : positive) (mrs : shr_record) :
  0 <= shr_m mrs -> 0 <= shr_m (SpecFloat.iter_pos shr_1 p mrs).
Proof.
  revert mrs. induction p as [p IH|p IH|]; intros mrs H; simpl.
  - apply IH, IH, shr_1_nonneg, H.
  - apply IH, IH, H.
  - apply shr_1_nonneg, H.
Qed.

Lemma shr_fexp_nonneg (m e : Z) (l : location) :
  0 <= m -> 0 <= shr_m (fst (shr_fexp prec emax m e l)).
Proof.
  intros H. unfold shr_fexp, shr.
  assert (H0 : 0 <= shr_m (shr_record_of_loc m l))
    by (destruct l as [|[]]; simpl; exact H).
  destruct (fexp prec emax (Zdigits2 m + e) - e); simpl; try exact H0.
  apply iter_pos_shr_1_nonneg, H0.
Qed.

Lemma round_nearest_even_nonneg (m : Z) (l : location) :
  0 <= m -> 0 <= round_nearest_even m l.
Proof.
  intros H. destruct l as [|[]]; simpl; try lia.
  destruct (Z.even m); lia.
Qed.

(** Rounding a non-negative mantissa gives a zero, a finite number or an
    infinity of the given sign, never a NaN. *)
Lemma binary_round_aux_sign (sx : bool) (mx ex : Z) (lx : location) :
  0 <= mx ->
  match binary_round_aux prec emax sx mx ex lx with
  | S754_zero s | S754_infinity s | S754_finite s _ _ => s = sx
  | S754_nan => False
  end.
Proof.
  intros H. unfold binary_round_aux.
  pose proof (shr_fexp_nonneg mx ex lx H) as H1.
  destruct (shr_fexp prec emax mx ex lx) as [mrs' e']. simpl in H1.
  pose proof (shr_fexp_nonneg _ e' loc_Exact
                (round_nearest_even_nonneg _ (loc_of_shr_record mrs') H1)) as H2.
  destruct (shr_fexp prec emax
              (round_nearest_even (shr_m mrs') (loc_of_shr_record mrs')) e' loc_Exact)
    as [mrs'' e'']. simpl in H2.
  destruct (shr_m mrs'') as [|p|p]; [reflexivity | | lia].
  destruct (e'' <=? emax - prec); reflexivity.
Qed.

(** A positive finite number divided by 100 is not below zero. *)
Lemma div_100_nonneg (m : positive) (e : Z) :
  num_leb (of_Z 0) (num_div (S754_finite false m e) (of_Z 100)) = true.
Proof.
  unfold num_div.
  replace (of_Z 100) with (S754_finite false 7036874417766400 (-46))
    by (vm_compute; reflexivity).
  unfold SFdiv.
  destruct (SFdiv_core_binary prec emax (Z.pos m) e 7036874417766400 (-46))
    as [[mz ez] lz] eqn:E.
  assert (Hmz : 0 <= mz).
  { unfold SFdiv_core_binary in E. cbv zeta in E.
    match type of E with
    | (let '(q, r) := Z.div_eucl ?a ?b in _) = _ =>
        pose proof (Z.div_pos a b) as Hq; unfold Z.div in Hq;
        destruct (Z.div_eucl a b) as [q r]; simpl in Hq;
        injection E as <- _ _; apply Hq; [|lia]
    end.
    match goal with
    | |- 0 <= match ?s with _ => _ end =>
        destruct s; try lia; apply Z.shiftl_nonneg; lia
    end. }
  pose proof (binary_round_aux_sign (xorb false false) mz ez lz Hmz) as H.
  rewrite of_Z_0. unfold num_leb.
  destruct (binary_round_aux prec emax (xorb false false) mz ez lz) as [s|s| |s m' e'];
    simpl in H; try contradiction; subst s; reflexivity.
Qed.

(** The raw value 0.796875 is below 0.80, so the specification's bucket
    is medium; the badge is computed from the rounded percentage, 80,
    and is high. *)
Lemma bucket_of_rounded_percentage_counterexample :
  Number_isFinite (dec 796875 (-6)) = true
  /\ norm (Some (dec 796875 (-6))) = Some (dec 796875 (-6))
  /\ bucket_of_normalized (dec 796875 (-6)) = med
  /\ confidenceBadge (Some (dec 796875 (-6))) = Some (mkBadge (of_Z 80) high).
Proof. repeat split; vm_compute; reflexivity. Qed.

(** C6, amended.  For a finite raw confidence: the normalized value is
    the raw value divided by 100 when the raw value exceeds 1, and the
    raw value otherwise; a negative raw value renders no badge; any other
    renders one, whose percentage is the normalized value clamped to
    [0,1], times 100, rounded to the nearest integer, and whose class is
    high when that percentage is at least 80, medium when it is at least
    50, low otherwise.  So 85 normalizes to 0.85 and shows 85% high,
    0.45 shows 45% low, -1 shows no badge, and 0.796875, which rounds to
    80%, shows high. *)
Theorem confidenceBadge_spec :
  forall raw : number,
    Number_isFinite raw = true ->
    norm (Some raw)
    = Some (if num_ltb (of_Z 1) raw then num_div raw (of_Z 100) else raw)
    /\ (num_ltb raw (of_Z 0) = true -> confidenceBadge (Some raw) = None)
    /\ (num_ltb raw (of_Z 0) = false ->
        exists n p,
          norm (Some raw) = Some n
          /\ p = Math_round (num_mul (Math_max (of_Z 0) (Math_min (of_Z 1) n)) (of_Z 100))
          /\ confidenceBadge (Some raw)
             = Some (mkBadge p (if num_leb (of_Z 80) p then high
                                else if num_leb (of_Z 50) p then med else low)))
    /\ norm (Some (of_Z 85)) = Some (dec 85 (-2))
    /\ confidenceBadge (Some (of_Z 85)) = Some (mkBadge (of_Z 85) high)
    /\ confidenceBadge (Some (dec 45 (-2))) = Some (mkBadge (of_Z 45) low)
    /\ confidenceBadge (Some (of_Z (-1))) = None
    /\ confidenceBadge (Some (dec 796875 (-6))) = Some (mkBadge (of_Z 80) high).
Proof.
  intros raw Hfin.
  assert (Hnorm : norm (Some raw)
                  = Some (if num_ltb (of_Z 1) raw then num_div raw (of_Z 100) else raw))
    by (unfold norm, rawConf; rewrite Hfin; reflexivity).
  split; [exact Hnorm|]. split; [|split].
  - intros Hneg. unfold confidenceBadge. rewrite Hnorm.
    rewrite of_Z_0, of_Z_1 in *. unfold num_ltb, num_leb in *.
    destruct raw as [s|s| |s m e]; try discriminate; destruct s; try discriminate.
    reflexivity.
  - intros Hpos. unfold confidenceBadge. rewrite Hnorm.
    eexists. eexists. split; [reflexivity|]. split; [reflexivity|].
    match goal with
    | |- (if num_leb _ ?n then _ else _) = _ =>
        assert (H0 : num_leb (of_Z 0) n = true); [|rewrite H0; reflexivity]
    end.
    destruct (num_ltb (of_Z 1) raw) eqn:H1.
    + rewrite of_Z_1 in H1. unfold num_ltb in H1.
      destruct raw as [s|s| |s m e]; try discriminate.
      destruct s; [discriminate|]. apply div_100_nonneg.
    + rewrite of_Z_0 in *. unfold num_ltb, num_leb in *.
      destruct raw as [s|s| |s m e]; try discriminate; destruct s; try discriminate;
        reflexivity.
  - repeat split; vm_compute; reflexivity.
Qed.

Lemma confidenceBadge_spec_witness :
  exists n p,
    norm (Some (dec 25 (-2))) = Some n
    /\ p = Math_round (num_mul (Math_max (of_Z 0) (Math_min (of_Z 1) n)) (of_Z 100))
    /\ confidenceBadge (Some (dec 25 (-2)))
       = Some (mkBadge p (if num_leb (of_Z 80) p then high
                          else if num_leb (of_Z 50) p then med else low)).
Proof.
  refine (proj1 (proj2 (proj2 (confidenceBadge_spec (dec 25 (-2)) _))) _);
    vm_compute; reflexivity.
Defined.

(* ================================================================== *)
(** * The JSON parser never runs out of fuel *)
(* ================================================================== *)

Lemma skip_ws_length (s : jsstring) : (length (JSON.skip_ws s) <= length s)%nat.
Proof.
  induction s as [|c s IH]; simpl; [lia|].
  destruct (JSON.isJSONSpace c); simpl; lia.
Qed.

Lemma eat_length (c : N) (s r : jsstring) :
  JSON.eat c s = Some r -> length s = S (length r).
Proof.
  destruct s as [|d s]; simpl; [discriminate|].
  destruct (d =? c)%N; [|discriminate]. intros [= ->]. reflexivity.
Qed.

Lemma push_length (c : N) (o : option (jsstring * jsstring)) (str r : jsstring) :
  JSON.push c o = Some (str, r) -> exists str', o = Some (str', r).
Proof.
  destruct o as [[str' r']|]; simpl; [|discriminate].
  intros [= _ ->]. exists str'. reflexivity.
Qed.

Lemma string_body_length (n : nat) :
  forall s str r,
    (length s <= n)%nat -> JSON.string_body s = Some (str, r) ->
    (length r < length s)%nat.
Proof.
  induction n as [|n IH]; intros s str r Hn H.
  - destruct s; [discriminate | simpl in Hn; lia].
  - destruct s as [|c rest]; [discriminate|]. simpl in Hn. simpl in H.
    destruct (c =? 34)%N.
    { injection H as _ ->. simpl. lia. }
    destruct (c =? 92)%N.
    + destruct rest as [|e rest']; [discriminate|]. simpl in Hn.
      destruct (e =? 117)%N.
      * destruct rest' as [|h1 [|h2 [|h3 [|h4 rest'']]]]; try discriminate.
        simpl in Hn.
        destruct (JSON.hex4 h1 h2 h3 h4); [|discriminate].
        apply push_length in H as [str' H].
        apply IH in H; simpl; lia.
      * destruct (JSON.unescape e); [|discriminate].
        apply push_length in H as [str' H].
        apply IH in H; simpl; lia.
    + destruct (c <? 32)%N; [discriminate|].
      apply push_length in H as [str' H].
      apply IH in H; simpl; lia.
Qed.

Lemma digits_length (s : jsstring) :
  (length (snd (JSON.digits s)) <= length s)%nat.
Proof.
  induction s as [|c s IH]; simpl; [lia|].
  destruct (JSON.isDigit c); [|simpl; lia].
  destruct (JSON.digits s) as [ds r]. simpl in *. lia.
Qed.

Lemma numeral_length (s r : jsstring) (x : number) :
  JSON.numeral s = Some (x, r) -> (length r <= length s)%nat.
Proof.
  unfold JSON.numeral.
  assert (H1 : exists neg s1,
             match JSON.eat 45 s with Some r => (true, r) | None => (false, s) end
             = (neg, s1) /\ (length s1 <= length s)%nat).
  { destruct (JSON.eat 45 s) as [r'|] eqn:E.
    - exists true, r'. split; [reflexivity|]. apply eat_length in E. lia.
    - exists false, s. split; [reflexivity | lia]. }
  destruct H1 as (neg & s1 & -> & L1).
  assert (H2 : (length (snd (JSON.integerPart s1)) <= length s1)%nat).
  { unfold JSON.integerPart. destruct (JSON.eat 48 s1) as [r'|] eqn:E.
    - apply eat_length in E. simpl. lia.
    - apply digits_length. }
  destruct (JSON.integerPart s1) as [int s2]. simpl in H2.
  destruct int as [|d int]; [discriminate|].
  assert (H3 : forall fs s3, JSON.fractionPart s2 = Some (fs, s3) ->
                             (length s3 <= length s2)%nat).
  { intros fs s3. unfold JSON.fractionPart.
    destruct (JSON.eat 46 s2) as [r'|] eqn:E.
    - pose proof (digits_length r') as L. apply eat_length in E.
      destruct (JSON.digits r') as [fs' r'']. simpl in L.
      destruct fs'; [discriminate|]. intros [= _ <-]. lia.
    - intros [= _ <-]. lia. }
  destruct (JSON.fractionPart s2) as [[fs s3]|]; [|discriminate].
  specialize (H3 fs s3 eq_refl).
  assert (H4 : forall e s4, JSON.exponentPart s3 = Some (e, s4) ->
                            (length s4 <= length s3)%nat).
  { intros e s4. unfold JSON.exponentPart.
    destruct (match JSON.eat 101 s3 with Some r => Some r | None => JSON.eat 69 s3 end)
      as [r'|] eqn:E.
    - assert (L : length s3 = S (length r')).
      { destruct (JSON.eat 101 s3) eqn:E1.
        - injection E as ->. apply eat_length in E1. exact E1.
        - apply eat_length in E. exact E. }
      assert (L' : exists eneg r1,
                 match JSON.eat 45 r' with
                 | Some r0 => (true, r0)
                 | None => match JSON.eat 43 r' with
                           | Some r0 => (false, r0)
                           | None => (false, r')
                           end
                 end = (eneg, r1) /\ (length r1 <= length r')%nat).
      { destruct (JSON.eat 45 r') as [r0|] eqn:E1.
        - exists true, r0. split; [reflexivity|]. apply eat_length in E1. lia.
        - destruct (JSON.eat 43 r') as [r0|] eqn:E2.
          + exists false, r0. split; [reflexivity|]. apply eat_length in E2. lia.
          + exists false, r'. split; [reflexivity | lia]. }
      destruct L' as (eneg & r1 & -> & L1').
      pose proof (digits_length r1) as L2.
      destruct (JSON.digits r1) as [es r2]. simpl in L2.
      destruct es; [discriminate|]. intros [= _ <-]. lia.
    - intros [= _ <-]. lia. }
  destruct (JSON.exponentPart s3) as [[e s4]|]; [|discriminate].
  specialize (H4 e s4 eq_refl).
  intros [= _ <-]. lia.
Qed.

Lemma scalar_length (s r : jsstring) (v : JSValue) :
  JSON.scalar s = JSON.Ok v r -> (length r <= length s)%nat.
Proof.
  unfold JSON.scalar.
  destruct (startsWith s (lit "true")); [intros [= _ <-]; rewrite length_drop; lia|].
  destruct (startsWith s (lit "false")); [intros [= _ <-]; rewrite length_drop; lia|].
  destruct (startsWith s (lit "null")); [intros [= _ <-]; rewrite length_drop; lia|].
  destruct (JSON.numeral s) as [[x r']|] eqn:E; [|discriminate].
  intros [= _ <-]. eapply numeral_length, E.
Qed.

Lemma scalar_fuel (s : jsstring) : JSON.scalar s <> JSON.OutOfFuel.
Proof.
  unfold JSON.scalar.
  repeat match goal with |- (if ?b then _ else _) <> _ => destruct b; [discriminate|] end.
  destruct (JSON.numeral s) as [[x r']|]; discriminate.
Qed.

(** Facts about lengths at hand, then linear arithmetic. *)
Ltac lengths :=
  repeat match goal with
         | H : JSON.eat _ _ = Some _ |- _ => apply eat_length in H
         | H : JSON.string_body ?s = Some _ |- _ =>
             apply (string_body_length (length s) s _ _ (Nat.le_refl _)) in H
         end;
  repeat match goal with
         | |- context [JSON.skip_ws ?s] =>
             lazymatch goal with
             | _ : (length (JSON.skip_ws s) <= length s)%nat |- _ => fail
             | _ => pose proof (skip_ws_length s)
             end
         | _ : context [JSON.skip_ws ?s] |- _ =>
             lazymatch goal with
             | _ : (length (JSON.skip_ws s) <= length s)%nat |- _ => fail
             | _ => pose proof (skip_ws_length s)
             end
         end;
  simpl length in *; lia.

(** What a parser leaves is no longer than what it was given. *)
Lemma parsers_length (fuel : nat) :
  (forall s v r, JSON.value fuel s = JSON.Ok v r -> (length r <= length s)%nat)
  /\ (forall s vs r, JSON.elements fuel s = JSON.Ok vs r -> (length r <= length s)%nat)
  /\ (forall s ms r, JSON.members fuel s = JSON.Ok ms r -> (length r <= length s)%nat).
Proof.
  induction fuel as [|fuel (IHv & IHe & IHm)]; [repeat split; discriminate|].
  split; [|split].
  - intros s v r H. simpl in H. destruct s as [|c s]; [discriminate|].
    destruct (c =? 123)%N.
    { destruct (JSON.eat 125 (JSON.skip_ws s)) eqn:E.
      - injection H as _ <-. lengths.
      - destruct (JSON.members fuel (JSON.skip_ws s)) eqn:E'; try discriminate.
        injection H as _ <-. apply IHm in E'. lengths. }
    destruct (c =? 91)%N.
    { destruct (JSON.eat 93 (JSON.skip_ws s)) eqn:E.
      - injection H as _ <-. lengths.
      - destruct (JSON.elements fuel (JSON.skip_ws s)) eqn:E'; try discriminate.
        injection H as _ <-. apply IHe in E'. lengths. }
    destruct (c =? 34)%N.
    { destruct (JSON.string_body s) as [[str r']|] eqn:E; [|discriminate].
      injection H as _ <-. lengths. }
    apply scalar_length in H. exact H.
  - intros s vs r H. simpl in H.
    destruct (JSON.value fuel s) as [v r1| |] eqn:E; try discriminate.
    apply IHv in E.
    destruct (JSON.eat 93 (JSON.skip_ws r1)) eqn:E1.
    { injection H as _ <-. lengths. }
    destruct (JSON.eat 44 (JSON.skip_ws r1)) as [r2|] eqn:E2; [|discriminate].
    destruct (JSON.elements fuel (JSON.skip_ws r2)) eqn:E3; try discriminate.
    injection H as _ <-. apply IHe in E3. lengths.
  - intros s ms r H. simpl in H.
    destruct (JSON.eat 34 s) as [r0|] eqn:E0; [|discriminate].
    destruct (JSON.string_body r0) as [[key r1]|] eqn:E1; [|discriminate].
    destruct (JSON.eat 58 (JSON.skip_ws r1)) as [r2|] eqn:E2; [|discriminate].
    destruct (JSON.value fuel (JSON.skip_ws r2)) as [v r3| |] eqn:E3; try discriminate.
    apply IHv in E3.
    destruct (JSON.eat 125 (JSON.skip_ws r3)) eqn:E4.
    { injection H as _ <-. lengths. }
    destruct (JSON.eat 44 (JSON.skip_ws r3)) as [r4|] eqn:E5; [|discriminate].
    destruct (JSON.members fuel (JSON.skip_ws r4)) eqn:E6; try discriminate.
    injection H as _ <-. apply IHm in E6. lengths.
Qed.

(** With fuel above twice the length of the text, no parser stops for
    lack of fuel. *)
Lemma parsers_fuel (fuel : nat) :
  (forall s, (2 * length s < fuel)%nat -> JSON.value fuel s <> JSON.OutOfFuel)
  /\ (forall s, (2 * length s + 1 < fuel)%nat -> JSON.elements fuel s <> JSON.OutOfFuel)
  /\ (forall s, (2 * length s + 1 < fuel)%nat -> JSON.members fuel s <> JSON.OutOfFuel).
Proof.
  induction fuel as [|fuel (IHv & IHe & IHm)]; [repeat split; intros; lia|].
  destruct (parsers_length fuel) as (Lv & Le & Lm).
  split; [|split].
  - intros s Hs. simpl. destruct s as [|c s]; [discriminate|].
    destruct (c =? 123)%N.
    { destruct (JSON.eat 125 (JSON.skip_ws s)); [discriminate|].
      destruct (JSON.members fuel (JSON.skip_ws s)) eqn:E; try discriminate.
      exfalso. apply (IHm (JSON.skip_ws s)); [lengths | exact E]. }
    destruct (c =? 91)%N.
    { destruct (JSON.eat 93 (JSON.skip_ws s)); [discriminate|].
      destruct (JSON.elements fuel (JSON.skip_ws s)) eqn:E; try discriminate.
      exfalso. apply (IHe (JSON.skip_ws s)); [lengths | exact E]. }
    destruct (c =? 34)%N.
    { destruct (JSON.string_body s) as [[str r']|]; discriminate. }
    apply scalar_fuel.
  - intros s Hs. simpl.
    destruct (JSON.value fuel s) as [v r1| |] eqn:E; try discriminate.
    + apply Lv in E.
      destruct (JSON.eat 93 (JSON.skip_ws r1)); [discriminate|].
      destruct (JSON.eat 44 (JSON.skip_ws r1)) as [r2|] eqn:E2; [|discriminate].
      destruct (JSON.elements fuel (JSON.skip_ws r2)) eqn:E3; try discriminate.
      exfalso. apply (IHe (JSON.skip_ws r2)); [lengths | exact E3].
    + exfalso. apply (IHv s); [lia | exact E].
  - intros s Hs. simpl.
    destruct (JSON.eat 34 s) as [r0|] eqn:E0; [|discriminate].
    destruct (JSON.string_body r0) as [[key r1]|] eqn:E1; [|discriminate].
    destruct (JSON.eat 58 (JSON.skip_ws r1)) as [r2|] eqn:E2; [|discriminate].
    destruct (JSON.value fuel (JSON.skip_ws r2)) as [v r3| |] eqn:E3; try discriminate.
    + apply Lv in E3.
      destruct (JSON.eat 125 (JSON.skip_ws r3)); [discriminate|].
      destruct (JSON.eat 44 (JSON.skip_ws r3)) as [r4|] eqn:E5; [|discriminate].
      destruct (JSON.members fuel (JSON.skip_ws r4)) eqn:E6; try discriminate.
      exfalso. apply (IHm (JSON.skip_ws r4)); [lengths | exact E6].
    + exfalso. apply (IHv (JSON.skip_ws r2)); [lengths | exact E3].
Qed.

(** [JSON.parse] is total: the fuel it gives the parser is enough, so
    [None] always stands for a text that is not JSON. *)
Lemma JSON_value_fuel (text : jsstring) :
  JSON.value (S (2 * length text)) (JSON.skip_ws text) <> JSON.OutOfFuel.
Proof.
  apply (proj1 (parsers_fuel (S (2 * length text)))).
  pose proof (skip_ws_length text). lia.
Qed.

(* ================================================================== *)
(** * Response parsing *)
(* ================================================================== *)

(** C1.  The fallback parse of [chooseCategoryOptions] is not guarded:
    on the reply [noise {oops} trailing] the direct parse fails, the text
    between the first opening and the last closing brace is [{oops}],
    [JSON.parse] fails on it too, and its SyntaxError leaves the
    function, where the specification returns the empty list.  (A reply
    without braces, such as [not json at all], does give the empty
    list.) *)
Theorem fallback_parse_throws :
  JSON.parse (lit "noise {oops} trailing") = None
  /\ JSON.parse (lit "{oops}") = None
  /\ parseSuggestions shortestNumeral (lit "noise {oops} trailing")
     = Throw (SyntaxError (lit "{oops}"))
  /\ parseSuggestions shortestNumeral (lit "not json at all") = Normal [].
Proof. repeat split; vm_compute; reflexivity. Qed.

(** The same for every reply: when the direct parse fails and the text
    between the braces does not parse either, the SyntaxError of the second
    [JSON.parse] is the result. *)
Lemma parseSuggestions_fallback_throws
    (Number_toString : number -> jsstring) (content : jsstring) (start end_ : nat) :
  let jsonText :=
    trim (match fence_exec (trim content) with Some g => g | None => trim content end) in
  trim content <> [] ->
  JSON.parse jsonText = None ->
  indexOf jsonText (lit "{") = Some start ->
  lastIndexOf jsonText (lit "}") = Some end_ ->
  (start < end_)%nat ->
  JSON.parse (slice jsonText start (end_ + 1)) = None ->
  parseSuggestions Number_toString content
  = Throw (SyntaxError (slice jsonText start (end_ + 1))).
Proof.
  intros jsonText Hraw Hdirect Hstart Hend Hlt Hinner.
  unfold parseSuggestions. cbv zeta.
  apply jsstring_eqb_false in Hraw. rewrite Hraw.
  fold jsonText. rewrite Hdirect, Hstart, Hend.
  apply Nat.ltb_lt in Hlt. rewrite Hlt, Hinner. reflexivity.
Qed.

(** Induction on parsed values, with the elements of an array at hand. *)
Lemma JSValue_array_ind (P : JSValue -> Prop) :
  P JNull -> (forall b, P (JBool b)) -> (forall x, P (JNum x)) ->
  (forall s, P (JStr s)) ->
  (forall items, Forall P items -> P (JArr items)) ->
  (forall members, P (JObj members)) ->
  forall v, P v.
Proof.
  intros Hnull Hbool Hnum Hstr Harr Hobj.
  fix IH 1. intros [ |b|x|s|items|members].
  - exact Hnull.
  - apply Hbool.
  - apply Hnum.
  - apply Hstr.
  - apply Harr. induction items as [|item items IHitems]; constructor.
    + apply IH.
    + exact IHitems.
  - apply Hobj.
Qed.

(** [String(v)] returns exactly on the values that are [stringifiable],
    and throws a TypeError on the others. *)
Lemma toString_stringifiable (Number_toString : number -> jsstring) (v : JSValue) :
  if stringifiable v
  then exists s, toString Number_toString v = Normal s
  else toString Number_toString v = Throw TypeError.
Proof.
  induction v as [ |b|x|s|items IH|members] using JSValue_array_ind.
  - eexists; reflexivity.
  - destruct b; eexists; reflexivity.
  - eexists; reflexivity.
  - eexists; reflexivity.
  - cbn [stringifiable toString].
    set (elems := fix elems (l : list JSValue) : completion (list jsstring) :=
                    match l with
                    | [] => Normal []
                    | JNull :: rest => let* ss := elems rest in Normal ([] :: ss)
                    | item :: rest =>
                        let* s := toString Number_toString item in
                        let* ss := elems rest in Normal (s :: ss)
                    end).
    assert (H : if forallb stringifiable items
                then exists parts, elems items = Normal parts
                else elems items = Throw TypeError).
    { induction IH as [|item items Hitem _ IHitems]; [eexists; reflexivity|].
      cbn [forallb].
      destruct (stringifiable item) eqn:E.
      - destruct Hitem as [s Hs]. cbn [andb].
        destruct (forallb stringifiable items).
        + destruct IHitems as [parts Hparts].
          destruct item; cbn [elems] in *; fold elems; rewrite ?Hs, Hparts;
            eexists; reflexivity.
        + destruct item; cbn [elems] in *; fold elems; rewrite ?Hs, IHitems;
            reflexivity.
      - cbn [andb]. destruct item; try discriminate; cbn [elems]; fold elems;
          rewrite Hitem; reflexivity. }
    destruct (forallb stringifiable items).
    + destruct H as [parts ->]. eexists; reflexivity.
    + rewrite H. reflexivity.
  - cbn [stringifiable toString].
    destruct (lookup_member (lit "toString") members); [reflexivity | eexists; reflexivity].
Qed.

Section PostProcessing.

Variable Number_toString : number -> jsstring.

Lemma stringOf_stringifiable (v : JSValue) :
  stringifiable v = true -> toString Number_toString v = Normal (stringOf Number_toString v).
Proof.
  intros H. pose proof (toString_stringifiable Number_toString v) as T.
  rewrite H in T. destruct T as [s Hs]. unfold stringOf. rewrite Hs. reflexivity.
Qed.

Lemma toString_not_stringifiable (v : JSValue) :
  stringifiable v = false -> toString Number_toString v = Throw TypeError.
Proof.
  intros H. pose proof (toString_stringifiable Number_toString v) as T.
  rewrite H in T. exact T.
Qed.

Lemma coerceSuggestion_convertible (entry : JSValue) :
  coerceSuggestion Number_toString entry
  = if convertible entry then Normal (coerced Number_toString entry) else Throw TypeError.
Proof.
  unfold coerceSuggestion, convertible, coerced, coercedName, coercedJustification.
  destruct (get entry (lit "name")) as [n|].
  - destruct (stringifiable n) eqn:En.
    + assert (Hn : match n with
                   | JNull => Normal []
                   | _ => toString Number_toString n
                   end
                   = Normal match n with JNull => [] | _ => stringOf Number_toString n end)
        by (destruct n; try reflexivity; apply stringOf_stringifiable; exact En).
      rewrite Hn. cbn [bind andb].
      destruct (get entry (lit "justification")) as [j|]; [|reflexivity].
      destruct (truthy j); [|reflexivity].
      destruct (stringifiable j) eqn:Ej.
      * rewrite (stringOf_stringifiable j Ej). reflexivity.
      * rewrite (toString_not_stringifiable j Ej). reflexivity.
    + destruct n; try discriminate;
        rewrite (toString_not_stringifiable _ En); reflexivity.
  - cbn [bind andb].
    destruct (get entry (lit "justification")) as [j|]; [|reflexivity].
    destruct (truthy j); [|reflexivity].
    destruct (stringifiable j) eqn:Ej.
    * rewrite (stringOf_stringifiable j Ej). reflexivity.
    * rewrite (toString_not_stringifiable j Ej). reflexivity.
Qed.

Lemma mapM_coerceSuggestion (items : list JSValue) :
  mapM (coerceSuggestion Number_toString) items
  = if forallb convertible items then Normal (List.map (coerced Number_toString) items)
    else Throw TypeError.
Proof.
  induction items as [|entry items IH]; [reflexivity|].
  cbn [mapM forallb List.map]. rewrite coerceSuggestion_convertible, IH.
  destruct (convertible entry); [|reflexivity].
  destruct (forallb convertible items); reflexivity.
Qed.

Lemma take_filter_nonempty (l : list CategorySuggestion) :
  (length (take 3 (List.filter (fun s => (0 <? length (sname s))%nat) l)) <= 3)%nat
  /\ Forall (fun s => sname s <> [])
            (take 3 (List.filter (fun s => (0 <? length (sname s))%nat) l)).
Proof.
  split; [rewrite length_take; lia|].
  apply Forall_take, Forall_forall. intros s Hs.
  apply list_elem_of_In, filter_In in Hs as [_ Hs].
  apply Nat.ltb_lt in Hs. intros E. rewrite E in Hs. simpl in Hs. lia.
Qed.

End PostProcessing.

(** The reply whose only suggestion has for name an object with a member
    called [toString]: it parses, and the conversion of the name to a
    string throws a TypeError out of the post-processing. *)
Lemma shadowed_toString_counterexample :
  JSON.parse (litq "{'suggestions':[{'name':{'toString':1}}]}")
  = Some (JObj [(lit "suggestions",
                 JArr [JObj [(lit "name", JObj [(lit "toString", JNum (of_Z 1))])]])])
  /\ postProcess shortestNumeral
       (JObj [(lit "suggestions",
               JArr [JObj [(lit "name", JObj [(lit "toString", JNum (of_Z 1))])]])])
     = Throw TypeError.
Proof. split; vm_compute; reflexivity. Qed.

(** When some entry cannot be converted, the TypeError of [String]
    leaves the post-processing. *)
Lemma postProcess_throws (Number_toString : number -> jsstring) (parsed : JSValue) :
  forallb convertible (suggestionsField parsed) = false ->
  postProcess Number_toString parsed = Throw TypeError.
Proof.
  intros H. unfold postProcess. rewrite mapM_coerceSuggestion, H. reflexivity.
Qed.

(** C8, amended.  For every parsed reply the post-processing reads the
    member [suggestions], an absent or non-array one counting as the
    empty list.  When the name and the truthy justification of every
    entry can be converted to a string (none is, or holds in an array,
    an object with a member named [toString]), it returns the first
    three of the entries left after each name is made a trimmed string
    and the entries with an empty one are dropped, each with its
    justification as a trimmed string or absent and its confidence as
    the number it is or [null].  A result has at most three entries,
    none with an empty name. *)
Theorem postProcess_spec :
  forall (Number_toString : number -> jsstring) (parsed : JSValue),
    (forall items, get parsed (lit "suggestions") = Some (JArr items) ->
                   suggestionsField parsed = items)
    /\ ((forall items, get parsed (lit "suggestions") <> Some (JArr items)) ->
        postProcess Number_toString parsed = Normal [])
    /\ (forallb convertible (suggestionsField parsed) = true ->
        postProcess Number_toString parsed
        = Normal (take 3 (List.filter (fun s => negb (jsstring_eqb (sname s) []))
                            (List.map (coerced Number_toString) (suggestionsField parsed)))))
    /\ (forall result, postProcess Number_toString parsed = Normal result ->
                       (length result <= 3)%nat /\ Forall (fun s => sname s <> []) result).
Proof.
  intros Number_toString parsed.
  split; [|split; [|split]].
  - intros items H. unfold suggestionsField. rewrite H. reflexivity.
  - intros H. unfold postProcess, suggestionsField.
    destruct (get parsed (lit "suggestions")) as [[ | | | |items| ]|]; try reflexivity.
    exfalso. apply (H items). reflexivity.
  - intros H. unfold postProcess. rewrite mapM_coerceSuggestion, H. cbn [bind].
    do 2 f_equal. apply filter_ext. intros s.
    destruct (sname s); reflexivity.
  - intros result H. unfold postProcess in H. rewrite mapM_coerceSuggestion in H.
    destruct (forallb convertible (suggestionsField parsed)); [|discriminate].
    injection H as <-. apply take_filter_nonempty.
Qed.

Lemma postProcess_spec_witness :
  postProcess shortestNumeral
    (JObj [(lit "suggestions",
            JArr [JObj [(lit "name", JStr (lit " Groceries "));
                        (lit "confidence", JNum (dec 9 (-1)))];
                  JObj [(lit "name", JStr (lit "  "))]])])
  = Normal [mkSuggestion (lit "Groceries") None (Some (dec 9 (-1)))].
Proof.
  refine (eq_trans
            (proj1 (proj2 (proj2 (postProcess_spec shortestNumeral _))) _) _);
    vm_compute; reflexivity.
Defined.

(* ================================================================== *)
(** * Reasoning about effects *)
(* ================================================================== *)

Lemma total_ret {A} (a : A) : total (ret a).
Proof. intros w. exists a, w. reflexivity. Qed.

Lemma total_emit (e : event) : total (emit e).
Proof. intros w. eexists _, _. reflexivity. Qed.

Lemma total_emitAll (es : list event) : total (emitAll es).
Proof. intros w. eexists _, _. reflexivity. Qed.

Lemma total_getCancelled : total getCancelled.
Proof. intros w. eexists _, _. reflexivity. Qed.

Lemma total_setCancelled : total setCancelled.
Proof. intros w. eexists _, _. reflexivity. Qed.

Lemma total_bind {A B} (m : Eff A) (k : A -> Eff B) :
  total m -> (forall a, total (k a)) -> total (ebind m k).
Proof.
  intros Hm Hk w. destruct (Hm w) as (a & w' & E).
  unfold ebind. rewrite E. apply Hk.
Qed.

Lemma total_tryCatch {A} (m : Eff A) (h : exn -> Eff A) :
  (forall e, total (h e)) -> total (tryCatch m h).
Proof.
  intros Hh w. unfold tryCatch.
  destruct (m w) as [[a|e] w']; [eexists _, _; reflexivity | apply Hh].
Qed.

Lemma total_whileSuspended (b : bool) : total (whileSuspended b).
Proof.
  destruct b; [|apply total_ret]. unfold whileSuspended, onGlobalCancel.
  apply total_bind; [apply total_getCancelled|]. intros [|]; [apply total_ret|].
  repeat (apply total_bind; [|intros]);
    auto using total_setCancelled, total_emit.
Qed.

Lemma appends_ret {A} P (a : A) : appends P (ret a).
Proof. intros w. exists []. rewrite app_nil_r. split; [reflexivity | constructor]. Qed.

Lemma appends_throw {A} P (e : exn) : appends P (@throw A e).
Proof. intros w. exists []. rewrite app_nil_r. split; [reflexivity | constructor]. Qed.

Lemma appends_liftCompletion {A} P (c : completion A) : appends P (liftCompletion c).
Proof. intros w. exists []. rewrite app_nil_r. split; [reflexivity | constructor]. Qed.

Lemma appends_getCancelled P : appends P getCancelled.
Proof. intros w. exists []. rewrite app_nil_r. split; [reflexivity | constructor]. Qed.

Lemma appends_emit (P : event -> Prop) (e : event) : P e -> appends P (emit e).
Proof. intros He w. exists [e]. split; [reflexivity | repeat constructor; exact He]. Qed.

Lemma appends_emitAll (P : event -> Prop) (es : list event) :
  Forall P es -> appends P (emitAll es).
Proof. intros He w. exists es. split; [reflexivity | exact He]. Qed.

Lemma appends_setCancelled (P : event -> Prop) : P FlagSet -> appends P setCancelled.
Proof. intros He w. exists [FlagSet]. split; [reflexivity | repeat constructor; exact He]. Qed.

Lemma appends_bind {A B} P (m : Eff A) (k : A -> Eff B) :
  appends P m -> (forall a, appends P (k a)) -> appends P (ebind m k).
Proof.
  intros Hm Hk w. destruct (Hm w) as (evs & E & F).
  unfold ebind. destruct (m w) as [[a|e] w']; simpl in E.
  - destruct (Hk a w') as (evs' & E' & F').
    exists (evs ++ evs'). rewrite E', E, app_assoc.
    split; [reflexivity | apply Forall_app; split; assumption].
  - exists evs. split; assumption.
Qed.

Lemma appends_tryCatch {A} P (m : Eff A) (h : exn -> Eff A) :
  appends P m -> (forall e, appends P (h e)) -> appends P (tryCatch m h).
Proof.
  intros Hm Hh w. destruct (Hm w) as (evs & E & F).
  unfold tryCatch. destruct (m w) as [[a|e] w']; simpl in E.
  - exists evs. split; assumption.
  - destruct (Hh e w') as (evs' & E' & F').
    exists (evs ++ evs'). rewrite E', E, app_assoc.
    split; [reflexivity | apply Forall_app; split; assumption].
Qed.

Lemma appends_whileSuspended (P : event -> Prop) (b : bool) :
  P FlagSet -> (forall m c, P (Log m c)) -> P CloseModal ->
  appends P (whileSuspended b).
Proof.
  intros H1 H2 H3. destruct b; [|apply appends_ret].
  unfold whileSuspended, onGlobalCancel.
  apply appends_bind; [apply appends_getCancelled|]. intros [|]; [apply appends_ret|].
  repeat (apply appends_bind; [|intros]);
    auto using appends_setCancelled, appends_emit.
Qed.

Lemma notCommit_Warn (msgs : list jsstring) : Forall notCommit (List.map Warn msgs).
Proof. induction msgs; constructor; [exact I | assumption]. Qed.

Lemma cooperativeStep_refl (w : world) : cooperativeStep w w [].
Proof.
  unfold cooperativeStep. rewrite app_nil_r, orb_false_r.
  split; [reflexivity|]. split; [reflexivity|]. split; [constructor|].
  intros pre post E. destruct pre; discriminate.
Qed.

Lemma cooperativeStep_trans (w w' w'' : world) (evs evs' : list event) :
  cooperativeStep w w' evs -> cooperativeStep w' w'' evs' ->
  cooperativeStep w w'' (evs ++ evs').
Proof.
  intros (T1 & C1 & Q1 & S1) (T2 & C2 & Q2 & S2).
  unfold cooperativeStep.
  rewrite T2, T1, C2, C1, app_assoc, existsb_app, orb_assoc.
  split; [reflexivity|]. split; [reflexivity|]. split.
  - intros H. apply Forall_app. split; [apply Q1, H|].
    apply Q2. rewrite C1, H. reflexivity.
  - intros pre post E. apply app_eq_app in E as [l [[E1 E2] | [E1 E2]]].
    + destruct l as [|e l].
      * rewrite app_nil_l in E2. apply (S2 [] post). symmetry. exact E2.
      * injection E2 as <- ->. apply Forall_app. split.
        -- apply (S1 pre l). exact E1.
        -- apply Q2. rewrite C1, E1, existsb_app. simpl.
           rewrite !orb_true_r. reflexivity.
    + apply (S2 l post). exact E2.
Qed.

Lemma cooperative_same {A} (m : Eff A) (w : world) :
  snd (m w) = w -> cooperative m w.
Proof. intros E. exists []. rewrite E. apply cooperativeStep_refl. Qed.

Lemma cooperative_emit (e : event) (w : world) :
  isFlagSet e = false -> (cancelled w = true -> noCall e) ->
  cooperative (emit e) w.
Proof.
  intros He Hq. exists [e]. unfold cooperativeStep, emit.
  cbn [snd trace cancelled existsb]. rewrite He.
  split; [reflexivity|]. split; [rewrite !orb_false_r; reflexivity|]. split.
  - intros H. repeat constructor. apply Hq, H.
  - intros pre post E. destruct pre as [|x [|y pre]]; try discriminate.
    injection E as ->. discriminate.
Qed.

Lemma cooperative_emitAll (es : list event) (w : world) :
  existsb isFlagSet es = false -> Forall noCall es ->
  cooperative (emitAll es) w.
Proof.
  intros He Hq. exists es. unfold cooperativeStep, emitAll.
  cbn [snd trace cancelled]. rewrite He, orb_false_r.
  split; [reflexivity|]. split; [reflexivity|]. split.
  - intros _. exact Hq.
  - intros pre post E. rewrite E, existsb_app in He. simpl in He.
    rewrite orb_true_r in He. discriminate.
Qed.

Lemma cooperative_setCancelled (w : world) : cooperative setCancelled w.
Proof.
  exists [FlagSet]. unfold cooperativeStep, setCancelled.
  cbn [snd trace cancelled existsb isFlagSet]. rewrite orb_true_r.
  split; [reflexivity|]. split; [reflexivity|]. split.
  - intros _. repeat constructor.
  - intros pre post E. destruct pre as [|x [|y pre]]; try discriminate.
    injection E as <-. constructor.
Qed.

Lemma cooperative_bind {A B} (m : Eff A) (k : A -> Eff B) (w : world) :
  cooperative m w ->
  (forall a w', m w = (Normal a, w') -> cooperative (k a) w') ->
  cooperative (ebind m k) w.
Proof.
  intros [evs Hm] Hk. unfold cooperative, ebind.
  destruct (m w) as [[a|e] w'] eqn:E; cbn [snd] in Hm.
  - destruct (Hk a w' eq_refl) as [evs' Hk'].
    exists (evs ++ evs'). eapply cooperativeStep_trans; eassumption.
  - exists evs. exact Hm.
Qed.

Lemma cooperative_bind_get {B} (k : bool -> Eff B) (w : world) :
  cooperative (k (cancelled w)) w -> cooperative (ebind getCancelled k) w.
Proof. intros H. exact H. Qed.

Lemma cooperative_tryCatch {A} (m : Eff A) (h : exn -> Eff A) (w : world) :
  cooperative m w ->
  (forall e w', m w = (Throw e, w') -> cooperative (h e) w') ->
  cooperative (tryCatch m h) w.
Proof.
  intros [evs Hm] Hh. unfold cooperative, tryCatch.
  destruct (m w) as [[a|e] w'] eqn:E; cbn [snd] in Hm.
  - exists evs. exact Hm.
  - destruct (Hh e w' eq_refl) as [evs' Hh'].
    exists (evs ++ evs'). eapply cooperativeStep_trans; eassumption.
Qed.

Lemma cooperative_tryFinally {A} (m : Eff A) (f : Eff unit) (w : world) :
  cooperative m w ->
  (forall r w', m w = (r, w') -> cooperative f w') ->
  cooperative (tryFinally m f) w.
Proof.
  intros [evs Hm] Hf. unfold cooperative, tryFinally.
  destruct (m w) as [r w'] eqn:E; cbn [snd] in Hm.
  destruct (Hf r w' eq_refl) as [evs' Hf'].
  exists (evs ++ evs').
  destruct (f w') as [[u|e] w'']; cbn [snd] in *;
    eapply cooperativeStep_trans; eassumption.
Qed.

Lemma isFlagSet_Warn (msgs : list jsstring) :
  existsb isFlagSet (List.map Warn msgs) = false.
Proof. induction msgs; [reflexivity | exact IHmsgs]. Qed.

Lemma noCall_Warn (msgs : list jsstring) : Forall noCall (List.map Warn msgs).
Proof. induction msgs; constructor; [exact I | assumption]. Qed.

(** One step of a proof that a program is cooperative: the rule of the
    construct at its head, or a case analysis on what it branches on.  A
    call is admitted only where the flag was just read as not set. *)
Ltac cooperative_step :=
  lazymatch goal with
  | |- cooperative (ret _) _ => apply cooperative_same; reflexivity
  | |- cooperative (throw _) _ => apply cooperative_same; reflexivity
  | |- cooperative (liftCompletion _) _ => apply cooperative_same; reflexivity
  | |- cooperative setCancelled _ => apply cooperative_setCancelled
  | |- cooperative (emit _) _ =>
      apply cooperative_emit; [reflexivity | intros; first [exact I | congruence]]
  | |- cooperative (emitAll _) _ =>
      apply cooperative_emitAll; [apply isFlagSet_Warn | apply noCall_Warn]
  | |- cooperative (ebind getCancelled _) ?w =>
      apply cooperative_bind_get; destruct (cancelled w) eqn:?
  | |- cooperative (ebind _ _) _ => apply cooperative_bind; [|intros ? ? ?]
  | |- cooperative (tryCatch _ _) _ => apply cooperative_tryCatch; [|intros ? ? ?]
  | |- cooperative (tryFinally _ _) _ => apply cooperative_tryFinally; [|intros ? ? ?]
  | |- cooperative (if ?b then _ else _) _ => destruct b
  | |- cooperative (match ?x with _ => _ end) _ => destruct x
  end.

Lemma cooperative_whileSuspended (b : bool) (w : world) :
  cooperative (whileSuspended b) w.
Proof. unfold whileSuspended, onGlobalCancel. repeat cooperative_step. Qed.

(* ================================================================== *)
(** * The orchestrator and cancellation *)
(* ================================================================== *)

Section PipelineFacts.

Variable toLowerCase : jsstring -> jsstring.
Variable Number_toString : number -> jsstring.
Variable buildTransactionPrompt : LMTransaction -> jsstring.
Variable transactionTitle : LMTransaction -> jsstring.
Variable engineMessage : exn -> jsstring.

Let gate := promptUserForCategory toLowerCase.
Let choose := chooseCategoryOptions Number_toString buildTransactionPrompt.
Let prompt :=
  promptUserForCategoryWithLoading toLowerCase Number_toString buildTransactionPrompt
    engineMessage.
Let body :=
  tryBlock toLowerCase Number_toString buildTransactionPrompt transactionTitle
    engineMessage.
Let iter :=
  iteration toLowerCase Number_toString buildTransactionPrompt transactionTitle
    engineMessage.
Let theLoop :=
  loop toLowerCase Number_toString buildTransactionPrompt transactionTitle
    engineMessage.

Lemma gate_total t categories suggestions reply :
  total (gate t categories suggestions reply).
Proof.
  unfold gate, promptUserForCategory.
  destruct (suggestionRows toLowerCase categories suggestions) as [rows rowWarns].
  destruct (preId toLowerCase categories suggestions) as [p preWarns].
  repeat (apply total_bind; [|intros]);
    auto using total_emitAll, total_emit, total_whileSuspended.
  destruct (gate_action reply) as [sel| |].
  - destruct (match sel with
              | KeepSelection => initialSelection toLowerCase categories suggestions
              | Choose v => v
              end).
    + apply total_bind; [apply total_emit | intros; apply total_ret].
    + apply total_ret.
  - apply total_ret.
  - apply total_bind; [apply total_setCancelled | intros; apply total_ret].
Qed.

Lemma gate_appends t categories suggestions reply :
  appends notCommit (gate t categories suggestions reply).
Proof.
  unfold gate, promptUserForCategory.
  destruct (suggestionRows toLowerCase categories suggestions) as [rows rowWarns].
  destruct (preId toLowerCase categories suggestions) as [p preWarns].
  repeat (apply appends_bind; [|intros]);
    try (apply appends_emitAll, notCommit_Warn);
    try (apply appends_emit; exact I);
    try (apply appends_whileSuspended; try exact I; intros; exact I).
  destruct (gate_action reply) as [sel| |].
  - destruct (match sel with
              | KeepSelection => initialSelection toLowerCase categories suggestions
              | Choose v => v
              end).
    + apply appends_bind; [apply appends_emit; exact I | intros; apply appends_ret].
    + apply appends_ret.
  - apply appends_ret.
  - apply appends_bind; [apply appends_setCancelled; exact I | intros; apply appends_ret].
Qed.

Lemma choose_appends t systemPrompt reply :
  appends notCommit (choose t systemPrompt reply).
Proof.
  unfold choose, chooseCategoryOptions.
  apply appends_bind; [apply appends_getCancelled|]. intros [|]; [apply appends_throw|].
  apply appends_bind; [apply appends_emit; exact I | intros _].
  apply appends_bind;
    [apply appends_whileSuspended; try exact I; intros; exact I | intros _].
  apply appends_bind; [apply appends_liftCompletion | intros result].
  apply appends_bind; [apply appends_getCancelled|].
  intros [|]; [apply appends_throw | apply appends_liftCompletion].
Qed.

Lemma prompt_total t categories systemPrompt script :
  total (prompt t categories systemPrompt script).
Proof.
  unfold prompt, promptUserForCategoryWithLoading.
  apply total_bind; [apply total_emit | intros _].
  apply total_bind; [apply total_emit | intros _].
  apply total_tryCatch. intros e.
  apply total_bind; [apply total_emit | intros _].
  apply total_bind; [apply total_emit | intros _].
  apply gate_total.
Qed.

Lemma prompt_appends t categories systemPrompt script :
  appends notCommit (prompt t categories systemPrompt script).
Proof.
  unfold prompt, promptUserForCategoryWithLoading.
  apply appends_bind; [apply appends_emit; exact I | intros _].
  apply appends_bind; [apply appends_emit; exact I | intros _].
  apply appends_tryCatch.
  - apply appends_bind; [apply choose_appends | intros rawSuggestions].
    apply appends_bind; [apply appends_getCancelled|]. intros [|].
    + apply appends_bind; [apply appends_emit; exact I | intros _].
      apply appends_bind; [apply appends_emit; exact I | intros _].
      apply appends_ret.
    + destruct (validateCategorySuggestions rawSuggestions categories)
        as [suggestions warns].
      apply appends_bind; [apply appends_emitAll, notCommit_Warn | intros _].
      apply appends_bind; [apply appends_emit; exact I | intros _].
      apply gate_appends.
  - intros e.
    apply appends_bind; [apply appends_emit; exact I | intros _].
    apply appends_bind; [apply appends_emit; exact I | intros _].
    apply gate_appends.
Qed.

(** Checkpoint at the top of the loop: with the flag set, an iteration
    does nothing but log and break. *)
Lemma iteration_cancelled_at_top t categories systemPrompt script total_ done w :
  cancelled w = true ->
  iter t categories systemPrompt script total_ done w
  = (Normal (Break, done), mkWorld true (trace w ++ [cancelledByUser])).
Proof.
  intros H. unfold iter, iteration, ebind, getCancelled, emit, ret.
  rewrite H. cbv beta iota. rewrite H. reflexivity.
Qed.

(** Checkpoint before the provider call: with the flag set, the model is
    not invoked. *)
Lemma choose_cancelled_before t systemPrompt reply w :
  cancelled w = true ->
  choose t systemPrompt reply w = (Throw (Error (lit "Operation cancelled")), w).
Proof.
  intros H. unfold choose, chooseCategoryOptions, ebind, getCancelled, throw.
  rewrite H. reflexivity.
Qed.

(** Checkpoint after the provider call: when Cancel is clicked while the
    call is in flight, the reply is dropped. *)
Lemma choose_cancelled_after t systemPrompt reply content w :
  cancelled w = false ->
  invoke_cancelClicked reply = true ->
  invoke_outcome reply = Normal content ->
  choose t systemPrompt reply w
  = (Throw (Error (lit "Operation cancelled")),
     mkWorld true
       (trace w ++ [Invoke (t_id t) systemPrompt (buildTransactionPrompt t); FlagSet;
                    Log (lit "Cancelling" ++ [8230%N]) cls_warn; CloseModal])).
Proof.
  intros H Hc Ho.
  unfold choose, chooseCategoryOptions, whileSuspended, onGlobalCancel, ebind,
    getCancelled, setCancelled, liftCompletion, emit, throw, ret.
  rewrite H, Hc, Ho. simpl. rewrite H. simpl.
  rewrite <- !app_assoc. reflexivity.
Qed.

(** Checkpoint before the commit call: when the flag is set by the time
    the gate has resolved, whatever the decision, the [try] block breaks
    out of the loop and no commit is issued. *)
Lemma tryBlock_cancelled_before_commit t categories systemPrompt script total_ done w :
  cancelled w = false ->
  cancelled (snd (prompt t categories systemPrompt script
                    (mkWorld false
                       (trace w ++ [Log (lit "Suggesting category for: "
                                         ++ transactionTitle t) cls_info]))))
  = true ->
  exists evs,
    body t categories systemPrompt script total_ done w
    = (Normal (Break, done), mkWorld true (trace w ++ evs))
    /\ Forall notCommit evs.
Proof.
  intros H Hc.
  unfold body, tryBlock. cbv zeta.
  unfold ebind at 1. unfold emit at 1. rewrite H.
  unfold ebind at 1. unfold getCancelled at 1. cbn [cancelled].
  fold prompt.
  set (w1 := mkWorld false (trace w ++ [Log (lit "Suggesting category for: "
                                             ++ transactionTitle t) cls_info])) in *.
  destruct (prompt_total t categories systemPrompt script w1) as (r & w2 & E).
  destruct (prompt_appends t categories systemPrompt script w1) as (evs & Et & F).
  rewrite E in Hc, Et. simpl in Hc, Et.
  unfold ebind at 1. rewrite E.
  unfold ebind, getCancelled, emit, ret. rewrite Hc. cbn [cancelled trace].
  rewrite Hc, Et. subst w1. cbn [trace].
  eexists. split.
  - rewrite <- !app_assoc. reflexivity.
  - cbn [app]. constructor; [exact I|].
    apply Forall_app. split; [exact F | repeat constructor].
Qed.

(** From a world in which the flag is set, the loop only logs the
    cancellation, once. *)
Lemma loop_cancelled_start t rest i categories systemPrompt scripts total_ done w :
  cancelled w = true ->
  theLoop (t :: rest) i categories systemPrompt scripts total_ done w
  = (Normal done, mkWorld true (trace w ++ [cancelledByUser])).
Proof.
  intros H. unfold theLoop. cbn [loop]. unfold ebind at 1.
  fold iter. rewrite iteration_cancelled_at_top by exact H. reflexivity.
Qed.

(** Once the flag is set during the processing of the transactions up to
    [t], the transactions after [t] add nothing to the run but, at most,
    the one log line of the cancellation. *)
Lemma loop_stops_after_cancel before t after :
  forall i categories systemPrompt scripts total_ done w,
    cancelled (snd (theLoop (before ++ [t]) i categories systemPrompt scripts total_ done w))
    = true ->
    exists extra,
      (extra = [] \/ extra = [cancelledByUser])
      /\ theLoop (before ++ t :: after) i categories systemPrompt scripts total_ done w
         = (fst (theLoop (before ++ [t]) i categories systemPrompt scripts total_ done w),
            mkWorld true
              (trace (snd (theLoop (before ++ [t]) i categories systemPrompt scripts
                             total_ done w)) ++ extra)).
Proof.
  induction before as [|b before IH]; intros i categories systemPrompt scripts total_ done w.
  - unfold theLoop. cbn [app loop]. unfold ebind.
    destruct (iteration toLowerCase Number_toString buildTransactionPrompt transactionTitle
                engineMessage t categories systemPrompt (scripts i) total_ done w)
      as [[[[|] d]|e] w'].
    + (* the iteration fell through *)
      cbn [fst snd ret]. intros H.
      destruct after as [|t' after].
      * exists []. split; [left; reflexivity|]. cbn [loop ret]. rewrite app_nil_r.
        destruct w' as [c tr]. simpl in H. subst c. reflexivity.
      * exists [cancelledByUser]. split; [right; reflexivity|].
        fold theLoop. apply loop_cancelled_start. exact H.
    + (* the iteration broke out *)
      cbn [fst snd ret]. intros H. exists []. split; [left; reflexivity|].
      rewrite app_nil_r. destruct w' as [c tr]. simpl in H. subst c. reflexivity.
    + cbn [fst snd]. intros H. exists []. split; [left; reflexivity|].
      rewrite app_nil_r. destruct w' as [c tr]. simpl in H. subst c. reflexivity.
  - unfold theLoop. cbn [app loop]. unfold ebind.
    destruct (iteration toLowerCase Number_toString buildTransactionPrompt transactionTitle
                engineMessage b categories systemPrompt (scripts i) total_ done w)
      as [[[[|] d]|e] w'].
    + fold theLoop. apply IH.
    + cbn [fst snd ret]. intros H. exists []. split; [left; reflexivity|].
      rewrite app_nil_r. destruct w' as [c tr]. simpl in H. subst c. reflexivity.
    + cbn [fst snd]. intros H. exists []. split; [left; reflexivity|].
      rewrite app_nil_r. destruct w' as [c tr]. simpl in H. subst c. reflexivity.
Qed.

(** An iteration in which the gate resolves to no category, the flag not
    set, counts the transaction twice and moves the bar twice: once in
    the branch of the skip, once more in [finally]. *)
Lemma iteration_skip_counts_twice t categories systemPrompt script total_ done w r w2 :
  cancelled w = false ->
  prompt t categories systemPrompt script
    (mkWorld false
       (trace w ++ [Log (lit "Suggesting category for: " ++ transactionTitle t) cls_info]))
  = (Normal r, w2) ->
  cancelled w2 = false ->
  truthy_id r = false ->
  iter t categories systemPrompt script total_ done w
  = (Normal (Continue, done + 2),
     mkWorld false
       (trace w2 ++ [Log (lit "Skipped: " ++ transactionTitle t) cls_warn; CloseModal;
                     SetBar (progress (done + 1) total_);
                     SetBar (progress (done + 2) total_)])).
Proof.
  intros H E Hc Hr.
  unfold iter, iteration. unfold ebind at 1. unfold getCancelled at 1. rewrite H.
  unfold ebind at 1. unfold tryCatch. unfold tryBlock. cbv zeta.
  unfold ebind at 1. unfold emit at 1. rewrite H.
  unfold ebind at 1. unfold getCancelled at 1. cbn [cancelled].
  fold prompt. unfold ebind at 1. rewrite E.
  unfold ebind, getCancelled, emit, ret. rewrite Hc, Hr. cbn [negb cancelled trace].
  rewrite Hc. replace (done + 1 + 1) with (done + 2) by lia.
  rewrite <- !app_assoc. reflexivity.
Qed.

Lemma gate_cooperative t categories suggestions reply w :
  cooperative (gate t categories suggestions reply) w.
Proof.
  unfold gate, promptUserForCategory.
  repeat first [apply cooperative_whileSuspended | cooperative_step].
Qed.

Lemma choose_cooperative t systemPrompt reply w :
  cooperative (choose t systemPrompt reply) w.
Proof.
  unfold choose, chooseCategoryOptions.
  repeat first [apply cooperative_whileSuspended | cooperative_step].
Qed.

Lemma prompt_cooperative t categories systemPrompt script w :
  cooperative (prompt t categories systemPrompt script) w.
Proof.
  unfold prompt, promptUserForCategoryWithLoading.
  repeat first [apply choose_cooperative | apply gate_cooperative | cooperative_step].
Qed.

Lemma iteration_cooperative t categories systemPrompt script total_ done w :
  cooperative (iter t categories systemPrompt script total_ done) w.
Proof.
  unfold iter, iteration, tryBlock, updateTransactionCategory, cancelledByUser.
  repeat first [apply prompt_cooperative | apply cooperative_whileSuspended
               | cooperative_step].
Qed.

(** The loop is cooperative: it only appends events, the flag once set
    stays set, and after the flag is set the model is not invoked and
    nothing is committed. *)
Lemma loop_cooperative txs :
  forall i categories systemPrompt scripts total_ done w,
    cooperative (theLoop txs i categories systemPrompt scripts total_ done) w.
Proof.
  induction txs as [|t txs IH]; intros i categories systemPrompt scripts total_ done w.
  - apply cooperative_same. reflexivity.
  - unfold theLoop. cbn [loop]. apply cooperative_bind; [apply iteration_cooperative|].
    intros [[|] d] w' _; [apply IH | apply cooperative_same; reflexivity].
Qed.

End PipelineFacts.

(** C2.  A skipped transaction is counted twice.  In the run over one
    transaction that the user skips, [done] ends at 2 and the bar is set
    to 100% and then to 200% of the single transaction (after the 0% of
    the start), where the specification has one increment and one update
    for each outcome; a saved transaction is counted once. *)
Theorem skipped_transaction_counted_twice :
  fst (sampleRun 1 (fun _ => skipScript)) = Normal (Some 2)
  /\ setBars (trace (snd (sampleRun 1 (fun _ => skipScript))))
     = [of_Z 0; of_Z 100; of_Z 200]
  /\ fst (sampleRun 1 (fun _ => saveScript)) = Normal (Some 1)
  /\ setBars (trace (snd (sampleRun 1 (fun _ => saveScript)))) = [of_Z 0; of_Z 100].
Proof. repeat split; vm_compute; reflexivity. Qed.

(** C7.  Cancellation is cooperative and final.  If the flag is set by
    the end of the processing of a transaction [t], the transactions
    after [t] add nothing to the run but at most the one log line of the
    cancellation: none is prompted for, presented or committed, and what
    was done before, commits included, stands as it was.  The loop is
    [cooperative]: it only appends events, the flag is set after it
    exactly when it was set before or an event of the loop set it, and
    from the moment the flag is set the model is not invoked and nothing
    is committed.  The flag is checked at the top of each iteration (set,
    the iteration only logs and breaks), before the call of the model
    (set, the model is not invoked), after it (set meanwhile, the reply
    is dropped), and before the commit (set by the time the gate has
    resolved, no commit is issued). *)
Theorem cancellation_stops_the_run :
  forall (toLowerCase : jsstring -> jsstring) (Number_toString : number -> jsstring)
         (buildTransactionPrompt transactionTitle : LMTransaction -> jsstring)
         (engineMessage : exn -> jsstring),
    let theLoop := loop toLowerCase Number_toString buildTransactionPrompt
                        transactionTitle engineMessage in
    (forall before t after i categories systemPrompt scripts total_ done w,
        cancelled (snd (theLoop (before ++ [t]) i categories systemPrompt scripts
                          total_ done w)) = true ->
        exists extra,
          (extra = [] \/ extra = [cancelledByUser])
          /\ theLoop (before ++ t :: after) i categories systemPrompt scripts total_ done w
             = (fst (theLoop (before ++ [t]) i categories systemPrompt scripts total_ done w),
                mkWorld true
                  (trace (snd (theLoop (before ++ [t]) i categories systemPrompt scripts
                                 total_ done w)) ++ extra)))
    /\ (forall txs i categories systemPrompt scripts total_ done w,
           cooperative (theLoop txs i categories systemPrompt scripts total_ done) w)
    /\ (forall t categories systemPrompt script total_ done w,
           cancelled w = true ->
           iteration toLowerCase Number_toString buildTransactionPrompt transactionTitle
             engineMessage t categories systemPrompt script total_ done w
           = (Normal (Break, done), mkWorld true (trace w ++ [cancelledByUser])))
    /\ (forall t systemPrompt reply w,
           cancelled w = true ->
           chooseCategoryOptions Number_toString buildTransactionPrompt t systemPrompt reply w
           = (Throw (Error (lit "Operation cancelled")), w))
    /\ (forall t systemPrompt reply content w,
           cancelled w = false ->
           invoke_cancelClicked reply = true ->
           invoke_outcome reply = Normal content ->
           chooseCategoryOptions Number_toString buildTransactionPrompt t systemPrompt reply w
           = (Throw (Error (lit "Operation cancelled")),
              mkWorld true
                (trace w ++ [Invoke (t_id t) systemPrompt (buildTransactionPrompt t);
                             FlagSet; Log (lit "Cancelling" ++ [8230%N]) cls_warn;
                             CloseModal])))
    /\ (forall t categories systemPrompt script total_ done w,
           cancelled w = false ->
           cancelled
             (snd (promptUserForCategoryWithLoading toLowerCase Number_toString
                     buildTransactionPrompt engineMessage t categories systemPrompt script
                     (mkWorld false
                        (trace w ++ [Log (lit "Suggesting category for: "
                                          ++ transactionTitle t) cls_info]))))
           = true ->
           exists evs,
             tryBlock toLowerCase Number_toString buildTransactionPrompt transactionTitle
               engineMessage t categories systemPrompt script total_ done w
             = (Normal (Break, done), mkWorld true (trace w ++ evs))
             /\ Forall notCommit evs).
Proof.
  intros toLowerCase Number_toString buildTransactionPrompt transactionTitle engineMessage
         theLoop.
  split; [|split; [|split; [|split; [|split]]]].
  - intros before t after. apply loop_stops_after_cancel.
  - intros txs. apply loop_cooperative.
  - apply iteration_cancelled_at_top.
  - apply choose_cancelled_before.
  - apply choose_cancelled_after.
  - apply tryBlock_cancelled_before_commit.
Qed.

(** Three transactions: the first is saved, the gate of the second is
    cancelled; the third adds nothing.  The only commit is that of the
    first, and the model is invoked and the gate presented for the first
    two only. *)
Lemma cancellation_stops_the_run_witness :
  (exists extra,
      (extra = [] \/ extra = [cancelledByUser])
      /\ sampleLoop_on [sampleTransaction 1; sampleTransaction 2; sampleTransaction 3]
         = (fst (sampleLoop_on [sampleTransaction 1; sampleTransaction 2]),
            mkWorld true
              (trace (snd (sampleLoop_on [sampleTransaction 1; sampleTransaction 2]))
               ++ extra)))
  /\ commits (trace (snd (sampleLoop_on
                            [sampleTransaction 1; sampleTransaction 2; sampleTransaction 3])))
     = [(1, 1)]
  /\ prompted (trace (snd (sampleLoop_on
                             [sampleTransaction 1; sampleTransaction 2; sampleTransaction 3])))
     = [1; 1; 2; 2].
Proof.
  split; [|split; vm_compute; reflexivity].
  refine (proj1 (cancellation_stops_the_run toLowerCase_ascii shortestNumeral
                   samplePrompt sampleTitle sampleMessage)
                [sampleTransaction 1] (sampleTransaction 2) [sampleTransaction 3]
                0%nat [cGroceries; cGas] (buildSystemPrompt [cGroceries; cGas])
                (fun i => if Nat.eqb i 1 then cancelScript else saveScript) 3 0
                (mkWorld false []) _).
  vm_compute. reflexivity.
Defined.

(* ================================================================== *)
(** * Further properties of the code *)
(* ================================================================== *)

Lemma find_none_iff {A} (f : A -> bool) (l : list A) :
  List.find f l = None <-> Forall (fun x => f x = false) l.
Proof.
  induction l as [|a l IH]; simpl.
  - split; [constructor | reflexivity].
  - destruct (f a) eqn:E.
    + split; [discriminate|]. intros H. inversion H; congruence.
    + rewrite IH. split; [intros H; constructor; assumption | intros H; inversion H; assumption].
Qed.

Lemma exact_overlaps lower q c : exactMatch q c = true -> fuzzyMatch lower q c = true.
Proof.
  intros H. apply exactMatch_spec in H. unfold equalsExactly in H.
  apply fuzzyMatch_spec. left. rewrite H. exists [], []. rewrite app_nil_r. reflexivity.
Qed.

Lemma caseInsensitive_overlaps lower q c :
  caseInsensitiveMatch lower q c = true -> fuzzyMatch lower q c = true.
Proof.
  intros H. apply caseInsensitiveMatch_spec in H. unfold equalsIgnoringCase in H.
  apply fuzzyMatch_spec. left. rewrite H. exists [], []. rewrite app_nil_r. reflexivity.
Qed.

Lemma matchCategoryId_some lower q cats i :
  fst (matchCategoryId lower q cats) = Some i ->
  exists c, In c cats /\ id c = i /\ overlaps lower q c.
Proof.
  unfold matchCategoryId.
  destruct (List.find (exactMatch q) cats) as [c|] eqn:E1.
  { simpl. intros [= <-]. apply find_some in E1 as [Hin Hc].
    exists c. repeat split; [exact Hin|]. apply fuzzyMatch_spec, exact_overlaps, Hc. }
  destruct (List.find (caseInsensitiveMatch lower q) cats) as [c|] eqn:E2.
  { simpl. intros [= <-]. apply find_some in E2 as [Hin Hc].
    exists c. repeat split; [exact Hin|].
    apply fuzzyMatch_spec, caseInsensitive_overlaps, Hc. }
  destruct (List.find (fuzzyMatch lower q) cats) as [c|] eqn:E3.
  { simpl. intros [= <-]. apply find_some in E3 as [Hin Hc].
    exists c. repeat split; [exact Hin|]. apply fuzzyMatch_spec, Hc. }
  simpl. discriminate.
Qed.

(** X1.  [matchCategoryId] never invents an id: a non-null result is the
    id of a category of the list whose lowercased name contains, or is
    contained in, the lowercased query; and the result is null exactly
    when no category of the list overlaps with the query in that way. *)
Theorem matchCategoryId_listed_or_null :
  forall (lower : jsstring -> jsstring) (q : jsstring) (cats : list LMCategory),
    (forall i, fst (matchCategoryId lower q cats) = Some i ->
               exists c, In c cats /\ id c = i /\ overlaps lower q c)
    /\ (fst (matchCategoryId lower q cats) = None <-> noneWith (overlaps lower q) cats).
Proof.
  intros lower q cats. split.
  - intros i. apply matchCategoryId_some.
  - unfold matchCategoryId, noneWith. split.
    + destruct (List.find (exactMatch q) cats) eqn:E1; [discriminate|].
      destruct (List.find (caseInsensitiveMatch lower q) cats) eqn:E2; [discriminate|].
      destruct (List.find (fuzzyMatch lower q) cats) eqn:E3; [discriminate|].
      intros _. apply find_none_iff in E3.
      eapply List.Forall_impl; [|exact E3]. simpl. intros c Hc Ho.
      apply fuzzyMatch_spec in Ho. congruence.
    + intros H.
      assert (F : Forall (fun c => fuzzyMatch lower q c = false) cats).
      { eapply List.Forall_impl; [|exact H]. simpl. intros c Hc.
        destruct (fuzzyMatch lower q c) eqn:E; [|reflexivity].
        exfalso. apply Hc, fuzzyMatch_spec, E. }
      assert (E3 : List.find (fuzzyMatch lower q) cats = None) by (apply find_none_iff, F).
      assert (E2 : List.find (caseInsensitiveMatch lower q) cats = None).
      { apply find_none_iff. eapply List.Forall_impl; [|exact F]. simpl. intros c Hc.
        destruct (caseInsensitiveMatch lower q c) eqn:E; [|reflexivity].
        apply caseInsensitive_overlaps in E. congruence. }
      assert (E1 : List.find (exactMatch q) cats = None).
      { apply find_none_iff. eapply List.Forall_impl; [|exact F]. simpl. intros c Hc.
        destruct (exactMatch q c) eqn:E; [|reflexivity].
        apply (exact_overlaps lower) in E. congruence. }
      rewrite E1, E2, E3. reflexivity.
Qed.

(** X2.  The empty query.  When lower-casing maps the empty string to
    itself and no category has a name that lower-cases to the empty
    string, the empty query resolves, at the fuzzy tier and with the
    warning, to the first category of the list: the empty string is
    contained in every name. *)
Theorem matchCategoryId_empty_query :
  forall (lower : jsstring -> jsstring) (c : LMCategory) (rest : list LMCategory),
    lower [] = [] ->
    Forall (fun c' => lower (name c') <> []) (c :: rest) ->
    matchCategoryId lower [] (c :: rest) = (Some (id c), [fuzzyWarning [] c]).
Proof.
  intros lower c rest H0 F. unfold matchCategoryId.
  assert (E1 : List.find (exactMatch []) (c :: rest) = None).
  { apply find_none_iff. eapply List.Forall_impl; [|exact F]. simpl. intros c' Hc.
    unfold exactMatch. apply jsstring_eqb_false. intros E. rewrite E in Hc. congruence. }
  assert (E2 : List.find (caseInsensitiveMatch lower []) (c :: rest) = None).
  { apply find_none_iff. eapply List.Forall_impl; [|exact F]. simpl. intros c' Hc.
    unfold caseInsensitiveMatch. apply jsstring_eqb_false. rewrite H0. exact Hc. }
  rewrite E1, E2.
  assert (E3 : fuzzyMatch lower [] c = true).
  { unfold fuzzyMatch. rewrite H0. destruct (lower (name c)); reflexivity. }
  cbn [List.find]. rewrite E3. reflexivity.
Qed.

Lemma matchCategoryId_empty_query_witness :
  matchCategoryId toLowerCase_ascii [] [cGroceries; cGas]
  = (Some 1, [fuzzyWarning [] cGroceries]).
Proof.
  apply (matchCategoryId_empty_query toLowerCase_ascii cGroceries [cGas]).
  - reflexivity.
  - repeat constructor; discriminate.
Defined.

(** X3.  The validator partitions its input: every suggestion is either
    kept or warned about, so the kept suggestions and the warnings
    together are as many as the suggestions; and with an empty category
    list every suggestion is dropped with its warning. *)
Theorem validate_partitions :
  forall (suggestions : list CategorySuggestion) (categories : list LMCategory),
    (length (fst (validateCategorySuggestions suggestions categories))
     + length (snd (validateCategorySuggestions suggestions categories))
     = length suggestions)%nat
    /\ validateCategorySuggestions suggestions []
       = ([], List.map invalidWarning suggestions).
Proof.
  intros suggestions categories. unfold validateCategorySuggestions. split.
  - generalize (validCategoryNames categories). intros valid.
    induction suggestions as [|s rest IH]; [reflexivity|].
    cbn [filter_warn]. destruct (filter_warn valid rest) as [kept warns].
    destruct (bool_decide (sname s ∈ valid)); simpl in *; lia.
  - unfold validCategoryNames. simpl.
    induction suggestions as [|s rest IH]; [reflexivity|].
    cbn [filter_warn]. rewrite IH.
    rewrite bool_decide_eq_false_2 by set_solver. reflexivity.
Qed.

Lemma initialSelection_listed (lower : jsstring -> jsstring)
    (categories : list LMCategory) (suggestions : list CategorySuggestion) (i : Z) :
  initialSelection lower categories suggestions = Some i ->
  i <> 0 /\ exists c, In c categories /\ id c = i.
Proof.
  unfold initialSelection, preId.
  destruct suggestions as [|s rest]; [discriminate|].
  destruct (negb (jsstring_eqb (sname s) [])); [|discriminate].
  pose proof (matchCategoryId_some lower (sname s) categories) as H.
  destruct (matchCategoryId lower (sname s) categories) as [p ws]. simpl in H.
  destruct (truthy_id p) eqn:T; [|discriminate].
  intros ->. split.
  - simpl in T. intros ->. discriminate.
  - destruct (H i eq_refl) as (c & Hin & Hid & _). exists c. split; assumption.
Qed.

(** X4.  The preselection of the manual selector.  When the gate
    preselects an id, that id is not zero and is the id of a category of
    the list, so the selector has an option for it. *)
Theorem initialSelection_is_listed :
  forall (lower : jsstring -> jsstring) (categories : list LMCategory)
         (suggestions : list CategorySuggestion) (i : Z),
    initialSelection lower categories suggestions = Some i ->
    i <> 0 /\ exists c, In c categories /\ id c = i.
Proof. exact initialSelection_listed. Qed.

Lemma initialSelection_is_listed_witness :
  2 <> 0 /\ exists c, In c [cGroceries; cGas] /\ id c = 2.
Proof.
  apply (initialSelection_is_listed toLowerCase_ascii [cGroceries; cGas]
           [sGasTransportation] 2).
  reflexivity.
Defined.

(* ================================================================== *)
(** * More on [trim] *)
(* ================================================================== *)

Lemma trimStart_split (s : jsstring) :
  exists pre, s = pre ++ trimStart s /\ Forall (fun c => isWhiteSpace c = true) pre.
Proof.
  induction s as [|c s IH]; [exists []; split; [reflexivity | constructor]|].
  cbn [trimStart]. destruct (isWhiteSpace c) eqn:E.
  - destruct IH as (pre & Hs & F). exists (c :: pre). split.
    + simpl. f_equal. exact Hs.
    + constructor; assumption.
  - exists []. split; [reflexivity | constructor].
Qed.

Lemma trimStart_head (s : jsstring) (c : N) (r : jsstring) :
  trimStart s = c :: r -> isWhiteSpace c = false.
Proof.
  induction s as [|d s IH]; [discriminate|].
  cbn [trimStart]. destruct (isWhiteSpace d) eqn:E; [exact IH|].
  intros [= <- _]. exact E.
Qed.

Lemma trimStart_cons (c : N) (s : jsstring) :
  isWhiteSpace c = false -> trimStart (c :: s) = c :: s.
Proof. intros H. cbn [trimStart]. rewrite H. reflexivity. Qed.

Lemma trimStart_idem (s : jsstring) : trimStart (trimStart s) = trimStart s.
Proof.
  destruct (trimStart s) as [|c r] eqn:E; [reflexivity|].
  apply trimStart_cons. exact (trimStart_head s c r E).
Qed.

Lemma trimStart_blank (s : jsstring) :
  Forall (fun c => isWhiteSpace c = true) s -> trimStart s = [].
Proof.
  induction 1 as [|c s Hc _ IH]; [reflexivity|].
  cbn [trimStart]. rewrite Hc. exact IH.
Qed.

Lemma trimEnd_split (s : jsstring) :
  exists post, s = trimEnd s ++ post /\ Forall (fun c => isWhiteSpace c = true) post.
Proof.
  unfold trimEnd. destruct (trimStart_split (rev s)) as (pre & Hs & F).
  exists (rev pre). split.
  - rewrite <- rev_app_distr, <- Hs, rev_involutive. reflexivity.
  - apply List.Forall_forall. intros c Hc. apply in_rev in Hc.
    rewrite List.Forall_forall in F. exact (F c Hc).
Qed.

Lemma trimEnd_idem (s : jsstring) : trimEnd (trimEnd s) = trimEnd s.
Proof. unfold trimEnd. rewrite rev_involutive, trimStart_idem. reflexivity. Qed.

Lemma trimEnd_snoc (s : jsstring) (c : N) :
  isWhiteSpace c = false -> trimEnd (s ++ [c]) = s ++ [c].
Proof.
  intros H. unfold trimEnd. rewrite rev_app_distr. cbn [rev app].
  rewrite trimStart_cons by exact H.
  change (c :: rev s) with ([c] ++ rev s).
  rewrite rev_app_distr, rev_involutive. reflexivity.
Qed.

Lemma trim_split (s : jsstring) : exists pre post, s = pre ++ trim s ++ post.
Proof.
  unfold trim. destruct (trimStart_split s) as (pre & Hs & _).
  destruct (trimEnd_split (trimStart s)) as (post & Hp & _).
  exists pre, post. rewrite <- Hp. exact Hs.
Qed.

Lemma In_trim (s : jsstring) (c : N) : In c (trim s) -> In c s.
Proof.
  intros H. destruct (trim_split s) as (pre & post & E). rewrite E.
  apply in_or_app. right. apply in_or_app. left. exact H.
Qed.

Lemma trim_idem (s : jsstring) : trim (trim s) = trim s.
Proof.
  unfold trim at 1.
  assert (E : trimStart (trim s) = trim s).
  { unfold trim. destruct (trimEnd_split (trimStart s)) as (post & Hp & _).
    destruct (trimEnd (trimStart s)) as [|c z] eqn:Ez; [reflexivity|].
    apply trimStart_cons. simpl in Hp. exact (trimStart_head s c _ Hp). }
  rewrite E. unfold trim. apply trimEnd_idem.
Qed.

Lemma trim_blank (s : jsstring) :
  Forall (fun c => isWhiteSpace c = true) s -> trim s = [].
Proof. intros H. unfold trim. rewrite (trimStart_blank s H). reflexivity. Qed.

(** A string that [trim] leaves as it is has no white space at
    either end. *)
Lemma trim_fixed_start (s : jsstring) : trim s = s -> trimStart s = s.
Proof.
  intros H. destruct (trimStart_split s) as (pre & Hs & _).
  destruct (trimEnd_split (trimStart s)) as (post & Hp & _).
  fold (trim s) in Hp. rewrite H in Hp.
  assert (L : length s = (length pre + length (trimStart s))%nat)
    by (rewrite Hs at 1; apply length_app).
  assert (L' : length (trimStart s) = (length s + length post)%nat)
    by (rewrite Hp at 1; apply length_app).
  destruct pre; [simpl in Hs; congruence | simpl in L; lia].
Qed.

Lemma trim_fixed_end (s : jsstring) : trim s = s -> trimEnd s = s.
Proof.
  intros H. pose proof (trim_fixed_start s H) as E.
  unfold trim in H. rewrite E in H. exact H.
Qed.

(* ================================================================== *)
(** * More on response parsing *)
(* ================================================================== *)

Lemma In_take {A} (n : nat) (l : list A) (x : A) : In x (take n l) -> In x l.
Proof. intros H. rewrite <- (firstn_skipn n l). apply in_or_app. left. exact H. Qed.

Lemma In_drop {A} (n : nat) (l : list A) (x : A) : In x (drop n l) -> In x l.
Proof. intros H. rewrite <- (firstn_skipn n l). apply in_or_app. right. exact H. Qed.

Lemma postProcess_shape (Number_toString : number -> jsstring) (parsed : JSValue)
    (result : list CategorySuggestion) :
  postProcess Number_toString parsed = Normal result ->
  (length result <= 3)%nat
  /\ Forall (fun s => sname s <> [] /\ trim (sname s) = sname s) result.
Proof.
  unfold postProcess. rewrite mapM_coerceSuggestion.
  destruct (forallb convertible (suggestionsField parsed));
    [|discriminate].
  simpl. intros [= <-]. split.
  - rewrite length_take. lia.
  - apply List.Forall_forall. intros s Hs.
    apply In_take, filter_In in Hs.
    destruct Hs as [Hin Hn]. split.
    + intros E. rewrite E in Hn. discriminate.
    + apply in_map_iff in Hin. destruct Hin as (entry & <- & _).
      cbn [coerced sname]. unfold coercedName. apply trim_idem.
Qed.

Lemma lazy_capture_prefix (s g : jsstring) :
  lazy_capture s = Some g -> exists r, s = g ++ r.
Proof.
  revert g. induction s as [|c s IH]; intros g; cbn [lazy_capture].
  - destruct (startsWith (trimStart []) fence); [|discriminate].
    intros [= <-]. exists []. reflexivity.
  - destruct (startsWith (trimStart (c :: s)) fence).
    + intros [= <-]. exists (c :: s). reflexivity.
    + destruct (lazy_capture s) as [g'|]; [|discriminate].
      simpl. intros [= <-]. destruct (IH g' eq_refl) as (r & ->).
      exists r. reflexivity.
Qed.

Lemma In_trimStart (s : jsstring) (c : N) : In c (trimStart s) -> In c s.
Proof.
  intros H. destruct (trimStart_split s) as (pre & E & _). rewrite E.
  apply in_or_app. right. exact H.
Qed.

Lemma fence_at_In (s g : jsstring) (c : N) :
  fence_at s = Some g -> In c g -> In c s.
Proof.
  unfold fence_at. cbv zeta. intros H Hc.
  apply lazy_capture_prefix in H. destruct H as (r & E).
  assert (Hin : In c (g ++ r)) by (apply in_or_app; left; exact Hc).
  rewrite <- E in Hin. apply In_trimStart in Hin.
  destruct (startsWith_json s); [apply In_drop in Hin|]; exact Hin.
Qed.

Lemma fence_exec_In (s g : jsstring) (c : N) :
  fence_exec s = Some g -> In c g -> In c s.
Proof.
  induction s as [|d s IH]; cbn [fence_exec].
  - destruct (startsWith [] fence) eqn:E; [discriminate E | discriminate].
  - destruct (startsWith (d :: s) fence).
    + destruct (fence_at (drop 3 (d :: s))) as [g'|] eqn:E.
      * intros [= <-] Hc. apply (fence_at_In _ _ c E) in Hc.
        apply In_drop in Hc. exact Hc.
      * intros H Hc. right. exact (IH H Hc).
    + intros H Hc. right. exact (IH H Hc).
Qed.

Lemma indexOf_absent (s : jsstring) (c : N) : ~ In c s -> indexOf s [c] = None.
Proof.
  induction s as [|d s IH]; intros H; cbn [indexOf startsWith].
  - reflexivity.
  - destruct (N.eqb_spec c d) as [->|Hne]; [exfalso; apply H; left; reflexivity|].
    cbn [andb]. rewrite IH; [reflexivity|]. intros Hin. apply H. right. exact Hin.
Qed.

Lemma In_skip_ws (s : jsstring) (c : N) : In c (JSON.skip_ws s) -> In c s.
Proof.
  induction s as [|d s IH]; cbn [JSON.skip_ws]; [tauto|].
  destruct (JSON.isJSONSpace d); [intros H; right; exact (IH H) | tauto].
Qed.

(** A text without an opening brace does not parse to an object. *)
Lemma parse_object_brace (text : jsstring) (members : list (jsstring * JSValue)) :
  JSON.parse text = Some (JObj members) -> In 123%N text.
Proof.
  unfold JSON.parse. cbn [JSON.value].
  destruct (JSON.skip_ws text) as [|c r] eqn:E; [discriminate|].
  destruct (N.eqb_spec c 123) as [->|Hne].
  - intros _. apply In_skip_ws. rewrite E. left. reflexivity.
  - destruct (c =? 91)%N.
    + destruct (JSON.eat 93 (JSON.skip_ws r)).
      * destruct (JSON.skip_ws j); discriminate.
      * destruct (JSON.elements (2 * length text) (JSON.skip_ws r)); try discriminate.
        destruct (JSON.skip_ws rest); discriminate.
    + destruct (c =? 34)%N.
      * destruct (JSON.string_body r) as [[str r']|]; [|discriminate].
        destruct (JSON.skip_ws r'); discriminate.
      * unfold JSON.scalar.
        destruct (startsWith (c :: r) (lit "true"));
          [destruct (JSON.skip_ws (drop 4 (c :: r))); discriminate|].
        destruct (startsWith (c :: r) (lit "false"));
          [destruct (JSON.skip_ws (drop 5 (c :: r))); discriminate|].
        destruct (startsWith (c :: r) (lit "null"));
          [destruct (JSON.skip_ws (drop 4 (c :: r))); discriminate|].
        destruct (JSON.numeral (c :: r)) as [[x r']|]; [|discriminate].
        destruct (JSON.skip_ws r'); discriminate.
Qed.

Lemma postProcess_not_object (Number_toString : number -> jsstring) (parsed : JSValue) :
  (forall members, parsed <> JObj members) ->
  postProcess Number_toString parsed = Normal [].
Proof.
  intros H. unfold postProcess, suggestionsField.
  destruct parsed; try reflexivity. exfalso. exact (H members eq_refl).
Qed.

(** X5.  A blank reply.  When the reply of the model consists of white
    space only (the empty reply included), the parsing returns no
    suggestion and does not throw. *)
Theorem parseSuggestions_blank :
  forall (Number_toString : number -> jsstring) (content : jsstring),
    Forall (fun c => isWhiteSpace c = true) content ->
    parseSuggestions Number_toString content = Normal [].
Proof.
  intros N content H. unfold parseSuggestions.
  rewrite (trim_blank content H). reflexivity.
Qed.

Lemma parseSuggestions_blank_witness :
  parseSuggestions shortestNumeral (lit "  " ++ newline) = Normal [].
Proof.
  apply (parseSuggestions_blank shortestNumeral (lit "  " ++ newline)).
  repeat constructor.
Defined.

(** X6.  The shape of what the parsing returns.  Whatever the reply,
    when [chooseCategoryOptions] returns suggestions there are at most
    three of them, and the name of each is a non-empty string with no
    white space at either end. *)
Theorem parseSuggestions_shape :
  forall (Number_toString : number -> jsstring) (content : jsstring)
         (result : list CategorySuggestion),
    parseSuggestions Number_toString content = Normal result ->
    (length result <= 3)%nat
    /\ Forall (fun s => sname s <> [] /\ trim (sname s) = sname s) result.
Proof.
  intros N content result. unfold parseSuggestions.
  assert (E0 : (length (@nil CategorySuggestion) <= 3)%nat
               /\ Forall (fun s => sname s <> [] /\ trim (sname s) = sname s)
                         (@nil CategorySuggestion))
    by (split; [simpl; lia | constructor]).
  destruct (jsstring_eqb (trim content) []); [intros [= <-]; exact E0|].
  set (jsonText := trim _).
  destruct (JSON.parse jsonText) as [parsed|]; [apply postProcess_shape|].
  destruct (indexOf jsonText (lit "{")) as [start|]; [|intros [= <-]; exact E0].
  destruct (lastIndexOf jsonText (lit "}")) as [end_|]; [|intros [= <-]; exact E0].
  destruct (start <? end_)%nat; [|intros [= <-]; exact E0].
  destruct (JSON.parse (slice jsonText start (end_ + 1))) as [parsed|]; [|discriminate].
  apply postProcess_shape.
Qed.

Lemma parseSuggestions_shape_witness :
  (length [mkSuggestion (lit "Groceries") None (Some (dec 9 (-1)))] <= 3)%nat
  /\ Forall (fun s => sname s <> [] /\ trim (sname s) = sname s)
            [mkSuggestion (lit "Groceries") None (Some (dec 9 (-1)))].
Proof.
  apply (parseSuggestions_shape shortestNumeral
           (litq "Here you go: {'suggestions':[{'name':' Groceries ','confidence':0.9}]}")).
  vm_compute. reflexivity.
Defined.

(** X7.  A reply without an opening brace.  Whatever else it holds (a
    fenced block, a JSON array, a number, prose), a reply in which no
    opening brace occurs yields the empty list of suggestions, and the
    parsing does not throw. *)
Theorem parseSuggestions_no_brace :
  forall (Number_toString : number -> jsstring) (content : jsstring),
    ~ In 123%N content ->
    parseSuggestions Number_toString content = Normal [].
Proof.
  intros N content H. unfold parseSuggestions.
  destruct (jsstring_eqb (trim content) []); [reflexivity|].
  set (jsonText := trim _).
  assert (Hj : ~ In 123%N jsonText).
  { subst jsonText. intros Hin. apply In_trim in Hin. apply H.
    destruct (fence_exec (trim content)) as [g|] eqn:E.
    - apply In_trim. exact (fence_exec_In _ _ _ E Hin).
    - apply In_trim. exact Hin. }
  destruct (JSON.parse jsonText) as [parsed|] eqn:E.
  - apply postProcess_not_object. intros members ->.
    exact (Hj (parse_object_brace _ _ E)).
  - change (lit "{") with [123%N]. rewrite (indexOf_absent _ _ Hj). reflexivity.
Qed.

Lemma parseSuggestions_no_brace_witness :
  parseSuggestions shortestNumeral (lit "[1, 2] is all I have") = Normal [].
Proof.
  apply (parseSuggestions_no_brace shortestNumeral (lit "[1, 2] is all I have")).
  vm_compute. intuition discriminate.
Defined.

Lemma startsWith_fence_head (c : N) (s : jsstring) :
  c <> 96%N -> startsWith (c :: s) fence = false.
Proof.
  intros H. change fence with [96%N; 96%N; 96%N]. cbn [startsWith].
  destruct (N.eqb_spec 96 c) as [E|_]; [congruence | reflexivity].
Qed.

Lemma fence_exec_no_backtick (s : jsstring) : ~ In 96%N s -> fence_exec s = None.
Proof.
  induction s as [|c s IH]; intros H; cbn [fence_exec].
  - reflexivity.
  - rewrite startsWith_fence_head by (intros ->; apply H; left; reflexivity).
    apply IH. intros Hin. apply H. right. exact Hin.
Qed.

(** The white space stripped from the front of [s ++ r] is stripped from
    [s] when [s] holds a character that is not white space. *)
Lemma trimStart_app (s r : jsstring) :
  trimStart s <> [] -> trimStart (s ++ r) = trimStart s ++ r.
Proof.
  induction s as [|c s IH]; intros H; [contradiction|].
  cbn [trimStart app] in *. destruct (isWhiteSpace c); [apply IH; exact H | reflexivity].
Qed.

Lemma trimStart_rev_tail (c : N) (s : jsstring) :
  s <> [] -> trimStart (rev (c :: s)) = rev (c :: s) -> trimStart (rev s) = rev s.
Proof.
  intros Hs H. cbn [rev] in H.
  destruct (rev s) as [|d t] eqn:E.
  - reflexivity.
  - cbn [app trimStart] in H. cbn [trimStart].
    destruct (isWhiteSpace d); [|reflexivity].
    exfalso. destruct (trimStart_split (t ++ [c])) as (pre & Hp & _).
    rewrite H in Hp. apply (f_equal (@length N)) in Hp.
    repeat (rewrite ?length_app in Hp; simpl in Hp). lia.
Qed.

(** A string with a last character that is not white space holds a
    character that is not white space. *)
Lemma trimStart_nonempty (s : jsstring) :
  s <> [] -> trimStart (rev s) = rev s -> trimStart s <> [].
Proof.
  intros Hs H E.
  destruct (trimStart_split s) as (pre & Hp & F). rewrite E, app_nil_r in Hp. subst pre.
  destruct (rev s) as [|d t] eqn:Er.
  - apply Hs. rewrite <- (rev_involutive s), Er. reflexivity.
  - pose proof (trimStart_head _ _ _ H) as Hd.
    rewrite List.Forall_forall in F.
    rewrite (F d) in Hd; [discriminate|].
    apply in_rev. rewrite Er. left. reflexivity.
Qed.

(** The lazy group before the closing fence is the whole of [J] when
    [J] has no backtick and does not end with white space. *)
Lemma lazy_capture_block (J : jsstring) :
  ~ In 96%N J -> trimStart (rev J) = rev J ->
  lazy_capture (J ++ newline ++ fence) = Some J.
Proof.
  induction J as [|c J IH]; intros Hb He.
  - reflexivity.
  - cbn [app lazy_capture].
    assert (Hne : trimStart (c :: J) <> [])
      by (apply trimStart_nonempty; [discriminate | exact He]).
    change (c :: J ++ newline ++ fence) with ((c :: J) ++ newline ++ fence).
    rewrite (trimStart_app (c :: J) _ Hne).
    destruct (trimStart (c :: J)) as [|d t] eqn:Et; [contradiction|].
    cbn [app]. rewrite startsWith_fence_head.
    + cbn [app]. rewrite IH; [reflexivity | |].
      * intros Hin. apply Hb. right. exact Hin.
      * destruct J as [|c' J']; [reflexivity|].
        apply (trimStart_rev_tail c); [discriminate | exact He].
    + intros ->. apply Hb. apply In_trimStart. rewrite Et. left. reflexivity.
Qed.

Lemma startsWith_json_newline (s : jsstring) : startsWith_json (newline ++ s) = false.
Proof. destruct s as [|a [|b [|c s]]]; reflexivity. Qed.

Lemma trimStart_newline (s : jsstring) : trimStart (newline ++ s) = trimStart s.
Proof. reflexivity. Qed.

Lemma fence_at_block (tag : jsstring) (c : N) (J' : jsstring) :
  tag = [] \/ tag = lit "json" ->
  isWhiteSpace c = false ->
  ~ In 96%N (c :: J') -> trimStart (rev (c :: J')) = rev (c :: J') ->
  fence_at (tag ++ newline ++ (c :: J') ++ newline ++ fence) = Some (c :: J').
Proof.
  intros Htag Hc Hb He. unfold fence_at.
  destruct Htag as [-> | ->].
  - cbn [app]. rewrite startsWith_json_newline. cbv zeta.
    rewrite trimStart_newline, trimStart_cons by exact Hc.
    exact (lazy_capture_block (c :: J') Hb He).
  - replace (startsWith_json _) with true by reflexivity. cbv zeta.
    change (drop 4 (lit "json" ++ newline ++ (c :: J') ++ newline ++ fence))
      with (newline ++ (c :: J') ++ newline ++ fence).
    rewrite trimStart_newline. cbn [app]. rewrite trimStart_cons by exact Hc.
    exact (lazy_capture_block (c :: J') Hb He).
Qed.

Lemma fence_exec_head (s g : jsstring) :
  startsWith s fence = true -> fence_at (drop 3 s) = Some g -> fence_exec s = Some g.
Proof.
  intros H E. destruct s as [|c s]; [discriminate H|].
  cbn [fence_exec]. rewrite H, E. reflexivity.
Qed.

Lemma trimEnd_fenced (s : jsstring) : trimEnd (s ++ fence) = s ++ fence.
Proof.
  change fence with ([96%N; 96%N] ++ [96%N]). rewrite app_assoc.
  apply trimEnd_snoc. reflexivity.
Qed.

(** X8.  A fenced reply parses as its content.  When the reply is a
    fenced block (an opening fence, the tag json or no tag, a line break,
    the text [J], a line break, the closing fence) and [J] is not empty,
    has no white space at either end and holds no backtick, the parsing
    gives exactly what it gives on [J] alone. *)
Theorem parseSuggestions_fenced :
  forall (Number_toString : number -> jsstring) (tag J : jsstring),
    tag = [] \/ tag = lit "json" ->
    J <> [] -> trim J = J -> ~ In 96%N J ->
    parseSuggestions Number_toString (fence ++ tag ++ newline ++ J ++ newline ++ fence)
    = parseSuggestions Number_toString J.
Proof.
  intros toStr tag J Htag Hne Ht Hb.
  pose proof (trim_fixed_start J Ht) as Hs.
  pose proof (trim_fixed_end J Ht) as He.
  assert (He' : trimStart (rev J) = rev J).
  { unfold trimEnd in He. apply (f_equal (@rev N)) in He.
    rewrite rev_involutive in He. exact He. }
  destruct J as [|c J']; [contradiction|].
  assert (Hc : isWhiteSpace c = false) by exact (trimStart_head _ _ _ Hs).
  set (J := c :: J') in *.
  set (raw := fence ++ tag ++ newline ++ J ++ newline ++ fence).
  assert (Hraw : trim raw = raw).
  { unfold trim. replace (trimStart raw) with raw by reflexivity.
    subst raw. rewrite !app_assoc. apply trimEnd_fenced. }
  assert (Hfence : fence_exec raw = Some J).
  { apply fence_exec_head; [reflexivity|].
    change (drop 3 raw) with (tag ++ newline ++ J ++ newline ++ fence).
    subst J. apply fence_at_block; assumption. }
  unfold parseSuggestions. fold raw. rewrite Hraw, Hfence, Ht.
  rewrite (fence_exec_no_backtick J Hb), Ht.
  replace (jsstring_eqb raw []) with false by reflexivity.
  replace (jsstring_eqb J []) with false by reflexivity.
  reflexivity.
Qed.

Lemma parseSuggestions_fenced_witness :
  parseSuggestions shortestNumeral
    (fence ++ lit "json" ++ newline ++ litq "{'suggestions':[{'name':'Groceries'}]}"
     ++ newline ++ fence)
  = parseSuggestions shortestNumeral (litq "{'suggestions':[{'name':'Groceries'}]}").
Proof.
  apply (parseSuggestions_fenced shortestNumeral (lit "json")
           (litq "{'suggestions':[{'name':'Groceries'}]}")).
  - right. reflexivity.
  - discriminate.
  - vm_compute. reflexivity.
  - vm_compute. intuition discriminate.
Defined.

(* ================================================================== *)
(** * More on effects: totality, results, commits *)
(* ================================================================== *)


Lemma total_liftCompletion_Normal {A} (a : A) : total (liftCompletion (Normal a)).
Proof. intros w. eexists _, _. reflexivity. Qed.

Lemma returns_ret {A} (R : A -> Prop) (a : A) : R a -> returns R (ret a).
Proof. intros H w b w' [= <- _]. exact H. Qed.

Lemma returns_throw {A} (R : A -> Prop) (e : exn) : returns R (throw e).
Proof. intros w b w' [=]. Qed.

Lemma returns_bind {A B} (R : B -> Prop) (m : Eff A) (k : A -> Eff B) :
  (forall a, returns R (k a)) -> returns R (ebind m k).
Proof.
  intros H w b w'. unfold ebind. destruct (m w) as [[a|e] w1]; [apply H | discriminate].
Qed.

Lemma returns_tryCatch {A} (R : A -> Prop) (m : Eff A) (h : exn -> Eff A) :
  returns R m -> (forall e, returns R (h e)) -> returns R (tryCatch m h).
Proof.
  intros Hm Hh w b w'. unfold tryCatch. destruct (m w) as [[a|e] w1] eqn:E.
  - intros [= <- <-]. exact (Hm w a w1 E).
  - apply Hh.
Qed.

Lemma appends_tryFinally {A} P (m : Eff A) (fin : Eff unit) :
  appends P m -> appends P fin -> appends P (tryFinally m fin).
Proof.
  intros Hm Hf w. destruct (Hm w) as (evs & E & F).
  unfold tryFinally. destruct (m w) as [r w']; simpl in E.
  destruct (Hf w') as (evs' & E' & F').
  exists (evs ++ evs'). split; [|apply Forall_app; split; assumption].
  destruct (fin w') as [[u|e] w'']; simpl in *; rewrite E', E, app_assoc; reflexivity.
Qed.

Lemma appends_resetCancelled P : appends P resetCancelled.
Proof. intros w. exists []. rewrite app_nil_r. split; [reflexivity | constructor]. Qed.

Lemma eventsSatisfy_silent {A X} (f : event -> list X) (m : Eff A) :
  appends (silent f) m -> eventsSatisfy f (fun l => l = []) m.
Proof.
  intros H w. destruct (H w) as (evs & E & F).
  exists evs. split; [exact E|]. clear E.
  induction F as [|e evs He _ IH]; [reflexivity|].
  cbn [flat_map]. rewrite He, IH. reflexivity.
Qed.

Lemma eventsSatisfy_weaken {A X} (f : event -> list X) (C C' : list X -> Prop)
    (m : Eff A) :
  eventsSatisfy f C m -> (forall l, C l -> C' l) -> eventsSatisfy f C' m.
Proof.
  intros H HC w. destruct (H w) as (evs & E & F). exists evs. split; [exact E | auto].
Qed.

Lemma eventsSatisfy_emit {X} (f : event -> list X) (e : event) :
  eventsSatisfy f (fun l => l = f e) (emit e).
Proof.
  intros w. exists [e]. split; [reflexivity|]. cbn [flat_map]. apply app_nil_r.
Qed.

Lemma eventsSatisfy_bind_returns {A B X} (f : event -> list X)
    (C1 C2 C : list X -> Prop) (R : A -> Prop) (m : Eff A) (k : A -> Eff B) :
  eventsSatisfy f C1 m -> returns R m ->
  (forall a, R a -> eventsSatisfy f C2 (k a)) ->
  (forall l1, C1 l1 -> C l1) ->
  (forall l1 l2, C1 l1 -> C2 l2 -> C (l1 ++ l2)) ->
  eventsSatisfy f C (ebind m k).
Proof.
  intros Hm HR Hk H1 H2 w. destruct (Hm w) as (evs & E & F).
  unfold ebind. destruct (m w) as [[a|e] w'] eqn:Em; simpl in E.
  - destruct (Hk a (HR w a w' Em) w') as (evs' & E' & F').
    exists (evs ++ evs'). rewrite E', E, app_assoc, flat_map_app.
    split; [reflexivity | auto].
  - exists evs. split; [exact E | auto].
Qed.

Lemma eventsSatisfy_bind {A B X} (f : event -> list X) (C1 C2 C : list X -> Prop)
    (m : Eff A) (k : A -> Eff B) :
  eventsSatisfy f C1 m ->
  (forall a, eventsSatisfy f C2 (k a)) ->
  (forall l1, C1 l1 -> C l1) ->
  (forall l1 l2, C1 l1 -> C2 l2 -> C (l1 ++ l2)) ->
  eventsSatisfy f C (ebind m k).
Proof.
  intros Hm Hk. apply (eventsSatisfy_bind_returns f C1 C2 C (fun _ => True)); auto.
  intros w a w' _. exact I.
Qed.

Lemma eventsSatisfy_tryCatch {A X} (f : event -> list X) (C1 C2 C : list X -> Prop)
    (m : Eff A) (h : exn -> Eff A) :
  eventsSatisfy f C1 m ->
  (forall e, eventsSatisfy f C2 (h e)) ->
  (forall l1, C1 l1 -> C l1) ->
  (forall l1 l2, C1 l1 -> C2 l2 -> C (l1 ++ l2)) ->
  eventsSatisfy f C (tryCatch m h).
Proof.
  intros Hm Hh H1 H2 w. destruct (Hm w) as (evs & E & F).
  unfold tryCatch. destruct (m w) as [[a|e] w']; simpl in E.
  - exists evs. split; [exact E | auto].
  - destruct (Hh e w') as (evs' & E' & F').
    exists (evs ++ evs'). rewrite E', E, app_assoc, flat_map_app.
    split; [reflexivity | auto].
Qed.

Lemma eventsSatisfy_tryFinally {A X} (f : event -> list X) (C1 C2 C : list X -> Prop)
    (m : Eff A) (fin : Eff unit) :
  eventsSatisfy f C1 m -> eventsSatisfy f C2 fin ->
  (forall l1 l2, C1 l1 -> C2 l2 -> C (l1 ++ l2)) ->
  eventsSatisfy f C (tryFinally m fin).
Proof.
  intros Hm Hf H2 w. destruct (Hm w) as (evs & E & F).
  unfold tryFinally. destruct (m w) as [r w']; simpl in E.
  destruct (Hf w') as (evs' & E' & F').
  exists (evs ++ evs'). split; [|rewrite flat_map_app; auto].
  destruct (fin w') as [[u|e] w'']; simpl in *; rewrite E', E, app_assoc; reflexivity.
Qed.

(** Composition with a part from which nothing is collected, before or
    after. *)
Lemma eventsSatisfy_after_silent {A B X} (f : event -> list X) (C : list X -> Prop)
    (m : Eff A) (k : A -> Eff B) :
  appends (silent f) m -> C [] -> (forall a, eventsSatisfy f C (k a)) ->
  eventsSatisfy f C (ebind m k).
Proof.
  intros Hm H0 Hk.
  apply (eventsSatisfy_bind f (fun l => l = []) C C);
    [apply eventsSatisfy_silent, Hm | exact Hk | intros l1 ->; exact H0
    | intros l1 l2 -> H; exact H].
Qed.

Lemma eventsSatisfy_before_silent {A B X} (f : event -> list X) (C : list X -> Prop)
    (m : Eff A) (k : A -> Eff B) :
  eventsSatisfy f C m -> (forall a, appends (silent f) (k a)) ->
  eventsSatisfy f C (ebind m k).
Proof.
  intros Hm Hk.
  apply (eventsSatisfy_bind f C (fun l => l = []) C);
    [exact Hm | intros a; apply eventsSatisfy_silent, Hk | auto
    | intros l1 l2 H ->; rewrite app_nil_r; exact H].
Qed.

Lemma eventsSatisfy_none {A X} (f : event -> list X) (C : list X -> Prop) (m : Eff A) :
  appends (silent f) m -> C [] -> eventsSatisfy f C m.
Proof.
  intros Hm H0. apply (eventsSatisfy_weaken f (fun l => l = []));
    [apply eventsSatisfy_silent, Hm | intros l ->; exact H0].
Qed.

Lemma silent_Warn {X} (f : event -> list X) (msgs : list jsstring) :
  (forall msg, f (Warn msg) = []) -> Forall (silent f) (List.map Warn msgs).
Proof. intros H. induction msgs; constructor; [apply H | assumption]. Qed.

(** Steps from which nothing is collected, [tac] showing it of each
    event. *)
Ltac silence_by tac :=
  repeat first
    [ apply appends_ret | apply appends_throw | apply appends_liftCompletion
    | apply appends_getCancelled | apply appends_resetCancelled
    | apply appends_emitAll, silent_Warn; intros; tac
    | apply appends_emit; tac
    | apply appends_setCancelled; tac
    | apply appends_whileSuspended; [tac | intros; tac | tac]
    | apply appends_bind; [|intros]
    | apply appends_tryCatch; [|intros]
    | apply appends_tryFinally
    | progress cbv zeta
    | match goal with
      | |- appends _ (if ?b then _ else _) => destruct b
      | |- appends _ (match ?x with _ => _ end) => destruct x
      end ].

Ltac silence := silence_by ltac:(exact eq_refl).

(* ================================================================== *)
(** * More on the orchestrator *)
(* ================================================================== *)

Section PipelineMore.

Variable toLowerCase : jsstring -> jsstring.
Variable Number_toString : number -> jsstring.
Variable buildTransactionPrompt : LMTransaction -> jsstring.
Variable transactionTitle : LMTransaction -> jsstring.
Variable engineMessage : exn -> jsstring.

Let gate := promptUserForCategory toLowerCase.
Let prompt :=
  promptUserForCategoryWithLoading toLowerCase Number_toString buildTransactionPrompt
    engineMessage.
Let body :=
  tryBlock toLowerCase Number_toString buildTransactionPrompt transactionTitle
    engineMessage.
Let iter :=
  iteration toLowerCase Number_toString buildTransactionPrompt transactionTitle
    engineMessage.
Let theLoop :=
  loop toLowerCase Number_toString buildTransactionPrompt transactionTitle
    engineMessage.
Let theRun :=
  run toLowerCase Number_toString buildTransactionPrompt transactionTitle
    engineMessage.




Lemma gate_returns t categories suggestions reply :
  returns (approved categories reply) (gate t categories suggestions reply).
Proof.
  unfold gate, promptUserForCategory.
  destruct (suggestionRows toLowerCase categories suggestions) as [rows rowWarns].
  destruct (preId toLowerCase categories suggestions) as [p preWarns].
  do 3 (apply returns_bind; intros _).
  destruct (gate_action reply) as [sel| |] eqn:Ea.
  - destruct sel as [|v].
    + destruct (initialSelection toLowerCase categories suggestions) as [chosen|] eqn:Ei.
      * apply returns_bind. intros _. apply returns_ret. right.
        exists KeepSelection, chosen. split; [exact Ea|]. split; [reflexivity|].
        right. split; [reflexivity|].
        exact (proj2 (initialSelection_listed _ _ _ _ Ei)).
      * apply returns_ret. left. reflexivity.
    + destruct v as [chosen|].
      * apply returns_bind. intros _. apply returns_ret. right.
        exists (Choose (Some chosen)), chosen. split; [exact Ea|]. split; [reflexivity|].
        left. reflexivity.
      * apply returns_ret. left. reflexivity.
  - apply returns_ret. left. reflexivity.
  - apply returns_bind. intros _. apply returns_ret. left. reflexivity.
Qed.

Lemma prompt_returns t categories systemPrompt script :
  returns (approved categories (onGate script)) (prompt t categories systemPrompt script).
Proof.
  unfold prompt, promptUserForCategoryWithLoading.
  do 2 (apply returns_bind; intros _).
  apply returns_tryCatch.
  - apply returns_bind. intros rawSuggestions. apply returns_bind. intros [|].
    + do 2 (apply returns_bind; intros _). apply returns_ret. left. reflexivity.
    + destruct (validateCategorySuggestions rawSuggestions categories) as [s ws].
      do 2 (apply returns_bind; intros _). apply gate_returns.
  - intros e. do 2 (apply returns_bind; intros _). apply gate_returns.
Qed.

Lemma prompt_commits_nothing t categories systemPrompt script :
  appends (silent commitOf) (prompt t categories systemPrompt script).
Proof.
  unfold prompt, promptUserForCategoryWithLoading, chooseCategoryOptions,
    promptUserForCategory.
  silence.
Qed.

Lemma iteration_commits t categories systemPrompt script total_ done :
  eventsSatisfy commitOf (committed t categories (onGate script))
    (iter t categories systemPrompt script total_ done).
Proof.
  assert (C0 : committed t categories (onGate script) []) by (left; reflexivity).
  unfold iter, iteration.
  apply eventsSatisfy_after_silent; [silence | exact C0 | intros [|]].
  { apply eventsSatisfy_none; [silence | exact C0]. }
  apply eventsSatisfy_before_silent; [|intros [f d]; silence].
  apply (eventsSatisfy_tryCatch commitOf (committed t categories (onGate script))
           (fun l => l = []) _);
    [ | intros e; apply eventsSatisfy_silent; silence | auto
      | intros l1 l2 H ->; rewrite app_nil_r; exact H].
  unfold tryBlock. cbv zeta.
  apply eventsSatisfy_after_silent; [silence | exact C0 | intros _].
  apply eventsSatisfy_after_silent; [silence | exact C0 | intros [|]].
  { apply eventsSatisfy_none; [silence | exact C0]. }
  apply (eventsSatisfy_bind_returns commitOf (fun l => l = [])
           (committed t categories (onGate script)) _
           (approved categories (onGate script)));
    [ apply eventsSatisfy_silent, prompt_commits_nothing | apply prompt_returns |
    | intros l1 ->; exact C0 | intros l1 l2 -> H; exact H ].
  intros chosenId HR.
  apply eventsSatisfy_after_silent; [silence | exact C0 | intros [|]].
  { apply eventsSatisfy_none; [silence | exact C0]. }
  destruct chosenId as [c|]; cbn [truthy_id negb];
    [|apply eventsSatisfy_none; [silence | exact C0]].
  destruct (Z.eqb_spec c 0) as [->|Hc]; cbn [negb];
    [apply eventsSatisfy_none; [silence | exact C0]|].
  cbn [default].
  apply (eventsSatisfy_weaken commitOf (fun l => l = [(t_id t, c)]));
    [|intros l ->; right; exists c; auto].
  apply eventsSatisfy_before_silent; [|intros; silence].
  apply (eventsSatisfy_tryFinally commitOf (fun l => l = [(t_id t, c)])
           (fun l => l = []) _);
    [ | apply eventsSatisfy_silent; silence | intros l1 l2 -> ->; reflexivity].
  apply eventsSatisfy_before_silent; [|intros; silence].
  unfold updateTransactionCategory.
  apply eventsSatisfy_before_silent;
    [apply (eventsSatisfy_emit commitOf (Commit (t_id t) c)) | intros; silence].
Qed.

Lemma iteration_commits_one t categories systemPrompt script total_ done :
  eventsSatisfy commitOf (oneFor fst (fun p => snd p <> 0) t)
    (iter t categories systemPrompt script total_ done).
Proof.
  apply (eventsSatisfy_weaken commitOf (committed t categories (onGate script)));
    [apply iteration_commits|].
  intros l [-> | (c & -> & Hc & _)]; [left; reflexivity | right].
  exists (t_id t, c). auto.
Qed.

Lemma iteration_invokes_one t categories systemPrompt script total_ done :
  eventsSatisfy invokeOf (oneFor (fun tx => tx) (fun _ => True) t)
    (iter t categories systemPrompt script total_ done).
Proof.
  set (C := oneFor (fun tx : Z => tx) (fun _ => True) t).
  assert (C0 : C []) by (left; reflexivity).
  unfold iter, iteration.
  apply eventsSatisfy_after_silent; [silence | exact C0 | intros [|]].
  { apply eventsSatisfy_none; [silence | exact C0]. }
  apply eventsSatisfy_before_silent; [|intros [f d]; silence].
  apply (eventsSatisfy_tryCatch invokeOf C (fun l => l = []) _);
    [ | intros e; apply eventsSatisfy_silent; silence | auto
      | intros l1 l2 H ->; rewrite app_nil_r; exact H].
  unfold tryBlock. cbv zeta.
  apply eventsSatisfy_after_silent; [silence | exact C0 | intros _].
  apply eventsSatisfy_after_silent; [silence | exact C0 | intros [|]].
  { apply eventsSatisfy_none; [silence | exact C0]. }
  apply eventsSatisfy_before_silent;
    [|intros; unfold updateTransactionCategory; silence].
  unfold promptUserForCategoryWithLoading.
  apply eventsSatisfy_after_silent; [silence | exact C0 | intros _].
  apply eventsSatisfy_after_silent; [silence | exact C0 | intros _].
  apply (eventsSatisfy_tryCatch invokeOf C (fun l => l = []) _);
    [ | intros e; apply eventsSatisfy_silent; unfold promptUserForCategory; silence
      | auto | intros l1 l2 H ->; rewrite app_nil_r; exact H].
  apply eventsSatisfy_before_silent; [|intros; unfold promptUserForCategory; silence].
  unfold chooseCategoryOptions.
  apply eventsSatisfy_after_silent; [silence | exact C0 | intros [|]].
  { apply eventsSatisfy_none; [silence | exact C0]. }
  apply eventsSatisfy_before_silent; [|intros; silence].
  apply (eventsSatisfy_weaken invokeOf (fun l => l = [t_id t]));
    [apply (eventsSatisfy_emit invokeOf (Invoke (t_id t) _ _))|].
  intros l ->. right. exists (t_id t). auto.
Qed.

Lemma fetch_returns {A} (reply : fetchReply A) :
  returns (fun a => fetch_outcome reply = Normal a) (fetch reply).
Proof.
  unfold fetch. apply returns_bind. intros _ w a w'. unfold liftCompletion.
  intros [= -> _]. reflexivity.
Qed.

Section Projection.

Context {X : Type}.
Variable f : event -> list X.
Variable key : X -> Z.
Variable P : X -> Prop.

(** [f] collects from calls of the model and of the ledger only. *)
Hypothesis f_calls : forall e, noCall e -> f e = [].

Hypothesis iteration_one :
  forall t categories systemPrompt script total_ done,
    eventsSatisfy f (oneFor key P t) (iter t categories systemPrompt script total_ done).

Lemma inLedgerOrder_nil txs : inLedgerOrder key P txs [].
Proof. split; [apply sublist_nil_l | constructor]. Qed.

Lemma loop_inLedgerOrder txs :
  forall i categories systemPrompt scripts total_ done,
    eventsSatisfy f (inLedgerOrder key P txs)
      (theLoop txs i categories systemPrompt scripts total_ done).
Proof.
  induction txs as [|t txs IH]; intros i categories systemPrompt scripts total_ done.
  - apply eventsSatisfy_none; [apply appends_ret | apply inLedgerOrder_nil].
  - unfold theLoop. cbn [loop].
    apply (eventsSatisfy_bind f (oneFor key P t) (inLedgerOrder key P txs) _).
    + apply iteration_one.
    + intros [[|] d]; [apply IH|].
      apply eventsSatisfy_none; [apply appends_ret | apply inLedgerOrder_nil].
    + intros l1 [-> | (x & -> & Hk & Hx)]; [apply inLedgerOrder_nil|].
      split; [cbn [List.map]; rewrite Hk; apply sublist_skip, sublist_nil_l
             | repeat constructor; exact Hx].
    + intros l1 l2 [-> | (x & -> & Hk & Hx)] [Hs Hn].
      * split; [apply sublist_cons; exact Hs | exact Hn].
      * split; [cbn [app List.map]; rewrite Hk; apply sublist_skip; exact Hs
               | constructor; [exact Hx | exact Hn]].
Qed.

Lemma run_inLedgerOrder lmToken apiKey model start end_ env :
  eventsSatisfy f
    (inLedgerOrder key P (getTransactions_filter (fetchedTransactions env)))
    (theRun lmToken apiKey model start end_ env).
Proof.
  pose proof inLedgerOrder_nil as C0.
  unfold theRun, run.
  apply eventsSatisfy_after_silent;
    [silence_by ltac:(unfold silent; apply f_calls; exact I) | apply C0 | intros _].
  apply eventsSatisfy_after_silent;
    [silence_by ltac:(unfold silent; apply f_calls; exact I) | apply C0 | intros _].
  destruct (jsstring_eqb (trim lmToken) []);
    [apply eventsSatisfy_none; [silence_by ltac:(unfold silent; apply f_calls; exact I) | apply C0]|].
  destruct (jsstring_eqb (trim apiKey) []);
    [apply eventsSatisfy_none; [silence_by ltac:(unfold silent; apply f_calls; exact I) | apply C0]|].
  destruct (jsstring_eqb model []);
    [apply eventsSatisfy_none; [silence_by ltac:(unfold silent; apply f_calls; exact I) | apply C0]|].
  apply (eventsSatisfy_tryCatch f
           (inLedgerOrder key P (getTransactions_filter (fetchedTransactions env)))
           (fun l => l = []) _);
    [ | intros e; apply eventsSatisfy_silent; silence_by ltac:(unfold silent; apply f_calls; exact I)
      | auto | intros l1 l2 H ->; rewrite app_nil_r; exact H].
  apply eventsSatisfy_after_silent;
    [silence_by ltac:(unfold silent; apply f_calls; exact I) | apply C0 | intros _].
  apply eventsSatisfy_after_silent;
    [unfold fetch; silence_by ltac:(unfold silent; apply f_calls; exact I) | apply C0 | intros data].
  destruct (getCategories_filter data) as [|c0 cats];
    [apply eventsSatisfy_none; [silence_by ltac:(unfold silent; apply f_calls; exact I) | apply C0]|].
  apply eventsSatisfy_after_silent;
    [silence_by ltac:(unfold silent; apply f_calls; exact I) | apply C0 | intros _].
  apply eventsSatisfy_after_silent;
    [silence_by ltac:(unfold silent; apply f_calls; exact I) | apply C0 | intros _].
  apply (eventsSatisfy_bind_returns f (fun l => l = [])
           (inLedgerOrder key P (getTransactions_filter (fetchedTransactions env))) _
           (fun a => fetch_outcome (transactionsReply env) = Normal a));
    [ apply eventsSatisfy_silent; unfold fetch; silence_by ltac:(unfold silent; apply f_calls; exact I)
    | apply fetch_returns |
    | intros l1 ->; apply C0 | intros l1 l2 -> H; exact H ].
  intros fetched Hf.
  assert (E : fetchedTransactions env = fetched)
    by (unfold fetchedTransactions; rewrite Hf; reflexivity).
  rewrite E.
  destruct (getTransactions_filter fetched) as [|t0 txs];
    [apply eventsSatisfy_none; [silence_by ltac:(unfold silent; apply f_calls; exact I) | apply C0]|].
  apply eventsSatisfy_after_silent;
    [silence_by ltac:(unfold silent; apply f_calls; exact I) | apply C0 | intros _].
  apply eventsSatisfy_before_silent;
    [apply loop_inLedgerOrder | intros; silence_by ltac:(unfold silent; apply f_calls; exact I)].
Qed.

End Projection.

Lemma commitOf_calls (e : event) : noCall e -> commitOf e = [].
Proof. destruct e; try reflexivity; contradiction. Qed.

Lemma invokeOf_calls (e : event) : noCall e -> invokeOf e = [].
Proof. destruct e; try reflexivity; contradiction. Qed.


End PipelineMore.

Lemma getTransactions_filter_uncategorised (fetched : list LMTransaction) :
  Forall (fun t => t_category_id t = None /\ t_is_group t <> Some true)
         (getTransactions_filter fetched).
Proof.
  apply List.Forall_forall. intros t Ht. apply filter_In in Ht.
  destruct Ht as [_ Ht]. apply andb_true_iff in Ht. destruct Ht as [Hg Hc].
  split.
  - destruct (t_category_id t); [discriminate | reflexivity].
  - intros E. rewrite E in Hg. discriminate.
Qed.


(** X10.  No commit without approval.  The processing of one transaction
    [t] issues no commit, or exactly one: then the user pressed Save, the
    commit is to [t], the category committed is not 0, and it is the
    option the user picked in the selector or, the selector left as it
    was, the preselected category, which is a category of the list. *)
Theorem iteration_commits_what_was_approved :
  forall (toLowerCase : jsstring -> jsstring) (Number_toString : number -> jsstring)
         (buildTransactionPrompt transactionTitle : LMTransaction -> jsstring)
         (engineMessage : exn -> jsstring)
         (t : LMTransaction) (categories : list LMCategory) (systemPrompt : jsstring)
         (script : txScript) (total_ done : Z) (w : world),
  exists evs,
    trace (snd (iteration toLowerCase Number_toString buildTransactionPrompt
                  transactionTitle engineMessage t categories systemPrompt script
                  total_ done w))
    = trace w ++ evs
    /\ (commits evs = []
        \/ exists sel c,
             gate_action (onGate script) = PressSave sel
             /\ c <> 0
             /\ commits evs = [(t_id t, c)]
             /\ (sel = Choose (Some c)
                 \/ (sel = KeepSelection /\ exists cat, In cat categories /\ id cat = c))).
Proof.
  intros toLowerCase Number_toString buildTransactionPrompt transactionTitle engineMessage
         t categories systemPrompt script total_ done w.
  destruct (iteration_commits toLowerCase Number_toString buildTransactionPrompt
              transactionTitle engineMessage t categories systemPrompt script
              total_ done w) as (evs & E & [H | (c & H & Hc & Ha)]).
  - exists evs. split; [exact E | left; exact H].
  - exists evs. split; [exact E | right].
    destruct Ha as [Ha | (sel & c' & Hg & [= <-] & Hs)]; [discriminate|].
    exists sel, c. auto.
Qed.

(** X11.  What a run writes.  The commits of a run, in the order they
    are issued, go to transactions the ledger returned as uncategorised
    and not a group, in the order the ledger returned them and at most
    once each; and no commit is of the category id 0. *)
Theorem run_commits_in_order :
  forall (toLowerCase : jsstring -> jsstring) (Number_toString : number -> jsstring)
         (buildTransactionPrompt transactionTitle : LMTransaction -> jsstring)
         (engineMessage : exn -> jsstring)
         (lmToken apiKey model start end_ : jsstring) (env : runEnv) (w : world),
  exists evs,
    trace (snd (run toLowerCase Number_toString buildTransactionPrompt transactionTitle
                  engineMessage lmToken apiKey model start end_ env w))
    = trace w ++ evs
    /\ sublist (List.map fst (commits evs))
               (List.map t_id (getTransactions_filter (fetchedTransactions env)))
    /\ Forall (fun p => snd p <> 0) (commits evs)
    /\ Forall (fun t => t_category_id t = None /\ t_is_group t <> Some true)
              (getTransactions_filter (fetchedTransactions env)).
Proof.
  intros toLowerCase Number_toString buildTransactionPrompt transactionTitle engineMessage
         lmToken apiKey model start end_ env w.
  destruct (run_inLedgerOrder toLowerCase Number_toString buildTransactionPrompt
              transactionTitle engineMessage commitOf fst (fun p => snd p <> 0)
              commitOf_calls
              (iteration_commits_one toLowerCase Number_toString buildTransactionPrompt
                 transactionTitle engineMessage)
              lmToken apiKey model start end_ env w)
    as (evs & E & Hs & Hn).
  exists evs. split; [exact E|]. split; [exact Hs|]. split; [exact Hn|].
  apply getTransactions_filter_uncategorised.
Qed.

(** X27.  The model is asked once.  In a run the model is invoked at
    most once for each transaction, never again after a failure, for
    transactions the ledger returned as uncategorised and not a group
    only, and in the order the ledger returned them. *)
Theorem run_invokes_in_order :
  forall (toLowerCase : jsstring -> jsstring) (Number_toString : number -> jsstring)
         (buildTransactionPrompt transactionTitle : LMTransaction -> jsstring)
         (engineMessage : exn -> jsstring)
         (lmToken apiKey model start end_ : jsstring) (env : runEnv) (w : world),
  exists evs,
    trace (snd (run toLowerCase Number_toString buildTransactionPrompt transactionTitle
                  engineMessage lmToken apiKey model start end_ env w))
    = trace w ++ evs
    /\ sublist (invoked evs)
               (List.map t_id (getTransactions_filter (fetchedTransactions env))).
Proof.
  intros toLowerCase Number_toString buildTransactionPrompt transactionTitle engineMessage
         lmToken apiKey model start end_ env w.
  destruct (run_inLedgerOrder toLowerCase Number_toString buildTransactionPrompt
              transactionTitle engineMessage invokeOf (fun tx => tx) (fun _ => True)
              invokeOf_calls
              (iteration_invokes_one toLowerCase Number_toString buildTransactionPrompt
                 transactionTitle engineMessage)
              lmToken apiKey model start end_ env w)
    as (evs & E & Hs & _).
  exists evs. split; [exact E|]. rewrite List.map_id in Hs. exact Hs.
Qed.

(** X12.  A commit that fails.  When the user has approved the category
    [c] for [t], no cancellation is pending, and the ledger refuses the
    commit with the exception [e], the modal is closed, the failure is
    logged as an error naming the transaction, the counter advances by
    exactly one with one update of the bar, and the loop goes on to the
    next transaction. *)
Theorem iteration_commit_failure_continues :
  forall (toLowerCase : jsstring -> jsstring) (Number_toString : number -> jsstring)
         (buildTransactionPrompt transactionTitle : LMTransaction -> jsstring)
         (engineMessage : exn -> jsstring)
         (t : LMTransaction) (categories : list LMCategory) (systemPrompt : jsstring)
         (script : txScript) (total_ done : Z) (w w2 : world) (c : Z) (e : exn),
    cancelled w = false ->
    promptUserForCategoryWithLoading toLowerCase Number_toString buildTransactionPrompt
      engineMessage t categories systemPrompt script
      (mkWorld false
         (trace w ++ [Log (lit "Suggesting category for: " ++ transactionTitle t) cls_info]))
    = (Normal (Some c), w2) ->
    cancelled w2 = false ->
    c <> 0 ->
    commit_cancelClicked (onCommit script) = false ->
    commit_outcome (onCommit script) = Throw e ->
    iteration toLowerCase Number_toString buildTransactionPrompt transactionTitle
      engineMessage t categories systemPrompt script total_ done w
    = (Normal (Continue, done + 1),
       mkWorld false
         (trace w2 ++ [Commit (t_id t) c; HideLoading; CloseModal;
                       Log (lit "Error on " ++ transactionTitle t ++ lit ": "
                            ++ errorMessage engineMessage e) cls_err;
                       SetBar (progress (done + 1) total_)])).
Proof.
  intros lower N btp title msg t categories systemPrompt script total_ done w w2 c e
         H E Hc Hn Hk Ho.
  unfold iteration. unfold ebind at 1. unfold getCancelled at 1. rewrite H.
  unfold ebind at 1. unfold tryCatch. unfold tryBlock. cbv zeta.
  unfold ebind at 1. unfold emit at 1. rewrite H.
  unfold ebind at 1. unfold getCancelled at 1. cbn [cancelled].
  unfold ebind at 1. rewrite E.
  assert (T : truthy_id (Some c) = true)
    by (simpl; destruct (Z.eqb_spec c 0); [contradiction | reflexivity]).
  unfold updateTransactionCategory, tryFinally, whileSuspended, liftCompletion,
    ebind, getCancelled, emit, ret.
  rewrite Hc, T, Hk, Ho. cbn [negb cancelled trace default].
  rewrite Hc, <- !app_assoc. reflexivity.
Qed.

Lemma iteration_commit_failure_continues_witness :
  iteration toLowerCase_ascii shortestNumeral samplePrompt sampleTitle sampleMessage
    (sampleTransaction 1) [cGroceries; cGas] (buildSystemPrompt [cGroceries; cGas])
    failingCommitScript 2 0 (mkWorld false [])
  = (Normal (Continue, 0 + 1),
     mkWorld false
       (trace (snd (promptUserForCategoryWithLoading toLowerCase_ascii shortestNumeral
                      samplePrompt sampleMessage (sampleTransaction 1) [cGroceries; cGas]
                      (buildSystemPrompt [cGroceries; cGas]) failingCommitScript
                      (mkWorld false
                         ([] ++ [Log (lit "Suggesting category for: "
                                      ++ sampleTitle (sampleTransaction 1)) cls_info]))))
        ++ [Commit 1 1; HideLoading; CloseModal;
            Log (lit "Error on " ++ sampleTitle (sampleTransaction 1) ++ lit ": "
                 ++ errorMessage sampleMessage (Error (lit "Lunch Money HTTP 500: oops")))
                cls_err;
            SetBar (progress (0 + 1) 2)])).
Proof.
  apply (iteration_commit_failure_continues toLowerCase_ascii shortestNumeral
           samplePrompt sampleTitle sampleMessage (sampleTransaction 1)
           [cGroceries; cGas] (buildSystemPrompt [cGroceries; cGas])
           failingCommitScript 2 0 (mkWorld false [])).
  - reflexivity.
  - vm_compute. reflexivity.
  - vm_compute. reflexivity.
  - discriminate.
  - reflexivity.
  - reflexivity.
Defined.

(** X13.  Missing configuration.  When the token or the key is blank, or
    no model is selected, [run] resets the bar, logs one error line and
    returns; it fetches nothing, asks nothing and commits nothing,
    whatever the ledger, the model and the user would have done. *)
Theorem run_missing_configuration :
  forall (toLowerCase : jsstring -> jsstring) (Number_toString : number -> jsstring)
         (buildTransactionPrompt transactionTitle : LMTransaction -> jsstring)
         (engineMessage : exn -> jsstring)
         (lmToken apiKey model start end_ : jsstring) (env : runEnv) (w : world),
    jsstring_eqb (trim lmToken) [] || jsstring_eqb (trim apiKey) []
      || jsstring_eqb model [] = true ->
    exists msg,
      run toLowerCase Number_toString buildTransactionPrompt transactionTitle
        engineMessage lmToken apiKey model start end_ env w
      = (Normal None, mkWorld false (trace w ++ [SetBar (of_Z 0); Log msg cls_err])).
Proof.
  intros lower N btp title emsg lmToken apiKey model start end_ env w H.
  unfold run, ebind, emit, resetCancelled, ret. cbn [trace cancelled].
  destruct (jsstring_eqb (trim lmToken) []);
    [eexists; cbv beta; cbn [trace cancelled]; rewrite <- app_assoc; reflexivity|].
  destruct (jsstring_eqb (trim apiKey) []);
    [eexists; cbv beta; cbn [trace cancelled]; rewrite <- app_assoc; reflexivity|].
  destruct (jsstring_eqb model []); [|discriminate H].
  eexists. cbv beta. cbn [trace cancelled]. rewrite <- app_assoc. reflexivity.
Qed.

Lemma run_missing_configuration_witness :
  exists msg,
    run toLowerCase_ascii shortestNumeral samplePrompt sampleTitle sampleMessage
      (lit "token") (lit "  ") (lit "model") (lit "2024-01-01") (lit "2024-02-29")
      (sampleEnv 3 (fun _ => saveScript)) (mkWorld false [])
    = (Normal None, mkWorld false ([] ++ [SetBar (of_Z 0); Log msg cls_err])).
Proof.
  apply (run_missing_configuration toLowerCase_ascii shortestNumeral samplePrompt
           sampleTitle sampleMessage (lit "token") (lit "  ") (lit "model")
           (lit "2024-01-01") (lit "2024-02-29") (sampleEnv 3 (fun _ => saveScript))
           (mkWorld false [])).
  vm_compute. reflexivity.
Defined.

(* ================================================================== *)
(** * The helpers of the page *)
(* ================================================================== *)

Lemma esc_cons (c : N) (s : jsstring) :
  esc (Some (c :: s)) = entity c ++ esc (Some s).
Proof. reflexivity. Qed.

Lemma entity_plain (c : N) : isMarkup c = false -> entity c = [c].
Proof.
  unfold isMarkup, entity. intros H.
  repeat (apply orb_false_iff in H; destruct H as [H ?]).
  repeat match goal with E : (_ =? _)%N = false |- _ => rewrite E; clear E end.
  reflexivity.
Qed.

Lemma entity_markup (c : N) :
  isMarkup c = true ->
  exists tail, In tail entityTails /\ entity c = 38%N :: tail.
Proof.
  unfold isMarkup, entity, entityTails. intros H.
  destruct (c =? 38)%N; [exists (lit "amp;"); split; [simpl; tauto | reflexivity]|].
  destruct (c =? 60)%N; [exists (lit "lt;"); split; [simpl; tauto | reflexivity]|].
  destruct (c =? 62)%N; [exists (lit "gt;"); split; [simpl; tauto | reflexivity]|].
  destruct (c =? 34)%N; [exists (lit "quot;"); split; [simpl; tauto | reflexivity]|].
  destruct (c =? 39)%N; [exists (lit "#39;"); split; [simpl; tauto | reflexivity]|].
  discriminate.
Qed.

Lemma isMarkup_38 (c : N) : isMarkup c = false -> c <> 38%N.
Proof. intros H ->. discriminate. Qed.

(** The tail of an entity holds no character that [esc] replaces. *)
Lemma entityTails_plain (tail : jsstring) (c : N) :
  In tail entityTails -> In c tail -> isMarkup c = false.
Proof.
  unfold entityTails. simpl.
  intros [<-|[<-|[<-|[<-|[<-|[]]]]]] H; simpl in H;
    repeat (destruct H as [<-|H]; [reflexivity|]); contradiction.
Qed.

Lemma esc_chars (s : jsstring) (c : N) :
  In c (esc (Some s)) -> c = 38%N \/ isMarkup c = false.
Proof.
  induction s as [|d s IH]; [contradiction|].
  rewrite esc_cons. intros H. apply in_app_or in H. destruct H as [H|H]; [|exact (IH H)].
  destruct (isMarkup d) eqn:E.
  - destruct (entity_markup d E) as (tail & Ht & Ee). rewrite Ee in H.
    destruct H as [<-|H]; [left; reflexivity | right; exact (entityTails_plain _ _ Ht H)].
  - rewrite (entity_plain d E) in H. destruct H as [<-|[]]. right. exact E.
Qed.

(** [esc] leaves a string as it is exactly when the string holds none of
    the five characters. *)
Lemma esc_length (s : jsstring) : (length s <= length (esc (Some s)))%nat.
Proof.
  induction s as [|c s IH]; [reflexivity|].
  rewrite esc_cons, length_app. simpl.
  destruct (isMarkup c) eqn:E.
  - destruct (entity_markup c E) as (tail & _ & ->). simpl. lia.
  - rewrite (entity_plain c E). simpl. lia.
Qed.

Lemma esc_fixed (s : jsstring) :
  esc (Some s) = s <-> Forall (fun c => isMarkup c = false) s.
Proof.
  induction s as [|c s IH].
  - split; [constructor | reflexivity].
  - rewrite esc_cons. destruct (isMarkup c) eqn:E.
    + split.
      * destruct (entity_markup c E) as (tail & Ht & Ee). rewrite Ee. intros H.
        apply (f_equal (@length N)) in H. simpl in H. rewrite length_app in H.
        pose proof (esc_length s).
        assert (0 < length tail)%nat; [|lia].
        revert Ht. unfold entityTails. simpl.
        intros [<-|[<-|[<-|[<-|[<-|[]]]]]]; simpl; lia.
      * intros H. inversion H; congruence.
    + rewrite (entity_plain c E). simpl. split.
      * intros [= H]. constructor; [exact E | apply IH, H].
      * intros H. inversion H; subst. f_equal. apply IH. assumption.
Qed.

(** X14.  [esc] makes text safe for markup.  The result never holds a
    less-than sign, a greater-than sign, a double quote or an
    apostrophe, and every ampersand of the result starts one of the five
    entities, whose remaining characters follow it at once. *)
Theorem esc_output_is_safe :
  forall (s : option jsstring),
    (forall c, In c (esc s) ->
               c <> 60%N /\ c <> 62%N /\ c <> 34%N /\ c <> 39%N)
    /\ (forall u v, esc s = u ++ 38%N :: v ->
                    exists tail, In tail entityTails /\ startsWith v tail = true).
Proof.
  intros s. split.
  - intros c H.
    assert (H' : c = 38%N \/ isMarkup c = false).
    { destruct s as [s|]; [exact (esc_chars s c H) | contradiction]. }
    destruct H' as [->|H']; [repeat split; discriminate|].
    repeat split; intros ->; discriminate.
  - destruct s as [s|]; [|intros [|? ?] v H; discriminate H].
    induction s as [|c s IH]; intros u v; [intros H; destruct u; discriminate H|].
    rewrite esc_cons. destruct (isMarkup c) eqn:E.
    + destruct (entity_markup c E) as (tail & Ht & ->).
      destruct u as [|x u]; cbn [app].
      * intros [= <-]. exists tail. split; [exact Ht|].
        apply startsWith_spec. exists (esc (Some s)). reflexivity.
      * intros [= <- H].
        assert (S : exists u', u = tail ++ u' /\ esc (Some s) = u' ++ 38%N :: v).
        { revert Ht H. unfold entityTails. simpl.
          intros [<-|[<-|[<-|[<-|[<-|[]]]]]] H; simpl in H;
            repeat (destruct u as [|? u]; [discriminate H|];
                    cbn [app] in H; injection H as <- H);
            exists u; split; reflexivity || exact H. }
        destruct S as (u' & _ & H'). exact (IH u' v H').
    + rewrite (entity_plain c E).
      destruct u as [|x u]; cbn [app].
      * intros [= -> _]. discriminate E.
      * intros [= _ H]. exact (IH u v H).
Qed.

(** X15.  [esc] loses nothing: two strings with the same escaped text
    are the same string. *)
Theorem esc_injective :
  forall (a b : jsstring), esc (Some a) = esc (Some b) -> a = b.
Proof.
  intros a. induction a as [|c a IH]; intros [|d b].
  - reflexivity.
  - rewrite esc_cons. intros H. exfalso.
    unfold entity in H.
    repeat match type of H with context [if ?x then _ else _] => destruct x end;
      discriminate H.
  - rewrite esc_cons. intros H. exfalso.
    unfold entity in H.
    repeat match type of H with context [if ?x then _ else _] => destruct x end;
      discriminate H.
  - rewrite !esc_cons. intros H.
    assert (E : c = d /\ esc (Some a) = esc (Some b)).
    { unfold entity in H.
      destruct (N.eqb_spec c 38); [|destruct (N.eqb_spec c 60);
        [|destruct (N.eqb_spec c 62); [|destruct (N.eqb_spec c 34);
          [|destruct (N.eqb_spec c 39)]]]];
      (destruct (N.eqb_spec d 38); [|destruct (N.eqb_spec d 60);
        [|destruct (N.eqb_spec d 62); [|destruct (N.eqb_spec d 34);
          [|destruct (N.eqb_spec d 39)]]]]);
      cbv -[esc] in H; split; congruence. }
    destruct E as [-> E]. f_equal. apply IH, E.
Qed.

Lemma esc_injective_witness : lit "a<b & c" = lit "a<b & c".
Proof. apply (esc_injective (lit "a<b & c") (lit "a<b & c")). reflexivity. Defined.

Lemma esc_plain (s : jsstring) :
  Forall (fun c => isMarkup c = false) (esc (Some s))
  <-> Forall (fun c => isMarkup c = false) s.
Proof.
  induction s as [|c s IH]; [reflexivity|].
  rewrite esc_cons, List.Forall_app. destruct (isMarkup c) eqn:E.
  - destruct (entity_markup c E) as (tail & _ & Ee). rewrite Ee. split.
    + intros [H _]. inversion H. discriminate.
    + intros H. inversion H. congruence.
  - rewrite (entity_plain c E). split.
    + intros [_ H]. constructor; [exact E | apply IH, H].
    + intros H. inversion H; subst. split; [repeat constructor; exact E | apply IH; assumption].
Qed.

(** X16.  What [esc] leaves alone.  [esc] returns its argument
    unchanged exactly when the argument holds none of the five
    characters; so escaping an escaped text changes it again exactly
    when the original held one of them: [esc] is not idempotent. *)
Theorem esc_fixed_points :
  forall (s : jsstring),
    (esc (Some s) = s <-> Forall (fun c => isMarkup c = false) s)
    /\ (esc (Some (esc (Some s))) = esc (Some s)
        <-> Forall (fun c => isMarkup c = false) s)
    /\ esc (Some (esc (Some (lit "a&b")))) = lit "a&amp;amp;b".
Proof.
  intros s. split; [apply esc_fixed|]. split; [|reflexivity].
  rewrite esc_fixed. apply esc_plain.
Qed.

(** X17.  The theme toggle.  Whatever the current attribute of the
    page, the next theme is one of the three modes and differs from the
    current one; and from a mode the toggle comes back to it after
    exactly three steps, passing through the other two. *)
Theorem nextTheme_cycles :
  forall (t : jsstring),
    In (nextTheme t) [lit "system"; lit "light"; lit "dark"]
    /\ nextTheme t <> t
    /\ nextTheme (nextTheme t) <> nextTheme t
    /\ nextTheme (nextTheme (nextTheme t)) <> nextTheme t
    /\ nextTheme (nextTheme (nextTheme (nextTheme t))) = nextTheme t.
Proof.
  intros t.
  assert (H : (t = lit "system" /\ nextTheme t = lit "light")
              \/ (t = lit "light" /\ nextTheme t = lit "dark")
              \/ (t <> lit "system" /\ nextTheme t = lit "system")).
  { unfold nextTheme.
    destruct (jsstring_eqb t (lit "system")) eqn:E1;
      [apply jsstring_eqb_true in E1; tauto|].
    destruct (jsstring_eqb t (lit "light")) eqn:E2;
      [apply jsstring_eqb_true in E2; tauto|].
    apply jsstring_eqb_false in E1. tauto. }
  destruct H as [[-> E] | [[-> E] | [Ht E]]]; rewrite !E;
    (split; [simpl; tauto|]); (split; [try discriminate; congruence|]);
    (split; [vm_compute; discriminate|]); (split; [vm_compute; discriminate|]);
    reflexivity.
Qed.

Lemma find_temperature_zero (f : ModelConfig -> bool) (ms : list ModelConfig) :
  Forall (fun m => temperature m = of_Z 0) ms ->
  match List.find f ms with
  | Some m => temperature m
  | None => of_Z 0
  end = of_Z 0.
Proof.
  induction 1 as [|m ms Hm _ IH]; [reflexivity|].
  cbn [List.find]. destruct (f m); [exact Hm | exact IH].
Qed.

Lemma jsstring_eqb_sym (a b : jsstring) : jsstring_eqb a b = jsstring_eqb b a.
Proof. unfold jsstring_eqb. apply bool_decide_ext. split; congruence. Qed.

(** The provider [getModelTemperature] looks the model up in. *)
Lemma provider_found (providerId : jsstring) :
  match List.find (fun x => jsstring_eqb (provider_id x) providerId) PROVIDERS with
  | Some p => p
  | None => providerOpenAI
  end
  = if jsstring_eqb providerId (lit "anthropic") then nth 1 PROVIDERS providerOpenAI
    else if jsstring_eqb providerId (lit "google") then nth 2 PROVIDERS providerOpenAI
    else providerOpenAI.
Proof.
  unfold PROVIDERS. cbn [List.find provider_id providerOpenAI nth].
  rewrite !(jsstring_eqb_sym providerId).
  destruct (jsstring_eqb (lit "openai") providerId) eqn:Eo.
  - apply jsstring_eqb_true in Eo. subst providerId. reflexivity.
  - destruct (jsstring_eqb (lit "anthropic") providerId); [reflexivity|].
    destruct (jsstring_eqb (lit "google") providerId); reflexivity.
Qed.

Lemma getModelTemperature_cases (providerId modelName : jsstring) :
  getModelTemperature providerId modelName
  = if jsstring_eqb modelName (lit "gpt-5-mini")
       && negb (jsstring_eqb providerId (lit "anthropic"))
       && negb (jsstring_eqb providerId (lit "google"))
    then of_Z 1 else of_Z 0.
Proof.
  unfold getModelTemperature. cbv zeta. rewrite provider_found.
  destruct (jsstring_eqb providerId (lit "anthropic")).
  { rewrite andb_false_r. cbn [andb]. apply find_temperature_zero.
    repeat constructor. }
  destruct (jsstring_eqb providerId (lit "google")).
  { rewrite andb_false_r. apply find_temperature_zero. repeat constructor. }
  cbn [negb]. rewrite !andb_true_r.
  unfold providerOpenAI. cbn [models List.find model_name].
  rewrite (jsstring_eqb_sym modelName).
  destruct (jsstring_eqb (lit "gpt-5-mini") modelName); [reflexivity|].
  repeat match goal with
         | |- context [if ?b then _ else _] => destruct b
         end; reflexivity.
Qed.

(** X18.  The temperature of a model.  It is 1 for the model
    gpt-5-mini under every provider id other than anthropic and google
    (an unknown provider id falls back to the first provider, OpenAI),
    and 0 in every other case, the unknown model names included. *)
Theorem getModelTemperature_spec :
  forall (providerId modelName : jsstring),
    (getModelTemperature providerId modelName = of_Z 1
     <-> modelName = lit "gpt-5-mini"
         /\ providerId <> lit "anthropic" /\ providerId <> lit "google")
    /\ (getModelTemperature providerId modelName = of_Z 1
        \/ getModelTemperature providerId modelName = of_Z 0)
    /\ ((forall p, In p PROVIDERS ->
                   Forall (fun m => model_name m <> modelName) (models p)) ->
        getModelTemperature providerId modelName = of_Z 0).
Proof.
  intros providerId modelName. rewrite getModelTemperature_cases.
  destruct (jsstring_eqb modelName (lit "gpt-5-mini")) eqn:Em;
    destruct (jsstring_eqb providerId (lit "anthropic")) eqn:Ea;
    destruct (jsstring_eqb providerId (lit "google")) eqn:Eg;
    cbn [negb andb];
    rewrite ?jsstring_eqb_true, ?jsstring_eqb_false in *;
    (split; [split; [intros H; try discriminate H; tauto | intros (? & ? & ?); congruence]|]);
    (split; [tauto|]); try reflexivity;
    intros H; exfalso;
    assert (Hin : In providerOpenAI PROVIDERS) by (left; reflexivity);
    specialize (H providerOpenAI Hin); inversion H; subst; simpl in *; congruence.
Qed.

Lemma of_Z_100 : of_Z 100 = S754_finite false 7036874417766400 (-46).
Proof. reflexivity. Qed.

(** Comparing two positive finite numbers one way and the other. *)
Lemma SFcompare_finite_Gt (m1 m2 : positive) (e1 e2 : Z) :
  SFcompare (S754_finite false m1 e1) (S754_finite false m2 e2) = Some Gt ->
  SFcompare (S754_finite false m2 e2) (S754_finite false m1 e1) = Some Lt.
Proof.
  cbn [SFcompare]. rewrite (Z.compare_antisym e1 e2).
  destruct (e1 ?= e2) eqn:E; cbn [CompOpp]; try discriminate; [|reflexivity].
  change (Pos.compare_cont Eq m2 m1) with (Pos.compare_cont (CompOpp Eq) m2 m1).
  rewrite <- (Pos.compare_cont_antisym m1 m2 Eq).
  destruct (Pos.compare_cont Eq m1 m2); cbn [CompOpp]; try discriminate. reflexivity.
Qed.

(** X19.  The width of the progress bar.  For every number that is not
    NaN the width [setBar] writes lies between 0 and 100; it is 100 for
    every number from 100 up, the 200 per cent of a skipped single
    transaction included, and 0 for every number down from 0. *)
Theorem setBar_width_clamped :
  forall (pct : number),
    pct <> NaN ->
    num_leb (of_Z 0) (setBar_width pct) = true
    /\ num_leb (setBar_width pct) (of_Z 100) = true
    /\ (num_leb (of_Z 100) pct = true -> setBar_width pct = of_Z 100)
    /\ (num_leb pct (of_Z 0) = true -> setBar_width pct = of_Z 0).
Proof.
  intros pct Hn. unfold setBar_width, num_leb. rewrite of_Z_100, of_Z_0.
  destruct pct as [s|s| |s m e]; [| | contradiction |].
  - destruct s; repeat split; try reflexivity; intros H; cbv in H; discriminate H.
  - destruct s; repeat split; try reflexivity; intros H; cbv in H; discriminate H.
  - destruct s.
    + repeat split; try reflexivity; intros H; cbv in H; discriminate H.
    + unfold Math_min.
      destruct (SFcompare (S754_finite false 7036874417766400 (-46))
                          (S754_finite false m e)) as [[| |]|] eqn:E.
      * repeat split; try reflexivity; intros H; cbv in H; discriminate H.
      * repeat split; try reflexivity; intros H; cbv in H; discriminate H.
      * pose proof (SFcompare_finite_Gt _ _ _ _ E) as E'.
        unfold Math_max. cbn [SFcompare].
        split; [reflexivity|]. split; [unfold SFleb; rewrite E'; reflexivity|].
        split.
        -- unfold SFleb. rewrite E. discriminate.
        -- intros H. cbv in H. discriminate H.
      * cbn [SFcompare] in E. discriminate.
Qed.

Lemma setBar_width_clamped_witness :
  num_leb (of_Z 0) (setBar_width (of_Z 200)) = true
  /\ num_leb (setBar_width (of_Z 200)) (of_Z 100) = true
  /\ (num_leb (of_Z 100) (of_Z 200) = true -> setBar_width (of_Z 200) = of_Z 100)
  /\ (num_leb (of_Z 200) (of_Z 0) = true -> setBar_width (of_Z 200) = of_Z 0).
Proof. apply (setBar_width_clamped (of_Z 200)). discriminate. Defined.

(* ================================================================== *)
(** * The prompt of a transaction *)
(* ================================================================== *)

Lemma toString_ok (Number_toString : number -> jsstring) (v : JSValue) :
  stringifiable v = true -> exists s, toString Number_toString v = Normal s.
Proof.
  intros H. pose proof (toString_stringifiable Number_toString v) as T.
  rewrite H in T. exact T.
Qed.

Lemma toString_only_TypeError (Number_toString : number -> jsstring) (v : JSValue) (e : exn) :
  toString Number_toString v = Throw e -> e = TypeError.
Proof.
  intros H. pose proof (toString_stringifiable Number_toString v) as T.
  destruct (stringifiable v).
  - destruct T as [s T]. congruence.
  - congruence.
Qed.

Lemma isString_stringifiable (v : JSValue) : isString v = true -> stringifiable v = true.
Proof. destruct v; try discriminate; reflexivity. Qed.

Lemma isStringOrNull_stringifiable (v : JSValue) :
  isStringOrNull v = true -> stringifiable v = true.
Proof. destruct v; try discriminate; reflexivity. Qed.

Lemma hasField_get (check : JSValue -> bool) (o : JSValue) (key : jsstring) (x : JSValue) :
  hasField check o key = true -> get o key = Some x -> check x = true.
Proof. unfold hasField. intros H E. rewrite E in H. exact H. Qed.

Lemma chain_object (o : JSValue) (key : jsstring) :
  isObject o = true -> chain (Some o) key = get o key.
Proof. destruct o; try discriminate; reflexivity. Qed.

Ltac byField E := eapply hasField_get; [|exact E]; assumption.

Section TransactionPromptFacts.

Variable Number_toString : number -> jsstring.

(** A value that is absent or can be converted. *)
Let convertibleOpt (v : option JSValue) : Prop :=
  forall x, v = Some x -> stringifiable x = true.

Lemma render_ok (v : option JSValue) :
  convertibleOpt v -> exists s, render Number_toString v = Normal s.
Proof.
  intros H. destruct v as [x|]; [|eexists; reflexivity].
  apply toString_ok, H. reflexivity.
Qed.

Lemma renderOrEmpty_ok (v : option JSValue) :
  convertibleOpt v -> exists s, renderOrEmpty Number_toString v = Normal s.
Proof.
  intros H. destruct v as [x|]; [|eexists; reflexivity].
  destruct x; try (apply toString_ok, H; reflexivity). eexists. reflexivity.
Qed.

Lemma renderOr_ok (v : option JSValue) (fallback : jsstring) :
  convertibleOpt v -> exists s, renderOr Number_toString v fallback = Normal s.
Proof.
  intros H. unfold renderOr. destruct (truthyOpt v); [apply render_ok, H|].
  eexists. reflexivity.
Qed.

Lemma renderWhen_ok (v : option JSValue) (pre post : jsstring) :
  convertibleOpt v -> exists s, renderWhen Number_toString v pre post = Normal s.
Proof.
  intros H. unfold renderWhen. destruct (truthyOpt v); [|eexists; reflexivity].
  destruct (render_ok v H) as [s E]. rewrite E. eexists. reflexivity.
Qed.

Lemma arrayJoin_ok (sep : jsstring) (items : list JSValue) :
  forallb stringifiable items = true ->
  exists s, arrayJoin Number_toString sep items = Normal s.
Proof.
  intros H. unfold arrayJoin.
  assert (M : exists parts,
             mapM (fun item => match item with
                               | JNull => Normal []
                               | _ => toString Number_toString item
                               end) items = Normal parts).
  { induction items as [|x items IH]; [eexists; reflexivity|].
    cbn [forallb] in H. apply andb_true_iff in H. destruct H as [Hx H].
    destruct (IH H) as [parts E]. cbn [mapM]. rewrite E.
    destruct (toString_ok Number_toString x Hx) as [s Es].
    destruct x; try (rewrite Es); eexists; reflexivity. }
  destruct M as [parts E]. rewrite E. eexists. reflexivity.
Qed.

Lemma forallb_isString_stringifiable (items : list JSValue) :
  forallb isString items = true -> forallb stringifiable items = true.
Proof.
  rewrite !forallb_forall. intros H x Hx. apply isString_stringifiable, H, Hx.
Qed.

Lemma plaidCategoryText_ok (m : JSValue) :
  isPlaidMetadata m = true ->
  exists s, plaidCategoryText Number_toString m = Normal s.
Proof.
  unfold isPlaidMetadata. intros H.
  repeat (apply andb_true_iff in H; destruct H as [H ?]).
  unfold plaidCategoryText. rewrite (chain_object m _ H).
  destruct (get m (lit "category")) as [v|] eqn:E; [|eexists; reflexivity].
  match goal with
  | F : hasField _ m (lit "category") = true |- _ =>
      pose proof (hasField_get _ _ _ _ F E) as Hv
  end.
  cbv beta in Hv. destruct v; try discriminate Hv.
  destruct (arrayJoin_ok (lit ", ") items (forallb_isString_stringifiable _ Hv)) as [s Es].
  rewrite Es. eexists. reflexivity.
Qed.

Lemma locationText_ok (m : JSValue) :
  isPlaidMetadata m = true ->
  exists s, locationText Number_toString m = Normal s.
Proof.
  unfold isPlaidMetadata. intros H.
  repeat (apply andb_true_iff in H; destruct H as [H ?]).
  unfold locationText. cbv zeta. rewrite (chain_object m _ H).
  match goal with
  | |- context [arrayJoin _ _ ?parts] =>
      assert (F : forallb stringifiable parts = true)
  end.
  { destruct (get m (lit "location")) as [loc|] eqn:E; [|reflexivity].
    match goal with
    | F : hasField isLocation m _ = true |- _ =>
        pose proof (hasField_get _ _ _ _ F E) as Hl
    end.
    unfold isLocation in Hl.
    repeat (apply andb_true_iff in Hl; destruct Hl as [Hl ?]).
    rewrite !(chain_object loc _ Hl).
    apply forallb_forall. intros x Hx. apply filter_In in Hx. destruct Hx as [Hx _].
    cbn [flat_map] in Hx. rewrite app_nil_r in Hx. apply in_app_or in Hx.
    destruct Hx as [Hx|Hx].
    - destruct (get loc (lit "city")) as [c|] eqn:Ec; [|contradiction].
      destruct Hx as [<-|[]]. apply isString_stringifiable; byField Ec.
    - destruct (get loc (lit "region")) as [c|] eqn:Ec; [|contradiction].
      destruct Hx as [<-|[]]. apply isString_stringifiable; byField Ec. }
  destruct (arrayJoin_ok (lit ", ") _ F) as [s Es]. rewrite Es. eexists. reflexivity.
Qed.

Lemma pfcText_ok (m : JSValue) :
  isPlaidMetadata m = true ->
  exists s, pfcText Number_toString m = Normal s.
Proof.
  unfold isPlaidMetadata. intros H.
  repeat (apply andb_true_iff in H; destruct H as [H ?]).
  unfold pfcText. cbv zeta. rewrite (chain_object m _ H).
  assert (F : forall key, key = lit "primary" \/ key = lit "detailed" ->
                          forall x, chain (get m (lit "personal_finance_category")) key = Some x ->
                                    stringifiable x = true).
  { intros key Hk x. destruct (get m (lit "personal_finance_category")) as [p|] eqn:E;
      [|discriminate].
    match goal with
    | F : hasField isPersonalFinanceCategory m _ = true |- _ =>
        pose proof (hasField_get _ _ _ _ F E) as Hp
    end.
    destruct p; try discriminate Hp; [discriminate|].
    cbn [isPersonalFinanceCategory] in Hp.
    repeat (apply andb_true_iff in Hp; destruct Hp as [Hp ?]).
    cbn [chain]. intros Ex. apply isString_stringifiable.
    destruct Hk as [-> | ->]; byField Ex. }
  match goal with
  | |- context [if ?b then _ else Normal (lit "Unknown")] => destruct b
  end; [|eexists; reflexivity].
  destruct (renderOrEmpty_ok _ (F (lit "primary") (or_introl eq_refl)))
    as [p Ep].
  destruct (renderOrEmpty_ok _ (F (lit "detailed") (or_intror eq_refl)))
    as [d Ed].
  rewrite Ep, Ed. eexists. reflexivity.
Qed.

Lemma counterpartyText_ok (cp : JSValue) :
  isCounterparty cp = true ->
  exists s, counterpartyText Number_toString cp = Normal s.
Proof.
  unfold isCounterparty. intros H.
  repeat (apply andb_true_iff in H; destruct H as [H ?]).
  destruct cp; try discriminate H. unfold counterpartyText.
  destruct (render_ok (get (JObj members) (lit "name"))) as [n En].
  { intros x Ex. apply isStringOrNull_stringifiable; byField Ex. }
  destruct (render_ok (get (JObj members) (lit "type"))) as [ty Ety].
  { intros x Ex. apply isStringOrNull_stringifiable; byField Ex. }
  destruct (render_ok (get (JObj members) (lit "confidence_level")))
    as [cl Ecl].
  { intros x Ex. apply isString_stringifiable; byField Ex. }
  rewrite En, Ety, Ecl. eexists. reflexivity.
Qed.

Lemma counterparties_ok (m : JSValue) :
  isPlaidMetadata m = true ->
  exists items texts,
    counterpartiesOf m = Normal items
    /\ mapM (counterpartyText Number_toString) items = Normal texts.
Proof.
  unfold isPlaidMetadata. intros H.
  repeat (apply andb_true_iff in H; destruct H as [H ?]).
  unfold counterpartiesOf. rewrite (chain_object m _ H).
  destruct (get m (lit "counterparties")) as [v|] eqn:E;
    [|exists [], []; split; reflexivity].
  match goal with
  | F : hasField _ m (lit "counterparties") = true |- _ =>
      pose proof (hasField_get _ _ _ _ F E) as Hv
  end.
  cbv beta in Hv. destruct v; try discriminate Hv. cbn [truthy].
  exists items. clear E.
  induction items as [|cp items IH]; [exists []; split; reflexivity|].
  cbn [forallb] in Hv. apply andb_true_iff in Hv. destruct Hv as [Hc Hv].
  destruct (IH Hv) as (texts & _ & Et).
  destruct (counterpartyText_ok cp Hc) as [s Es].
  exists (s :: texts). split; [reflexivity|]. cbn [mapM]. rewrite Es, Et. reflexivity.
Qed.

Lemma merchantValue_ok (m : JSValue) (payee : option jsstring) :
  isPlaidMetadata m = true ->
  exists s, toString Number_toString (merchantValue m payee) = Normal s.
Proof.
  unfold isPlaidMetadata. intros H.
  repeat (apply andb_true_iff in H; destruct H as [H ?]).
  apply toString_ok. unfold merchantValue, orValue. rewrite !(chain_object m _ H).
  destruct (get m (lit "merchant_name")) as [v|] eqn:Ev.
  - destruct (truthy v);
      [apply isStringOrNull_stringifiable; byField Ev|].
    destruct (get m (lit "name")) as [n|] eqn:En.
    + destruct (truthy n);
        [apply isStringOrNull_stringifiable; byField En|].
      destruct payee as [p|]; [cbn [option_map]; destruct (truthy (JStr p))|]; reflexivity.
    + destruct payee as [p|]; [cbn [option_map]; destruct (truthy (JStr p))|]; reflexivity.
  - destruct (get m (lit "name")) as [n|] eqn:En.
    + destruct (truthy n);
        [apply isStringOrNull_stringifiable; byField En|].
      destruct payee as [p|]; [cbn [option_map]; destruct (truthy (JStr p))|]; reflexivity.
    + destruct payee as [p|]; [cbn [option_map]; destruct (truthy (JStr p))|]; reflexivity.
Qed.

Lemma promptLines_ok (t : LMTransaction) (m : JSValue) :
  isPlaidMetadata m = true ->
  exists lines, promptLines Number_toString t m = Normal lines.
Proof.
  intros Hm. unfold promptLines. cbv zeta.
  destruct (plaidCategoryText_ok m Hm) as [s1 E1]. rewrite E1. cbn [bind].
  destruct (locationText_ok m Hm) as [s2 E2]. rewrite E2. cbn [bind].
  destruct (pfcText_ok m Hm) as [s3 E3]. rewrite E3. cbn [bind].
  destruct (counterparties_ok m Hm) as (items & texts & E4 & E5).
  rewrite E4. cbn [bind]. rewrite E5. cbn [bind].
  destruct (merchantValue_ok m (t_payee t) Hm) as [s6 E6]. rewrite E6. cbn [bind].
  pose proof Hm as H. unfold isPlaidMetadata in H.
  repeat (apply andb_true_iff in H; destruct H as [H ?]).
  rewrite !(chain_object m _ H).
  assert (E7 : exists s, match t_currency t with
                         | Some c => Normal c
                         | None => renderOrEmpty Number_toString
                                     (get m (lit "iso_currency_code"))
                         end = Normal s).
  { destruct (t_currency t); [eexists; reflexivity|]. apply renderOrEmpty_ok.
    intros x Ex. apply isStringOrNull_stringifiable; byField Ex. }
  destruct E7 as [s7 E7]. rewrite E7. cbn [bind].
  destruct (renderWhen_ok (get m (lit "category_id")) (lit " (#") (lit ")")) as [s8 E8].
  { intros x Ex. apply isString_stringifiable; byField Ex. }
  rewrite E8. cbn [bind].
  destruct (renderWhen_ok (chain (get m (lit "personal_finance_category"))
                                 (lit "confidence_level"))
                          (lit " (") (lit " confidence)")) as [s9 E9].
  { intros x. destruct (get m (lit "personal_finance_category")) as [p|] eqn:E;
      [|discriminate].
    match goal with
    | F : hasField isPersonalFinanceCategory m _ = true |- _ =>
        pose proof (hasField_get _ _ _ _ F E) as Hp
    end.
    destruct p; try discriminate Hp; [discriminate|].
    cbn [isPersonalFinanceCategory] in Hp.
    repeat (apply andb_true_iff in Hp; destruct Hp as [Hp ?]).
    cbn [chain]. intros Ex. apply isString_stringifiable; byField Ex. }
  rewrite E9. cbn [bind].
  destruct (renderOr_ok (get m (lit "payment_channel")) (lit "Unknown")) as [s10 E10].
  { intros x Ex. apply isString_stringifiable; byField Ex. }
  rewrite E10. cbn [bind].
  destruct (renderWhen_ok (get m (lit "transaction_type")) (lit "- Transaction Type: ") [])
    as [s11 E11].
  { intros x Ex. apply isStringOrNull_stringifiable; byField Ex. }
  rewrite E11. cbn [bind]. eexists. reflexivity.
Qed.

Lemma promptLines_null (t : LMTransaction) :
  promptLines Number_toString t JNull
  = Normal
      [ lit "Please categorize this transaction:";
        [];
        lit "- Payee: " ++ default (lit "Unknown") (t_payee t);
        lit "- Merchant: " ++ match t_payee t with
                              | Some p => if jsstring_eqb p [] then lit "Unknown" else p
                              | None => lit "Unknown"
                              end;
        lit "- Amount: " ++ Number_toString (t_amount t);
        lit "- Currency: " ++ default [] (t_currency t);
        lit "- Date: " ++ t_date t;
        lit "- Notes: " ++ default [] (t_notes t);
        lit "- Plaid Category: Unknown";
        lit "- Personal Finance Category: Unknown";
        lit "- Payment Channel: Unknown";
        [];
        [];
        lit "- Location: Unknown";
        lit "- Pending: unknown" ].
Proof.
  unfold promptLines, merchantValue, orValue. cbn [chain].
  destruct (t_payee t) as [p|]; destruct (t_currency t) as [c|];
    cbn [option_map truthy]; try destruct (jsstring_eqb p []); reflexivity.
Qed.

End TransactionPromptFacts.

Lemma arrayJoin_only_TypeError (Number_toString : number -> jsstring) (sep : jsstring)
    (items : list JSValue) (e : exn) :
  arrayJoin Number_toString sep items = Throw e -> e = TypeError.
Proof.
  unfold arrayJoin.
  assert (M : forall e',
             mapM (fun item => match item with
                               | JNull => Normal []
                               | _ => toString Number_toString item
                               end) items = Throw e' -> e' = TypeError).
  { induction items as [|x items IH]; intros e'; [discriminate|].
    cbn [mapM].
    destruct (match x with JNull => Normal [] | _ => toString Number_toString x end)
      as [s|ex] eqn:Ex.
    - cbn [bind]. destruct (mapM _ items) as [ss|es]; [discriminate|].
      cbn [bind]. intros [= <-]. apply IH. reflexivity.
    - cbn [bind]. intros [= <-].
      destruct x; try discriminate Ex;
        exact (toString_only_TypeError Number_toString _ _ Ex). }
  destruct (mapM _ items) as [parts|e']; [discriminate|].
  cbn [bind]. intros [= <-]. apply M. reflexivity.
Qed.

Lemma plaidCategoryText_only_TypeError (Number_toString : number -> jsstring)
    (m : JSValue) (e : exn) :
  plaidCategoryText Number_toString m = Throw e -> e = TypeError.
Proof.
  unfold plaidCategoryText.
  destruct (chain (Some m) (lit "category")) as [v|]; [|discriminate].
  destruct v; try discriminate; try (intros [= <-]; reflexivity).
  destruct (arrayJoin Number_toString (lit ", ") items) as [s|e'] eqn:E; [discriminate|].
  cbn [bind]. intros [= <-]. exact (arrayJoin_only_TypeError _ _ _ _ E).
Qed.

Lemma locationText_only_TypeError (Number_toString : number -> jsstring)
    (m : JSValue) (e : exn) :
  locationText Number_toString m = Throw e -> e = TypeError.
Proof.
  unfold locationText. cbv zeta.
  match goal with
  | |- context [arrayJoin _ _ ?parts] =>
      destruct (arrayJoin Number_toString (lit ", ") parts) as [s|e'] eqn:E
  end; [discriminate|].
  cbn [bind]. intros [= <-]. exact (arrayJoin_only_TypeError _ _ _ _ E).
Qed.

Lemma renderOrEmpty_only_TypeError (Number_toString : number -> jsstring)
    (v : option JSValue) (e : exn) :
  renderOrEmpty Number_toString v = Throw e -> e = TypeError.
Proof.
  destruct v as [x|]; [|discriminate].
  destruct x; try discriminate; apply toString_only_TypeError.
Qed.

Lemma pfcText_only_TypeError (Number_toString : number -> jsstring)
    (m : JSValue) (e : exn) :
  pfcText Number_toString m = Throw e -> e = TypeError.
Proof.
  unfold pfcText. cbv zeta.
  match goal with
  | |- context [if ?b then _ else Normal (lit "Unknown")] => destruct b
  end; [|discriminate].
  match goal with
  | |- context [bind (renderOrEmpty _ ?p) _] =>
      destruct (renderOrEmpty Number_toString p) as [s|e'] eqn:E
  end.
  - cbn [bind].
    match goal with
    | |- context [bind (renderOrEmpty _ ?d) _] =>
        destruct (renderOrEmpty Number_toString d) as [s'|e'] eqn:E'
    end; [discriminate|].
    cbn [bind]. intros [= <-]. exact (renderOrEmpty_only_TypeError _ _ _ E').
  - cbn [bind]. intros [= <-]. exact (renderOrEmpty_only_TypeError _ _ _ E).
Qed.



(** X21.  Metadata of the declared type.  When the metadata is absent
    or is, or parses to, an object whose fields have the types the
    declaration of [plaid_metadata] gives them, [buildTransactionPrompt]
    returns a prompt: it does not throw. *)
Theorem buildTransactionPrompt_declared_type :
  forall (Number_toString : number -> jsstring) (t : LMTransaction),
    fst (parsePlaidMetadata (t_plaid_metadata t)) = JNull
    \/ isPlaidMetadata (fst (parsePlaidMetadata (t_plaid_metadata t))) = true ->
    exists prompt, fst (buildTransactionPrompt Number_toString t) = Normal prompt.
Proof.
  intros N t H. unfold buildTransactionPrompt.
  destruct (parsePlaidMetadata (t_plaid_metadata t)) as [m ws]. cbn [fst] in *.
  destruct H as [-> | H].
  - rewrite promptLines_null. eexists. reflexivity.
  - destruct (promptLines_ok N t m H) as [lines E]. rewrite E. eexists. reflexivity.
Qed.

Lemma buildTransactionPrompt_declared_type_witness :
  exists prompt, fst (buildTransactionPrompt shortestNumeral plaidTransaction) = Normal prompt.
Proof.
  apply (buildTransactionPrompt_declared_type shortestNumeral plaidTransaction).
  right. vm_compute. reflexivity.
Defined.

(** X22.  Metadata that is not of the declared type.  When the parsed
    metadata has a category that is neither null nor an array, the call
    of join on it fails and [buildTransactionPrompt] throws a
    TypeError; so it does when the counterparties are a truthy value
    that is not an array, on which map cannot be called.  The
    declaration allows a string as metadata, and a string may parse to
    such an object. *)
Theorem buildTransactionPrompt_malformed_throws :
  forall (Number_toString : number -> jsstring) (t : LMTransaction) (v : JSValue),
    (get (fst (parsePlaidMetadata (t_plaid_metadata t))) (lit "category") = Some v
     /\ v <> JNull /\ (forall items, v <> JArr items))
    \/ (get (fst (parsePlaidMetadata (t_plaid_metadata t))) (lit "counterparties") = Some v
        /\ truthy v = true /\ (forall items, v <> JArr items)) ->
    fst (buildTransactionPrompt Number_toString t) = Throw TypeError.
Proof.
  intros N t v H. unfold buildTransactionPrompt.
  destruct (parsePlaidMetadata (t_plaid_metadata t)) as [m ws]. cbn [fst] in *.
  assert (Hm : isObject m = true).
  { destruct H as [(E & _) | (E & _)]; destruct m; try discriminate E; reflexivity. }
  unfold promptLines. cbv zeta.
  destruct H as [(E & Hn & Ha) | (E & Ht & Ha)].
  - unfold plaidCategoryText. rewrite (chain_object m _ Hm), E.
    destruct v; try reflexivity; [contradiction | exfalso; exact (Ha items eq_refl)].
  - destruct (plaidCategoryText N m) as [s1|e1] eqn:E1;
      [|rewrite (plaidCategoryText_only_TypeError _ _ _ E1); reflexivity].
    cbn [bind].
    destruct (locationText N m) as [s2|e2] eqn:E2;
      [|rewrite (locationText_only_TypeError _ _ _ E2); reflexivity].
    cbn [bind].
    destruct (pfcText N m) as [s3|e3] eqn:E3;
      [|rewrite (pfcText_only_TypeError _ _ _ E3); reflexivity].
    cbn [bind].
    unfold counterpartiesOf. rewrite (chain_object m _ Hm), E, Ht.
    destruct v; try reflexivity. exfalso. exact (Ha items eq_refl).
Qed.

Lemma buildTransactionPrompt_malformed_throws_witness :
  fst (buildTransactionPrompt shortestNumeral malformedTransaction) = Throw TypeError.
Proof.
  apply (buildTransactionPrompt_malformed_throws shortestNumeral malformedTransaction
           (JStr (lit "Food"))).
  left. split; [vm_compute; reflexivity|]. split; [discriminate | intros items; discriminate].
Defined.

(* ================================================================== *)
(** * What the gate presents *)
(* ================================================================== *)

Lemma suggestionRows_map (lower : jsstring -> jsstring) (categories : list LMCategory)
    (suggestions : list CategorySuggestion) :
  fst (suggestionRows lower categories suggestions)
  = List.map (suggestionRow_of lower categories) suggestions.
Proof.
  unfold suggestionRows.
  induction suggestions as [|s rest IH]; [reflexivity|].
  cbn [fold_right List.map].
  destruct (fold_right _ _ rest) as [rows warns]. cbn [fst] in IH. subst rows.
  destruct (matchCategoryId lower (sname s) categories) as [i w] eqn:Em.
  cbn [fst]. f_equal. unfold suggestionRow_of. rewrite Em. reflexivity.
Qed.

Lemma matchCategoryId_canonical (lower : jsstring -> jsstring)
    (categories : list LMCategory) (q : jsstring) :
  isCanonicalName categories q ->
  exists c, In c categories /\ name c = q
            /\ matchCategoryId lower q categories = (Some (id c), []).
Proof.
  intros (c0 & Hin & Hn). unfold matchCategoryId.
  destruct (List.find (exactMatch q) categories) as [c|] eqn:E.
  - apply find_some in E. destruct E as [Hc Hq].
    apply exactMatch_spec in Hq. exists c. auto.
  - exfalso. pose proof (find_none _ _ E c0 Hin) as H.
    assert (T : exactMatch q c0 = true) by (apply exactMatch_spec; exact Hn).
    congruence.
Qed.

Lemma presentsCategories_Warn (categories : list LMCategory) (msgs : list jsstring) :
  Forall (presentsCategories categories) (List.map Warn msgs).
Proof. induction msgs; constructor; [exact I | assumption]. Qed.

(** Steps that present nothing. *)
Ltac presentsNothing :=
  repeat first
    [ apply appends_ret | apply appends_throw | apply appends_liftCompletion
    | apply appends_getCancelled
    | apply appends_emitAll, presentsCategories_Warn
    | apply appends_emit; exact I
    | apply appends_setCancelled; exact I
    | apply appends_whileSuspended; [exact I | intros; exact I | exact I]
    | apply appends_bind; [|intros]
    | match goal with
      | |- appends _ (if ?b then _ else _) => destruct b
      end ].

Section GateFacts.

Variable toLowerCase : jsstring -> jsstring.
Variable Number_toString : number -> jsstring.
Variable buildTransactionPrompt : LMTransaction -> jsstring.
Variable engineMessage : exn -> jsstring.

Lemma gate_presents t categories suggestions reply :
  Forall (fun s => isCanonicalName categories (sname s)) suggestions ->
  appends (presentsCategories categories)
    (promptUserForCategory toLowerCase t categories suggestions reply).
Proof.
  intros H. unfold promptUserForCategory.
  pose proof (suggestionRows_map toLowerCase categories suggestions) as R.
  destruct (suggestionRows toLowerCase categories suggestions) as [rows rowWarns].
  cbn [fst] in R. subst rows.
  destruct (preId toLowerCase categories suggestions) as [p preWarns].
  apply appends_bind; [apply appends_emitAll, presentsCategories_Warn | intros _].
  apply appends_bind.
  - apply appends_emit. cbn [presentsCategories].
    apply List.Forall_forall. intros r Hr. apply in_map_iff in Hr.
    destruct Hr as (s & <- & Hs). rewrite List.Forall_forall in H.
    destruct (matchCategoryId_canonical toLowerCase categories (sname s) (H s Hs))
      as (c & Hc & Hn & Em).
    exists c. unfold suggestionRow_of. rewrite Em. auto.
  - intros _. apply appends_bind; [presentsNothing | intros _].
    destruct (gate_action reply) as [sel| |]; [|presentsNothing..].
    destruct (match sel with
              | KeepSelection => initialSelection toLowerCase categories suggestions
              | Choose v => v
              end); presentsNothing.
Qed.

Lemma prompt_presents t categories systemPrompt script :
  appends (presentsCategories categories)
    (promptUserForCategoryWithLoading toLowerCase Number_toString buildTransactionPrompt
       engineMessage t categories systemPrompt script).
Proof.
  unfold promptUserForCategoryWithLoading.
  apply appends_bind; [presentsNothing | intros _].
  apply appends_bind; [presentsNothing | intros _].
  apply appends_tryCatch.
  - apply appends_bind; [unfold chooseCategoryOptions; presentsNothing | intros raw].
    apply appends_bind; [presentsNothing | intros [|]]; [presentsNothing|].
    pose proof (validate_kept_iff raw categories) as V.
    destruct (validateCategorySuggestions raw categories) as [suggestions warns].
    cbn [fst] in V.
    apply appends_bind; [presentsNothing | intros _].
    apply appends_bind; [presentsNothing | intros _].
    apply gate_presents. apply List.Forall_forall. intros s Hs. apply V, Hs.
  - intros e.
    apply appends_bind; [presentsNothing | intros _].
    apply appends_bind; [presentsNothing | intros _].
    apply gate_presents. constructor.
Qed.

End GateFacts.

(** X23.  Only categories are offered.  Whatever the model replies,
    each suggestion row that [promptUserForCategoryWithLoading] presents
    at the gate names a category of the list exactly, character for
    character, and carries the id of a category of that name: a
    suggestion that is not a category never reaches the user. *)
Theorem presented_suggestions_are_categories :
  forall (toLowerCase : jsstring -> jsstring) (Number_toString : number -> jsstring)
         (buildTransactionPrompt : LMTransaction -> jsstring)
         (engineMessage : exn -> jsstring)
         (t : LMTransaction) (categories : list LMCategory) (systemPrompt : jsstring)
         (script : txScript) (w : world),
  exists evs,
    trace (snd (promptUserForCategoryWithLoading toLowerCase Number_toString
                  buildTransactionPrompt engineMessage t categories systemPrompt script w))
    = trace w ++ evs
    /\ forall tx rows selected,
         In (Present tx rows selected) evs ->
         Forall (fun r => exists c, In c categories /\ name c = row_name r
                                    /\ row_id r = Some (id c)) rows.
Proof.
  intros toLowerCase Number_toString buildTransactionPrompt engineMessage
         t categories systemPrompt script w.
  destruct (prompt_presents toLowerCase Number_toString buildTransactionPrompt
              engineMessage t categories systemPrompt script w) as (evs & E & F).
  exists evs. split; [exact E|]. intros tx rows selected Hin.
  rewrite List.Forall_forall in F. exact (F _ Hin).
Qed.

(** X24.  The rows of the gate follow the suggestions.  The gate shows
    one row for each suggestion it is given, in the order of the
    suggestions and under their names: nothing is sorted again, dropped
    or added; and the id of each row is null or the id of a category of
    the list. *)
Theorem suggestionRows_in_order :
  forall (toLowerCase : jsstring -> jsstring) (categories : list LMCategory)
         (suggestions : list CategorySuggestion),
    List.map row_name (fst (suggestionRows toLowerCase categories suggestions))
    = List.map sname suggestions
    /\ Forall (fun r => row_id r = None
                        \/ exists c, In c categories /\ row_id r = Some (id c))
              (fst (suggestionRows toLowerCase categories suggestions)).
Proof.
  intros lower categories suggestions. rewrite suggestionRows_map. split.
  - rewrite map_map. reflexivity.
  - apply List.Forall_forall. intros r Hr. apply in_map_iff in Hr.
    destruct Hr as (s & <- & _). unfold suggestionRow_of. cbn [row_id].
    destruct (fst (matchCategoryId lower (sname s) categories)) as [i|] eqn:E;
      [|left; reflexivity].
    right. destruct (matchCategoryId_some lower _ _ _ E) as (c & Hc & <- & _).
    exists c. auto.
Qed.

(** X25.  A ledger that cannot be read.  With the token, the key and the
    model given, when the fetch of the categories fails with the
    exception [e] and Cancel is not clicked meanwhile, [run] logs the
    fatal error with the message of [e] and returns; no transaction is
    fetched, no model is asked and nothing is committed. *)
Theorem run_categories_fetch_failure :
  forall (toLowerCase : jsstring -> jsstring) (Number_toString : number -> jsstring)
         (buildTransactionPrompt transactionTitle : LMTransaction -> jsstring)
         (engineMessage : exn -> jsstring)
         (lmToken apiKey model start end_ : jsstring) (env : runEnv) (w : world) (e : exn),
    trim lmToken <> [] -> trim apiKey <> [] -> model <> [] ->
    fetch_cancelClicked (categoriesReply env) = false ->
    fetch_outcome (categoriesReply env) = Throw e ->
    run toLowerCase Number_toString buildTransactionPrompt transactionTitle
      engineMessage lmToken apiKey model start end_ env w
    = (Normal None,
       mkWorld false
         (trace w ++ [SetBar (of_Z 0);
                      Log (lit "Fetching categories...") cls_info;
                      Log (lit "Fatal error: " ++ errorMessage engineMessage e) cls_err])).
Proof.
  intros lower N btp title emsg lmToken apiKey model start end_ env w e Ht Hk Hm Hc Ho.
  apply jsstring_eqb_false in Ht, Hk, Hm.
  unfold run, fetch, tryCatch, whileSuspended, liftCompletion, ebind, emit,
    resetCancelled, ret.
  rewrite Ht, Hk, Hm, Hc, Ho. cbn [trace cancelled].
  rewrite <- !app_assoc. reflexivity.
Qed.

Lemma run_categories_fetch_failure_witness :
  run toLowerCase_ascii shortestNumeral samplePrompt sampleTitle sampleMessage
    (lit "token") (lit "key") (lit "model") (lit "2024-01-01") (lit "2024-02-29")
    refusingEnv (mkWorld false [])
  = (Normal None,
     mkWorld false
       ([] ++ [SetBar (of_Z 0);
               Log (lit "Fetching categories...") cls_info;
               Log (lit "Fatal error: "
                    ++ errorMessage sampleMessage
                         (Error (lit "Lunch Money HTTP 401: Unauthorized"))) cls_err])).
Proof.
  apply (run_categories_fetch_failure toLowerCase_ascii shortestNumeral samplePrompt
           sampleTitle sampleMessage (lit "token") (lit "key") (lit "model")
           (lit "2024-01-01") (lit "2024-02-29") refusingEnv (mkWorld false [])
           (Error (lit "Lunch Money HTTP 401: Unauthorized")));
    first [discriminate | reflexivity | (vm_compute; discriminate)].
Defined.

(** X26.  Cancelling twice.  The first click on Cancel sets the flag,
    logs one line and closes the modal; after it the flag is set, and a
    further click changes nothing: no second line is logged. *)
Theorem onGlobalCancel_once :
  forall (w : world),
    cancelled (snd (onGlobalCancel w)) = true
    /\ onGlobalCancel (snd (onGlobalCancel w)) = (Normal tt, snd (onGlobalCancel w))
    /\ (cancelled w = false ->
        trace (snd (onGlobalCancel w))
        = trace w ++ [FlagSet; Log (lit "Cancelling" ++ [8230%N]) cls_warn; CloseModal])
    /\ (cancelled w = true -> snd (onGlobalCancel w) = w).
Proof.
  intros [c tr]. unfold onGlobalCancel, ebind, getCancelled, setCancelled, emit, ret.
  destruct c; cbn [cancelled trace snd].
  - repeat split; try reflexivity. discriminate.
  - repeat split; try reflexivity; try discriminate.
    intros _. rewrite <- !app_assoc. reflexivity.
Qed.







